(** * ProcessTrace: demand-paged trace interpreter

    A shallow embedding of [ProcessTrace.cpp]: the command loop [Execute],
    the line reader [ParseCommand], the seven command handlers and the two
    page-table editors [AllocateAndMapPage] and [SetWritableStatus].

    The MMU, its PMCB, the page-frame allocator and the constants of the
    memory library are used by [ProcessTrace.cpp] but declared elsewhere;
    they are modelled here from the specification, each under a comment that
    says so.  Everything named after a function of [ProcessTrace.cpp] follows
    that function statement by statement. *)

From Stdlib Require Import ZArith Lia List Bool Ascii String.
From stdpp Require Import base option gmap.

Local Open Scope Z_scope.

(* ===================================================================== *)
(** ** Machine integers *)
(* ===================================================================== *)

(** [Addr], [uint32_t] and [PageTableEntry] are 32-bit unsigned: every
    arithmetic result is reduced modulo [2^32]. *)
Definition wrap32 (z : Z) : Z := z mod 4294967296.

(** Conversion to [uint8_t]. *)
Definition wrap8 (z : Z) : Z := z mod 256.

(* ===================================================================== *)
(** ** Constants of the memory library *)
(* ===================================================================== *)

(** Modelled from the spec: the bit-field widths of the two-level walk and
    the layout of a page-table entry (present flag in the lowest bit, the
    writable flag in the next, the frame address above the page offset).
    The header that declares them is not part of the sources; the page size
    agrees with the literal [0x1000] of [CmdWritable]. *)
Definition kPageSizeBits : Z := 12.
Definition kPageSize : Z := 4096.
Definition kPageTableSizeBits : Z := 10.
Definition kPageTableIndexMask : Z := 1023.
Definition kPageNumberMask : Z := 4294963200.
Definition kPTE_PresentMask : Z := 1.
Definition kPTE_WritableMask : Z := 2.
Definition sizeof_PageTableEntry : Z := 4.

(* ===================================================================== *)
(** ** Physical memory and the MMU *)
(* ===================================================================== *)

Module Mem.

(** Modelled from the spec: the fault kinds raised by the translator. *)
Inductive Exception : Type :=
  | PageFaultException
  | WritePermissionFaultException.

(** Modelled from the spec: the operation-kind tag of a PMCB. *)
Inductive Operation : Type := NONE | READ_OP | WRITE_OP.

(** Modelled from the spec: the addressing context.  [next_vaddress] is the
    progress marker, one past the last byte processed. *)
Record PMCB : Type := mkPMCB {
  vm_enable : bool;
  page_table_base : Z;
  operation_state : Operation;
  next_vaddress : Z
}.

(** Modelled from the spec: the MMU holds physical memory (a byte per
    address, zero where never written) and the one active context. *)
Record MMU : Type := mkMMU {
  pmem : gmap Z Z;
  pmcb : PMCB
}.

(** A byte of memory is a [uint8_t]: reading yields a value below 256. *)
Definition byte_at (pm : gmap Z Z) (a : Z) : Z := wrap8 (default 0 (pm !! a)).

(** A page-table entry is four bytes, least significant first. *)
Definition entry_at (pm : gmap Z Z) (a : Z) : Z :=
  byte_at pm a
  + 256 * byte_at pm (wrap32 (a + 1))
  + 65536 * byte_at pm (wrap32 (a + 2))
  + 16777216 * byte_at pm (wrap32 (a + 3)).

Definition entry_bytes (e : Z) : list Z :=
  [ e mod 256; (e / 256) mod 256; (e / 65536) mod 256; (e / 16777216) mod 256 ].

Definition entry_of_bytes (bs : list Z) : Z :=
  nth 0 bs 0 + 256 * nth 1 bs 0 + 65536 * nth 2 bs 0 + 16777216 * nth 3 bs 0.

(** Outcome of translating one virtual address. *)
Inductive Translation : Type :=
  | Unmapped
  | Mapped (paddr : Z) (writable : bool).

(** Modelled from the spec: the two-level walk.  The first-level entry is at
    [root + L1_index * entry_size]; when present, the second-level entry is
    at its frame plus [L2_index * entry_size]; when present, the physical
    address is that entry's frame plus the page offset. *)
Definition walk (pm : gmap Z Z) (root vaddr : Z) : Translation :=
  let l1 := entry_at pm (wrap32 (root + sizeof_PageTableEntry
                  * Z.shiftr vaddr (kPageSizeBits + kPageTableSizeBits))) in
  if Z.land l1 kPTE_PresentMask =? 0 then Unmapped
  else
    let l2 := entry_at pm (wrap32 (Z.land l1 kPageNumberMask + sizeof_PageTableEntry
                    * Z.land (Z.shiftr vaddr kPageSizeBits) kPageTableIndexMask)) in
    if Z.land l2 kPTE_PresentMask =? 0 then Unmapped
    else Mapped (Z.land l2 kPageNumberMask + Z.land vaddr (kPageSize - 1))
                (negb (Z.land l2 kPTE_WritableMask =? 0)).

(** Translation under a context: with paging disabled the address is
    physical and every byte is writable. *)
Definition translate (c : PMCB) (pm : gmap Z Z) (vaddr : Z) : Translation :=
  if vm_enable c then walk pm (page_table_base c) vaddr else Mapped vaddr true.

(** Modelled from the spec: a byte-range write.  Bytes are stored one after
    another; the first byte on an unmapped page stops the operation with a
    page fault, the first on a read-only page with a permission fault.  The
    result carries the memory, the address reached and the fault if any. *)
Fixpoint write_seq (c : PMCB) (pm : gmap Z Z) (va : Z) (data : list Z)
  : gmap Z Z * Z * option Exception :=
  match data with
  | [] => (pm, va, None)
  | b :: rest =>
      match translate c pm va with
      | Unmapped => (pm, va, Some PageFaultException)
      | Mapped pa w =>
          if w then write_seq c (<[pa := b]> pm) (wrap32 (va + 1)) rest
          else (pm, va, Some WritePermissionFaultException)
      end
  end.

(** Modelled from the spec: a byte-range read of [n] bytes; the bytes read
    before a fault stay in the buffer. *)
Fixpoint read_seq (c : PMCB) (pm : gmap Z Z) (va : Z) (n : nat)
  : list Z * Z * option Exception :=
  match n with
  | O => ([], va, None)
  | S n' =>
      match translate c pm va with
      | Unmapped => ([], va, Some PageFaultException)
      | Mapped pa _ =>
          let '(bs, va', e) := read_seq c pm (wrap32 (va + 1)) n' in
          (byte_at pm pa :: bs, va', e)
      end
  end.

(** The context as an operation leaves it: on a fault the kind tag stays set
    and the marker names the first byte not processed; on completion the tag
    is cleared and the marker is one past the range. *)
Definition after_op (c : PMCB) (op : Operation) (va : Z) (e : option Exception) : PMCB :=
  {| vm_enable := vm_enable c;
     page_table_base := page_table_base c;
     operation_state := match e with Some _ => op | None => NONE end;
     next_vaddress := va |}.

Definition set_PMCB (m : MMU) (c : PMCB) : MMU := {| pmem := pmem m; pmcb := c |}.
Definition get_PMCB (m : MMU) : PMCB := pmcb m.

Definition put_bytes (m : MMU) (vaddr : Z) (data : list Z) : MMU * option Exception :=
  let '(pm, va, e) := write_seq (pmcb m) (pmem m) vaddr data in
  ({| pmem := pm; pmcb := after_op (pmcb m) WRITE_OP va e |}, e).

Definition put_byte (m : MMU) (vaddr : Z) (b : Z) : MMU * option Exception :=
  put_bytes m vaddr [b].

Definition get_bytes (m : MMU) (vaddr : Z) (count : Z) : MMU * list Z * option Exception :=
  let '(bs, va, e) := read_seq (pmcb m) (pmem m) vaddr (Z.to_nat count) in
  ({| pmem := pmem m; pmcb := after_op (pmcb m) READ_OP va e |}, bs, e).

Definition get_byte (m : MMU) (vaddr : Z) : MMU * list Z * option Exception :=
  get_bytes m vaddr 1.

End Mem.

Import Mem.

(* ===================================================================== *)
(** ** The process record *)
(* ===================================================================== *)

(** What the process writes to [cout], one constructor per kind of line;
    the newest entry is first. *)
Inductive Output : Type :=
  | OutEcho (line_number id_number : Z) (line : string)
  | OutCompareError (addr expected actual : Z)
  | OutException (type : string) (line_number vaddr : Z) (e : Exception)
  | OutQuotaExceeded (quota : Z)
  | OutDumpAddr (addr : Z)
  | OutDumpByte (b : Z)
  | OutNewline.

(** Record of the write accesses a handler issues to the MMU and of the
    recoveries between them, newest first.  It is not a field of the C++
    class: it makes the order of the calls of [put_bytes], [put_byte] and
    [AllocateAndMapPage] observable. *)
Inductive Access : Type :=
  | Issued (vaddr count : Z)
  | Faulted (marker : Z)
  | Recovered (page : Z).

(** Ways the program ends without returning to the caller of [Execute]. *)
Inductive Fatal : Type :=
  | Exit_invalid_command
  | Uncaught_out_of_range
  | Uncaught_bad_alloc
  | Uncaught_memory_exception
  | Allocator_exhausted.

(** Modelled from the spec: the allocator hands out frame addresses it has
    never returned before and never takes one back; it is the list of the
    frames still free. *)
Definition PageFrameAllocator : Type := list Z.

Record ProcessTrace : Type := mkProcessTrace {
  memory : MMU;
  allocator : PageFrameAllocator;
  trace : list string;
  line_number : Z;
  id_number : Z;
  allocated_pages : Z;
  QUOTA : Z;
  vmem_pmcb : PMCB;
  cout : list Output;
  accesses : list Access
}.

(** Modelled from the spec: the physical-mode context, paging disabled. *)
Definition pmem_pmcb : PMCB :=
  {| vm_enable := false; page_table_base := 0;
     operation_state := NONE; next_vaddress := 0 |}.

Definition with_memory (s : ProcessTrace) (m : MMU) : ProcessTrace :=
  mkProcessTrace m (allocator s) (trace s) (line_number s) (id_number s)
    (allocated_pages s) (QUOTA s) (vmem_pmcb s) (cout s) (accesses s).
Definition with_allocator (s : ProcessTrace) (a : PageFrameAllocator) : ProcessTrace :=
  mkProcessTrace (memory s) a (trace s) (line_number s) (id_number s)
    (allocated_pages s) (QUOTA s) (vmem_pmcb s) (cout s) (accesses s).
Definition with_trace (s : ProcessTrace) (t : list string) : ProcessTrace :=
  mkProcessTrace (memory s) (allocator s) t (line_number s) (id_number s)
    (allocated_pages s) (QUOTA s) (vmem_pmcb s) (cout s) (accesses s).
Definition with_line_number (s : ProcessTrace) (n : Z) : ProcessTrace :=
  mkProcessTrace (memory s) (allocator s) (trace s) n (id_number s)
    (allocated_pages s) (QUOTA s) (vmem_pmcb s) (cout s) (accesses s).
Definition with_allocated_pages (s : ProcessTrace) (n : Z) : ProcessTrace :=
  mkProcessTrace (memory s) (allocator s) (trace s) (line_number s) (id_number s)
    n (QUOTA s) (vmem_pmcb s) (cout s) (accesses s).
Definition with_QUOTA (s : ProcessTrace) (q : Z) : ProcessTrace :=
  mkProcessTrace (memory s) (allocator s) (trace s) (line_number s) (id_number s)
    (allocated_pages s) q (vmem_pmcb s) (cout s) (accesses s).
Definition with_vmem_pmcb (s : ProcessTrace) (c : PMCB) : ProcessTrace :=
  mkProcessTrace (memory s) (allocator s) (trace s) (line_number s) (id_number s)
    (allocated_pages s) (QUOTA s) c (cout s) (accesses s).
Definition print (s : ProcessTrace) (o : Output) : ProcessTrace :=
  mkProcessTrace (memory s) (allocator s) (trace s) (line_number s) (id_number s)
    (allocated_pages s) (QUOTA s) (vmem_pmcb s) (o :: cout s) (accesses s).
Definition note (s : ProcessTrace) (a : Access) : ProcessTrace :=
  mkProcessTrace (memory s) (allocator s) (trace s) (line_number s) (id_number s)
    (allocated_pages s) (QUOTA s) (vmem_pmcb s) (cout s) (a :: accesses s).

(** [vmem_pmcb.operation_state = mem::PMCB::NONE]. *)
Definition clear_operation (c : PMCB) : PMCB :=
  {| vm_enable := vm_enable c; page_table_base := page_table_base c;
     operation_state := NONE; next_vaddress := next_vaddress c |}.

(** Outcome of a member function: it returns a value and the new state, or
    the program ends, or the bound given to a model loop was too small. *)
Inductive Result (A : Type) : Type :=
  | Done (a : A) (s : ProcessTrace)
  | Stop (f : Fatal) (s : ProcessTrace)
  | Timeout.
Arguments Done {A} a s.
Arguments Stop {A} f s.
Arguments Timeout {A}.

Definition bind {A B : Type} (r : Result A) (k : A -> ProcessTrace -> Result B) : Result B :=
  match r with
  | Done a s => k a s
  | Stop f s => Stop f s
  | Timeout => Timeout
  end.

Notation "'do' ( x , s ) <- r ; k" := (bind r (fun x s => k))
  (at level 10, x name, s name, r at level 100, k at level 200).

(** [cmdArgs.at(i)]: throws [std::out_of_range] past the end. *)
Definition at_ (s : ProcessTrace) (cmdArgs : list Z) (i : nat) : Result Z :=
  match nth_error cmdArgs i with
  | Some v => Done v s
  | None => Stop Uncaught_out_of_range s
  end.

(** [allocator.Allocate(1, allocated); allocated[0]].
    Modelled from the spec: running out of frames is fatal. *)
Definition Allocate1 (s : ProcessTrace) : Result Z :=
  match allocator s with
  | f :: rest => Done f (with_allocator s rest)
  | [] => Stop Allocator_exhausted s
  end.

(** Reading and writing one [PageTableEntry] through the MMU in its current
    mode, as [memory.get_bytes] and [memory.put_bytes] on the entry's bytes.
    An MMU exception would leave the function uncaught. *)
Definition get_entry (s : ProcessTrace) (a : Z) : Result Z :=
  let '(m, bs, e) := get_bytes (memory s) a sizeof_PageTableEntry in
  match e with
  | None => Done (entry_of_bytes bs) (with_memory s m)
  | Some _ => Stop Uncaught_memory_exception (with_memory s m)
  end.

Definition put_entry (s : ProcessTrace) (a : Z) (entry : Z) : Result unit :=
  let '(m, e) := put_bytes (memory s) a (entry_bytes entry) in
  match e with
  | None => Done tt (with_memory s m)
  | Some _ => Stop Uncaught_memory_exception (with_memory s m)
  end.

(* ===================================================================== *)
(** ** Page-table editors *)
(* ===================================================================== *)

Definition AllocateAndMapPage (s : ProcessTrace) (vaddr : Z) : Result unit :=
  let pt_base := page_table_base (vmem_pmcb s) in
  let pt_l1_offset := Z.shiftr vaddr (kPageSizeBits + kPageTableSizeBits) in
  let l1_entry_addr := wrap32 (pt_base + sizeof_PageTableEntry * pt_l1_offset) in
  do (l1_entry, s) <- get_entry s l1_entry_addr;
  do (l1_entry, s) <-
    (if Z.land l1_entry kPTE_PresentMask =? 0 then
       do (frame, s) <- Allocate1 s;
       let l1_entry := Z.lor (Z.lor frame kPTE_PresentMask) kPTE_WritableMask in
       do (_, s) <- put_entry s l1_entry_addr l1_entry;
       Done l1_entry s
     else Done l1_entry s);
  let pt_l2_addr := Z.land l1_entry kPageNumberMask in
  let pt_l2_offset := Z.land (Z.shiftr vaddr kPageSizeBits) kPageTableIndexMask in
  let l2_entry_addr := wrap32 (pt_l2_addr + sizeof_PageTableEntry * pt_l2_offset) in
  do (l2_entry, s) <- get_entry s l2_entry_addr;
  if negb (Z.land l2_entry kPTE_PresentMask =? 0) then Stop Uncaught_bad_alloc s
  else
    do (frame, s) <- Allocate1 s;
    let l2_entry := Z.lor (Z.lor frame kPTE_PresentMask) kPTE_WritableMask in
    put_entry s l2_entry_addr l2_entry.

Definition SetWritableStatus (s : ProcessTrace) (vaddr : Z) (writable : bool) : Result unit :=
  let pt_base := page_table_base (vmem_pmcb s) in
  let pt_l1_offset := Z.shiftr vaddr (kPageSizeBits + kPageTableSizeBits) in
  let l1_entry_addr := wrap32 (pt_base + sizeof_PageTableEntry * pt_l1_offset) in
  do (l1_entry, s) <- get_entry s l1_entry_addr;
  if Z.land l1_entry kPTE_PresentMask =? 0 then Done tt s
  else
    let pt_l2_addr := Z.land l1_entry kPageNumberMask in
    let pt_l2_offset := Z.land (Z.shiftr vaddr kPageSizeBits) kPageTableIndexMask in
    let l2_entry_addr := wrap32 (pt_l2_addr + sizeof_PageTableEntry * pt_l2_offset) in
    do (l2_entry, s) <- get_entry s l2_entry_addr;
    if Z.land l2_entry kPTE_PresentMask =? 0 then Done tt s
    else
      let l2_entry :=
        Z.lor (Z.land l2_entry (Z.lxor 4294967295 kPTE_WritableMask))
              (if writable then kPTE_WritableMask else 0) in
      put_entry s l2_entry_addr l2_entry.

Definition PrintAndClearException (s : ProcessTrace) (type : string) (e : Exception)
  : ProcessTrace :=
  let s := with_vmem_pmcb s (get_PMCB (memory s)) in
  let s := print s (OutException type (line_number s) (next_vaddress (vmem_pmcb s)) e) in
  let s := with_vmem_pmcb s (clear_operation (vmem_pmcb s)) in
  with_memory s (set_PMCB (memory s) (vmem_pmcb s)).

(* ===================================================================== *)
(** ** Command handlers *)
(* ===================================================================== *)

Definition CmdQuota (s : ProcessTrace) (cmdArgs : list Z) : Result unit :=
  do (q, s) <- at_ s cmdArgs 0;
  Done tt (with_QUOTA s q).

(** The [for] loop of [CmdCompare]: [buffer[i - 1]] against [cmdArgs.at(i)]
    for [i = 1 ..], with [++addr] after each. *)
Fixpoint compare_bytes (s : ProcessTrace) (addr : Z) (buffer expected : list Z)
  : ProcessTrace :=
  match expected with
  | [] => s
  | x :: expected' =>
      let actual := hd 0 buffer in
      let s := if negb (actual =? x) then print s (OutCompareError addr x actual) else s in
      compare_bytes s (wrap32 (addr + 1)) (tl buffer) expected'
  end.

Definition CmdCompare (s : ProcessTrace) (cmdArgs : list Z) : Result unit :=
  do (addr, s) <- at_ s cmdArgs 0;
  let num_bytes := Z.of_nat (length cmdArgs) - 1 in
  let '(m, buffer, e) := get_bytes (memory s) addr num_bytes in
  let s := with_memory s m in
  match e with
  | None => Done tt (compare_bytes s addr buffer (tl cmdArgs))
  | Some PageFaultException =>
      Done tt (PrintAndClearException s "PageFaultException" PageFaultException)
  | Some WritePermissionFaultException => Stop Uncaught_memory_exception s
  end.

(** The recovery branch shared by the three writing handlers, after
    [memory.get_PMCB(vmem_pmcb)] and with [bytes_written] already computed:
    [None] stands for [return false]. *)
Definition recover (s : ProcessTrace) : Result (option unit) :=
  if allocated_pages s =? QUOTA s then Done None s
  else
    let s := with_memory s (set_PMCB (memory s) pmem_pmcb) in
    let page := Z.land (next_vaddress (vmem_pmcb s)) kPageNumberMask in
    do (_, s) <- AllocateAndMapPage s page;
    let s := note s (Recovered page) in
    Done (Some tt) (with_allocated_pages s (allocated_pages s + 1)).

(** What one pass through the body of a [while] loop decides: go round
    again with new values of the loop variables, or leave the loop,
    [Exit true] past its end and [Exit false] by [return false]. *)
Inductive Loop (V : Type) : Type :=
  | Again (v : V)
  | Exit (b : bool).
Arguments Again {V} v.
Arguments Exit {V} b.

(** A [while] loop over the process state and loop variables [v]; [fuel]
    bounds the number of passes of the model. *)
Fixpoint while {V : Type} (fuel : nat)
    (body : ProcessTrace -> V -> Result (Loop V))
    (s : ProcessTrace) (v : V) : Result bool :=
  match fuel with
  | O => Timeout
  | S fuel' =>
      do (st, s) <- body s v;
      match st with
      | Again v' => while fuel' body s v'
      | Exit b => Done b s
      end
  end.

(** The statement after the three [while] loops:
    [memory.set_PMCB(vmem_pmcb); return true]. *)
Definition leave (r : Result bool) : Result bool :=
  do (b, s) <- r;
  if b then Done true (with_memory s (set_PMCB (memory s) (vmem_pmcb s)))
  else Done false s.

(** The [catch (PageFaultException e)] block of the three handlers;
    [start] is the address the progress is measured from and [v] rebuilds
    the loop variables from the new [bytes_written]. *)
Definition on_page_fault {V : Type} (s : ProcessTrace) (start num_bytes : Z)
    (v : Z -> V) : Result (Loop V) :=
  let s := with_vmem_pmcb s (get_PMCB (memory s)) in
  let s := note s (Faulted (next_vaddress (vmem_pmcb s))) in
  let bytes_written := wrap32 (next_vaddress (vmem_pmcb s) - start) in
  if negb (bytes_written =? num_bytes) then
    do (r, s) <- recover s;
    match r with
    | None => Done (Exit false) s
    | Some _ => Done (Again (v bytes_written)) s
    end
  else Done (Exit true) s.

(** The [catch (WritePermissionFaultException e)] block. *)
Definition on_permission_fault {V : Type} (s : ProcessTrace) : Result (Loop V) :=
  Done (Exit true)
    (PrintAndClearException s "WritePermissionFaultException"
       WritePermissionFaultException).

(** The body of the [while (!complete)] loop of [CmdPut]; the loop variable
    is [bytes_written]. *)
Definition CmdPut_body (addr num_bytes : Z) (buffer : list Z)
    (s : ProcessTrace) (bytes_written : Z) : Result (Loop Z) :=
  let s := with_vmem_pmcb s (clear_operation (vmem_pmcb s)) in
  let s := with_memory s (set_PMCB (memory s) (vmem_pmcb s)) in
  let '(m, e) := put_bytes (memory s) addr buffer in
  let s := note (with_memory s m) (Issued addr num_bytes) in
  match e with
  | None => Done (Exit true) s     (* bytes_written = num_bytes *)
  | Some PageFaultException => on_page_fault s addr num_bytes (fun w => w)
  | Some WritePermissionFaultException => on_permission_fault s
  end.

(** Every pass that does not leave the loop takes a frame from the
    allocator, so one more pass than there are free frames is enough. *)
Definition loop_bound (s : ProcessTrace) : nat := S (length (allocator s)).

Definition CmdPut (s : ProcessTrace) (cmdArgs : list Z) : Result bool :=
  do (addr, s) <- at_ s cmdArgs 0;
  let num_bytes := Z.of_nat (length cmdArgs) - 1 in
  let buffer := map wrap8 (tl cmdArgs) in
  leave (while (loop_bound s) (CmdPut_body addr num_bytes buffer) s 0).

(** The loop of [CmdCopy] is that of [CmdPut] on [dst], [bytes_read] and
    the first [bytes_read] bytes of the buffer. *)
Definition CmdCopy_body (dst bytes_read : Z) (buffer : list Z)
    (s : ProcessTrace) (bytes_written : Z) : Result (Loop Z) :=
  CmdPut_body dst bytes_read (firstn (Z.to_nat bytes_read) buffer) s bytes_written.

Definition CmdCopy (s : ProcessTrace) (cmdArgs : list Z) : Result bool :=
  do (dst, s) <- at_ s cmdArgs 0;
  do (src, s) <- at_ s cmdArgs 1;
  do (num_bytes, s) <- at_ s cmdArgs 2;
  let '(m, buffer, e) := get_bytes (memory s) src num_bytes in
  let s := with_memory s m in
  match e with
  | Some WritePermissionFaultException => Stop Uncaught_memory_exception s
  | _ =>
      let s := match e with
               | Some x => PrintAndClearException s "PageFaultException on read" x
               | None => s
               end in
      let s := with_vmem_pmcb s (get_PMCB (memory s)) in
      let bytes_read := wrap32 (next_vaddress (vmem_pmcb s) - src) in
      leave (while (loop_bound s) (CmdCopy_body dst bytes_read buffer) s 0)
  end.

(** The [for] loop inside the [try] of [CmdFill]: [k] iterations remain. *)
Fixpoint fill_bytes (k : nat) (s : ProcessTrace) (addr bytes_written val : Z)
  : ProcessTrace * Z * Z * option Exception :=
  match k with
  | O => (s, addr, bytes_written, None)
  | S k' =>
      let '(m, e) := put_byte (memory s) addr val in
      let s := note (with_memory s m) (Issued addr 1) in
      match e with
      | None => fill_bytes k' s (wrap32 (addr + 1)) (wrap32 (bytes_written + 1)) val
      | Some x => (s, addr, bytes_written, Some x)
      end
  end.

(** The body of the [while (!filled)] loop of [CmdFill]; the loop variables
    are [addr] and [bytes_written]. *)
Definition CmdFill_body (num_bytes val starting_addr : Z)
    (s : ProcessTrace) (v : Z * Z) : Result (Loop (Z * Z)) :=
  let '(addr, bytes_written) := v in
  let s := with_vmem_pmcb s (clear_operation (vmem_pmcb s)) in
  let s := with_memory s (set_PMCB (memory s) (vmem_pmcb s)) in
  let '(s, addr, bytes_written, e) :=
    fill_bytes (Z.to_nat (num_bytes - bytes_written)) s addr bytes_written val in
  match e with
  | None =>
      if bytes_written =? num_bytes then Done (Exit true) s
      else Done (Again (addr, bytes_written)) s
  | Some PageFaultException =>
      on_page_fault s starting_addr num_bytes (fun w => (addr, w))
  | Some WritePermissionFaultException => on_permission_fault s
  end.

Definition CmdFill (s : ProcessTrace) (cmdArgs : list Z) : Result bool :=
  do (addr, s) <- at_ s cmdArgs 0;
  do (num_bytes, s) <- at_ s cmdArgs 1;
  do (val, s) <- at_ s cmdArgs 2;
  do (starting_addr, s) <- at_ s cmdArgs 0;
  leave (while (loop_bound s) (CmdFill_body num_bytes (wrap8 val) starting_addr)
           s (addr, 0)).

(** The [for] loop of [CmdDump]: [i] counts the bytes printed so far. *)
Fixpoint dump_bytes (k : nat) (s : ProcessTrace) (i addr : Z)
  : ProcessTrace * option Exception :=
  match k with
  | O => (s, None)
  | S k' =>
      let s := if i mod 16 =? 0 then print s OutNewline else s in
      let '(m, bs, e) := get_byte (memory s) addr in
      let s := with_memory s m in
      match e with
      | None => dump_bytes k' (print s (OutDumpByte (hd 0 bs))) (i + 1) (wrap32 (addr + 1))
      | Some x => (s, Some x)
      end
  end.

Definition CmdDump (s : ProcessTrace) (cmdArgs : list Z) : Result unit :=
  do (addr, s) <- at_ s cmdArgs 0;
  do (count, s) <- at_ s cmdArgs 1;
  let s := print s (OutDumpAddr addr) in
  let '(s, e) := dump_bytes (Z.to_nat count) s 0 addr in
  match e with
  | None => Done tt (print s OutNewline)
  | Some PageFaultException =>
      Done tt (PrintAndClearException (print s OutNewline)
                 "PageFaultException" PageFaultException)
  | Some WritePermissionFaultException => Stop Uncaught_memory_exception s
  end.

(** The [while (count-- > 0)] loop of [CmdWritable]. *)
Fixpoint writable_pages (count : nat) (s : ProcessTrace) (vaddr : Z) (writable : bool)
  : Result unit :=
  match count with
  | O => Done tt s
  | S count' =>
      do (_, s) <- SetWritableStatus s vaddr writable;
      writable_pages count' s (wrap32 (vaddr + 4096)) writable
  end.

Definition CmdWritable (s : ProcessTrace) (cmdArgs : list Z) : Result unit :=
  do (vaddr, s) <- at_ s cmdArgs 0;
  do (byte_count, s) <- at_ s cmdArgs 1;
  let count := byte_count / kPageSize in
  do (flag, s) <- at_ s cmdArgs 2;
  let writable := negb (flag =? 0) in
  let s := with_vmem_pmcb s (get_PMCB (memory s)) in
  let s := with_memory s (set_PMCB (memory s) pmem_pmcb) in
  do (_, s) <- writable_pages (Z.to_nat count) s vaddr writable;
  Done tt (with_memory s (set_PMCB (memory s) (vmem_pmcb s))).

(* ===================================================================== *)
(** ** Reading a line *)
(* ===================================================================== *)

(** The stream extractions of [ParseCommand]: [lineStream >> cmd] skips white
    space and takes the characters up to the next white space;
    [lineStream >> std::hex >> arg] skips white space and takes the longest
    run of hexadecimal digits, failing when there is none or when the value
    does not fit 32 bits.  Signs and a [0x] prefix, which the extraction of
    the C++ library also accepts, are not modelled: such a token ends the
    argument list here. *)
Definition isspace (c : ascii) : bool :=
  let n := nat_of_ascii c in
  (Nat.eqb n 32 || (Nat.leb 9 n && Nat.leb n 13))%bool.

Fixpoint skip_space (l : string) : string :=
  match l with
  | String c l' => if isspace c then skip_space l' else l
  | EmptyString => l
  end.

Fixpoint read_word (l : string) : string * string :=
  match l with
  | String c l' =>
      if isspace c then (EmptyString, l)
      else let '(w, rest) := read_word l' in (String c w, rest)
  | EmptyString => (EmptyString, EmptyString)
  end.

Definition hex_value (c : ascii) : option Z :=
  let n := Z.of_nat (nat_of_ascii c) in
  if (48 <=? n) && (n <=? 57) then Some (n - 48)
  else if (97 <=? n) && (n <=? 102) then Some (n - 87)
  else if (65 <=? n) && (n <=? 70) then Some (n - 55)
  else None.

Fixpoint read_hex (l : string) (acc : option Z) : option Z * string :=
  match l with
  | String c l' =>
      match hex_value c with
      | Some d => read_hex l' (Some (16 * default 0 acc + d))
      | None => (acc, l)
      end
  | EmptyString => (acc, l)
  end.

(** [while (lineStream >> std::hex >> arg) cmdArgs.push_back(arg)]; every
    successful extraction consumes a character, so the length of the text
    bounds the number of rounds. *)
Fixpoint read_args (fuel : nat) (l : string) : list Z :=
  match fuel with
  | O => []
  | S fuel' =>
      match read_hex (skip_space l) None with
      | (Some v, rest) => if v <? 4294967296 then v :: read_args fuel' rest else []
      | (None, _) => []
      end
  end.

(** [ParseCommand]: the flag returned, then [line], [cmd] and [cmdArgs].
    The trace is the list of the lines not read yet; the end of the list is
    the end of the file. *)
Definition ParseCommand (s : ProcessTrace) : Result (bool * string * string * list Z) :=
  match trace s with
  | line :: rest =>
      let s := with_trace s rest in
      let s := with_line_number s (line_number s + 1) in
      let s := print s (OutEcho (line_number s) (id_number s) line) in
      match line with
      | EmptyString => Stop Uncaught_out_of_range s   (* line.at(0) *)
      | String c _ =>
          if negb (Ascii.eqb c "#"%char) then
            let '(cmd, rest) := read_word (skip_space line) in
            let cmdArgs :=
              match cmd with
              | EmptyString => []
              | _ => read_args (String.length rest) rest
              end in
            Done (true, line, cmd, cmdArgs) s
          else Done (true, line, EmptyString, []) s
      end
  | [] => Done (false, EmptyString, EmptyString, []) s
  end.

(* ===================================================================== *)
(** ** The command loop *)
(* ===================================================================== *)

(** What one round of the [for] loop of [Execute] decides. *)
Inductive Step : Type :=
  | Continue
  | Return (lines : Z).

Definition quota_exceeded (s : ProcessTrace) (i : Z) : Result Step :=
  Done (Return i) (print s (OutQuotaExceeded (QUOTA s))).

Definition Execute_body (s : ProcessTrace) (i : Z) : Result Step :=
  do (p, s) <- ParseCommand s;
  let '(ok, line, cmd, cmdArgs) := p in
  if ok then
    if (cmd =? "quota")%string then
      do (_, s) <- CmdQuota s cmdArgs; Done Continue s
    else if (cmd =? "compare")%string then
      do (_, s) <- CmdCompare s cmdArgs; Done Continue s
    else if (cmd =? "put")%string then
      do (r, s) <- CmdPut s cmdArgs;
      if negb r then quota_exceeded s i else Done Continue s
    else if (cmd =? "fill")%string then
      do (r, s) <- CmdFill s cmdArgs;
      if negb r then quota_exceeded s i else Done Continue s
    else if (cmd =? "copy")%string then
      do (r, s) <- CmdCopy s cmdArgs;
      if negb r then quota_exceeded s i else Done Continue s
    else if (cmd =? "dump")%string then
      do (_, s) <- CmdDump s cmdArgs; Done Continue s
    else if (cmd =? "writable")%string then
      do (_, s) <- CmdWritable s cmdArgs; Done Continue s
    else
      if negb (cmd =? "")%string then Stop Exit_invalid_command s
      else Done Continue s
  else Done (Return i) s.

Fixpoint Execute_loop (k : nat) (s : ProcessTrace) (i num_lines : Z) : Result Z :=
  match k with
  | O => Done num_lines (with_vmem_pmcb s (get_PMCB (memory s)))
  | S k' =>
      do (st, s) <- Execute_body s i;
      match st with
      | Continue => Execute_loop k' s (i + 1) num_lines
      | Return r => Done r s
      end
  end.

Definition Execute (s : ProcessTrace) (num_lines : Z) : Result Z :=
  let s := with_memory s (set_PMCB (memory s) (vmem_pmcb s)) in
  Execute_loop (Z.to_nat num_lines) s 0 num_lines.

(** The constructor, once the trace file is open: the root of the page
    table is the first frame taken from the allocator.  [QUOTA] has no
    initialiser; [quota] is the value it happens to hold. *)
Definition ProcessTrace_new (memory_ : MMU) (allocator_ : PageFrameAllocator)
    (lines : list string) (id quota : Z) : Result unit :=
  let s := mkProcessTrace memory_ allocator_ lines 0 id 0 quota pmem_pmcb [] [] in
  let s := with_memory s (set_PMCB (memory s) pmem_pmcb) in
  do (root, s) <- Allocate1 s;
  let s := with_vmem_pmcb s (mkPMCB true root NONE 0) in
  Done tt (with_memory s (set_PMCB (memory s) (vmem_pmcb s))).

(* ===================================================================== *)
(** ** A small machine to run examples on *)
(* ===================================================================== *)

Definition frames_from (first : Z) (n : nat) : list Z :=
  map (fun k => first + kPageSize * Z.of_nat k) (seq 0 n).

Definition fresh_MMU : MMU := {| pmem := ∅; pmcb := pmem_pmcb |}.

(** A new process over empty memory with [n] free frames starting at
    physical address [0x1000], and the given trace and quota. *)
Definition boot (n : nat) (lines : list string) (quota : Z) : Result unit :=
  ProcessTrace_new fresh_MMU (frames_from 4096 n) lines 1 quota.

Definition state_of {A : Type} (r : Result A) (d : ProcessTrace) : ProcessTrace :=
  match r with
  | Done _ s => s
  | Stop _ s => s
  | Timeout => d
  end.

Definition blank : ProcessTrace :=
  mkProcessTrace fresh_MMU [] [] 0 0 0 0 pmem_pmcb [] [].

Definition run (n : nat) (lines : list string) (quota : Z) : Result Z :=
  do (_, s) <- boot n lines quota; Execute s (Z.of_nat (length lines)).

(* ===================================================================== *)
(** ** Lines with missing arguments, empty lines *)
(* ===================================================================== *)

Local Open Scope string_scope.
Local Open Scope Z_scope.

(** C10.  A line whose keyword is known but which lacks an argument the
    handler reads ends the program by the uncaught [std::out_of_range] of
    [cmdArgs.at]: so for [quota] without argument, [fill] with two arguments
    and [dump] with one, in every state and at every round of the loop. *)
Theorem missing_argument_ends_by_out_of_range :
  forall (s : ProcessTrace) (rest : list string) (i : Z),
    (exists s', Execute_body (with_trace s ("quota" :: rest)) i
                = Stop Uncaught_out_of_range s')
    /\ (exists s', Execute_body (with_trace s ("fill 0 1" :: rest)) i
                   = Stop Uncaught_out_of_range s')
    /\ (exists s', Execute_body (with_trace s ("dump 40" :: rest)) i
                   = Stop Uncaught_out_of_range s').
Proof.
  intros s rest i.
  repeat split; eexists; unfold Execute_body, ParseCommand; cbn; reflexivity.
Qed.

(** C8.  On an empty line [line.at(0)] throws: the line is echoed and the
    program ends by the uncaught [std::out_of_range]; the line is not
    skipped. *)
Theorem empty_line_ends_by_out_of_range :
  forall (s : ProcessTrace) (rest : list string) (i : Z),
    Execute_body (with_trace s ("" :: rest)) i
    = Stop Uncaught_out_of_range
        (print (with_line_number (with_trace s rest) (line_number s + 1))
               (OutEcho (line_number s + 1) (id_number s) "")).
Proof. intros s rest i. reflexivity. Qed.

(** Lines that are skipped: a comment and a line of white space only leave
    everything but the line counter and the echo as it was. *)
Lemma comment_and_blank_lines_are_skipped :
  forall (s : ProcessTrace) (rest : list string) (i : Z),
    Execute_body (with_trace s ("# a comment" :: rest)) i
    = Done Continue
        (print (with_line_number (with_trace s rest) (line_number s + 1))
               (OutEcho (line_number s + 1) (id_number s) "# a comment"))
    /\ Execute_body (with_trace s ("   " :: rest)) i
       = Done Continue
           (print (with_line_number (with_trace s rest) (line_number s + 1))
                  (OutEcho (line_number s + 1) (id_number s) "   ")).
Proof. intros s rest i. split; reflexivity. Qed.

(** An unknown command ends the program through [exit(2)]. *)
Lemma unknown_command_exits :
  forall (s : ProcessTrace) (rest : list string) (i : Z),
    Execute_body (with_trace s ("frobnicate 1 2" :: rest)) i
    = Stop Exit_invalid_command
        (print (with_line_number (with_trace s rest) (line_number s + 1))
               (OutEcho (line_number s + 1) (id_number s) "frobnicate 1 2")).
Proof. intros s rest i. reflexivity. Qed.

(* ===================================================================== *)
(** ** Lowering the quota below the pages already allocated *)
(* ===================================================================== *)

(** The trace allocates two pages under a quota of two, lowers the quota to
    one and writes to a third page. *)
Definition lowered_quota_trace : list string :=
  ["quota 2"; "put 0 1"; "put 1000 1"; "quota 1"; "put 2000 1"].

(** C4.  After [quota 1] with two pages allocated, the page fault of
    [put 2000 1] is recovered by a third allocation: all five lines are
    executed, nothing is reported, and three pages are allocated against a
    quota of one. *)
Theorem allocation_succeeds_above_lowered_quota :
  exists s : ProcessTrace,
    run 8 lowered_quota_trace 0 = Done 5 s
    /\ QUOTA s = 1
    /\ allocated_pages s = 3
    /\ (forall q, ~ In (OutQuotaExceeded q) (cout s))
    /\ translate (pmcb (memory s)) (pmem (memory s)) 8192 = Mapped 20480 true.
Proof.
  eexists. split; [vm_compute; reflexivity|].
  repeat split; try (vm_compute; reflexivity).
  intros q H. cbn in H.
  repeat (destruct H as [H|H]; [discriminate H|]). exact H.
Qed.

(* ===================================================================== *)
(** ** What the handlers leave untouched *)
(* ===================================================================== *)

(** The fields of the process other than the MMU, the allocator, the saved
    context and the counter. *)
Definition same_io (s s' : ProcessTrace) : Prop :=
  trace s' = trace s /\ line_number s' = line_number s
  /\ id_number s' = id_number s /\ QUOTA s' = QUOTA s.

Lemma same_io_refl s : same_io s s.
Proof. repeat split. Qed.

Lemma same_io_trans s1 s2 s3 : same_io s1 s2 -> same_io s2 s3 -> same_io s1 s3.
Proof. unfold same_io. intuition congruence. Qed.

Ltac unfold_ops :=
  unfold get_entry, put_entry, Allocate1, at_, bind, put_byte, get_byte,
         put_bytes, get_bytes in *.

(** A successful [AllocateAndMapPage] takes one or two frames and leaves the
    rest of the process, the saved context and the mode of the MMU alone. *)
Lemma AllocateAndMapPage_fields s vaddr u s' :
  AllocateAndMapPage s vaddr = Done u s' ->
  same_io s s' /\ cout s' = cout s /\ accesses s' = accesses s
  /\ allocated_pages s' = allocated_pages s /\ vmem_pmcb s' = vmem_pmcb s
  /\ vm_enable (pmcb (memory s')) = vm_enable (pmcb (memory s))
  /\ page_table_base (pmcb (memory s')) = page_table_base (pmcb (memory s))
  /\ (exists f, allocator s = f :: allocator s'
                \/ exists g, allocator s = g :: f :: allocator s').
Proof.
  unfold AllocateAndMapPage. unfold_ops. intros H.
  repeat (case_match; simplify_eq; simpl in *);
    repeat split; eauto.
Qed.

(* ===================================================================== *)
(** ** Reasoning about the loops *)
(* ===================================================================== *)

Section WhileRules.
Context {V : Type}.
Variable body : ProcessTrace -> V -> Result (Loop V).
Variable I : ProcessTrace -> V -> Prop.
Variable Q : bool -> ProcessTrace -> Prop.

(** Partial correctness: an invariant kept by every pass that goes round
    again, and a postcondition established by every pass that leaves. *)
Lemma while_partial :
  (forall s v, I s v ->
     match body s v with
     | Done (Again v') s' => I s' v'
     | Done (Exit b) s' => Q b s'
     | _ => True
     end) ->
  forall fuel s v b s', I s v -> while fuel body s v = Done b s' -> Q b s'.
Proof.
  intros step fuel. induction fuel as [|fuel IH]; intros s v b s' HI H.
  - discriminate H.
  - simpl in H. specialize (step s v HI).
    destruct (body s v) as [[v'|b'] s1|f s1|]; simpl in H; try discriminate H.
    + exact (IH s1 v' b s' step H).
    + injection H as -> ->. exact step.
Qed.

(** Total correctness: with a measure that every pass going round again
    decreases, fuel above the measure is never used up. *)
Variable measure : ProcessTrace -> V -> nat.

Lemma while_total :
  (forall s v, I s v ->
     match body s v with
     | Done (Again v') s' => I s' v' /\ (measure s' v' < measure s v)%nat
     | Done (Exit b) s' => Q b s'
     | Stop _ _ => True
     | Timeout => False
     end) ->
  forall fuel s v, I s v -> (measure s v < fuel)%nat ->
    match while fuel body s v with
    | Done b s' => Q b s'
    | Stop _ _ => True
    | Timeout => False
    end.
Proof.
  intros step fuel. induction fuel as [|fuel IH]; intros s v HI Hm.
  - lia.
  - simpl. specialize (step s v HI).
    destruct (body s v) as [[v'|b'] s1|f s1|]; simpl; auto.
    destruct step as [HI' Hlt]. apply IH; [assumption|lia].
Qed.
End WhileRules.

Definition recovery_page (s : ProcessTrace) : Z :=
  Z.land (next_vaddress (vmem_pmcb s)) kPageNumberMask.

Lemma recover_cases s r s' :
  recover s = Done r s' ->
  (r = None /\ s' = s /\ allocated_pages s = QUOTA s)
  \/ (r = Some tt /\ allocated_pages s <> QUOTA s
      /\ exists s1,
           AllocateAndMapPage (with_memory s (set_PMCB (memory s) pmem_pmcb))
             (recovery_page s) = Done tt s1
           /\ s' = with_allocated_pages (note s1 (Recovered (recovery_page s)))
                     (allocated_pages s1 + 1)).
Proof.
  unfold recover, recovery_page. intros H.
  destruct (allocated_pages s =? QUOTA s) eqn:E.
  - left. apply Z.eqb_eq in E. simplify_eq. auto.
  - right. apply Z.eqb_neq in E. simpl in H.
    destruct (AllocateAndMapPage _ _) as [[] s1|f s1|] eqn:EA; simpl in H; simplify_eq.
    repeat split; auto. exists s1. auto.
Qed.

(** A pass that recovers takes one or two frames and reports nothing. *)
Lemma recover_Some s s' :
  recover s = Done (Some tt) s' ->
  same_io s s' /\ cout s' = cout s
  /\ accesses s' = Recovered (recovery_page s) :: accesses s
  /\ allocated_pages s' = allocated_pages s + 1
  /\ allocated_pages s <> QUOTA s
  /\ vmem_pmcb s' = vmem_pmcb s
  /\ vm_enable (pmcb (memory s')) = false
  /\ (exists f, allocator s = f :: allocator s'
                \/ exists g, allocator s = g :: f :: allocator s').
Proof.
  intros H. apply recover_cases in H as [(? & _)|(_ & Hq & s1 & HA & ->)]; [discriminate|].
  apply AllocateAndMapPage_fields in HA
    as (Hio & Hc & Ha & Hp & Hv & Hvm & Hb & f & Hf).
  simpl in *. repeat split; try apply Hio; try congruence. eauto.
Qed.

Lemma on_page_fault_cases {V : Type} s start num_bytes (v : Z -> V) st s' :
  on_page_fault s start num_bytes v = Done st s' ->
  let sf := note (with_vmem_pmcb s (get_PMCB (memory s)))
                 (Faulted (next_vaddress (pmcb (memory s)))) in
  let bytes_written := wrap32 (next_vaddress (pmcb (memory s)) - start) in
  (st = Exit true /\ bytes_written = num_bytes /\ s' = sf)
  \/ (st = Exit false /\ bytes_written <> num_bytes /\ s' = sf
      /\ allocated_pages s = QUOTA s)
  \/ (st = Again (v bytes_written) /\ bytes_written <> num_bytes
      /\ recover sf = Done (Some tt) s').
Proof.
  unfold on_page_fault, get_PMCB. simpl. intros H.
  destruct (wrap32 (next_vaddress (pmcb (memory s)) - start) =? num_bytes) eqn:E;
    simpl in H.
  - apply Z.eqb_eq in E. simplify_eq. left. auto.
  - apply Z.eqb_neq in E. right.
    destruct (recover _) as [[[]|] s1|f s1|] eqn:ER; simpl in H; simplify_eq.
    + right. auto.
    + left. apply recover_cases in ER as [(_ & -> & Hq)|(? & _)]; [|discriminate].
      simpl in Hq. auto.
Qed.


Lemma on_page_fault_cout {V : Type} s start num_bytes (v : Z -> V) st s' :
  on_page_fault s start num_bytes v = Done st s' -> cout s' = cout s.
Proof.
  intros H. apply on_page_fault_cases in H as [(_ & _ & ->)|[(_ & _ & -> & _)|(_ & _ & H)]];
    try reflexivity.
  apply recover_Some in H as (_ & -> & _). reflexivity.
Qed.

Lemma fill_bytes_cout k : forall s addr w val s' addr' w' e,
  fill_bytes k s addr w val = (s', addr', w', e) -> cout s' = cout s.
Proof.
  induction k as [|k IH]; simpl; intros s addr w val s' addr' w' e H.
  - congruence.
  - unfold put_byte, put_bytes in H. repeat case_match; simplify_eq; simpl; auto.
    apply IH in H. simpl in H. exact H.
Qed.

(** A pass of a writing loop that does not end in [Exit true] writes
    nothing to [cout]. *)
Lemma CmdPut_body_cout addr num_bytes buffer s w st s' :
  CmdPut_body addr num_bytes buffer s w = Done st s' ->
  st <> Exit true -> cout s' = cout s.
Proof.
  unfold CmdPut_body, put_bytes, on_permission_fault. intros H Hst.
  repeat case_match; simplify_eq.
  apply on_page_fault_cout in H. simpl in H. exact H.
Qed.

Lemma CmdFill_body_cout num_bytes val start s v st s' :
  CmdFill_body num_bytes val start s v = Done st s' ->
  st <> Exit true -> cout s' = cout s.
Proof.
  unfold CmdFill_body, on_permission_fault. intros H Hst.
  repeat case_match; simplify_eq;
    match goal with E : fill_bytes _ _ _ _ _ = _ |- _ => apply fill_bytes_cout in E; simpl in E end;
    try congruence.
  apply on_page_fault_cout in H. congruence.
Qed.


Lemma leave_false r s' : leave r = Done false s' -> r = Done false s'.
Proof.
  unfold leave, bind. destruct r as [[] s1|f s1|]; intros H; simplify_eq. reflexivity.
Qed.

Lemma leave_true r s' :
  leave r = Done true s' ->
  exists s1, r = Done true s1
             /\ s' = with_memory s1 (set_PMCB (memory s1) (vmem_pmcb s1)).
Proof.
  unfold leave, bind. destruct r as [[] s1|f s1|]; intros H; simplify_eq. eauto.
Qed.

(** The handlers that can fail on the quota, by keyword. *)
Definition writer (cmd : string) : option (ProcessTrace -> list Z -> Result bool) :=
  if (cmd =? "put")%string then Some CmdPut
  else if (cmd =? "fill")%string then Some CmdFill
  else if (cmd =? "copy")%string then Some CmdCopy
  else None.


Lemma writer_cases cmd h :
  writer cmd = Some h -> h = CmdPut \/ h = CmdFill \/ h = CmdCopy.
Proof.
  unfold writer. intros H.
  destruct (cmd =? "put")%string; [injection H as <-; auto|].
  destruct (cmd =? "fill")%string; [injection H as <-; auto|].
  destruct (cmd =? "copy")%string; [injection H as <-; auto|].
  discriminate.
Qed.



(* ===================================================================== *)
(** ** The command loop and the quota *)
(* ===================================================================== *)

(** The state after [k] rounds of the loop of [Execute] that all go on to
    the next line, the first of them being round [i]. *)
Fixpoint rounds (k : nat) (s : ProcessTrace) (i : Z) : option ProcessTrace :=
  match k with
  | O => Some s
  | S k' =>
      match Execute_body s i with
      | Done Continue s' => rounds k' s' (i + 1)
      | _ => None
      end
  end.

Lemma Execute_loop_rounds k : forall m s i num_lines s_k,
  rounds k s i = Some s_k ->
  Execute_loop (k + m) s i num_lines = Execute_loop m s_k (i + Z.of_nat k) num_lines.
Proof.
  induction k as [|k IH]; intros m s i n s_k H.
  - simpl in H. injection H as ->. simpl. f_equal. lia.
  - simpl in H. change (S k + m)%nat with (S (k + m)). simpl.
    destruct (Execute_body s i) as [[|r] s1|f s1|]; try discriminate H.
    simpl. rewrite (IH m s1 (i + 1) n s_k H). f_equal. lia.
Qed.



(** A process with a quota of one page whose third line needs a second. *)
Definition quota_trace : list string := ["quota 1"; "put 0 1"; "put 1000 1"].
Definition quota_start : ProcessTrace := state_of (boot 8 quota_trace 0) blank.
Definition quota_before : ProcessTrace :=
  default blank
    (rounds 2 (with_memory quota_start
                 (set_PMCB (memory quota_start) (vmem_pmcb quota_start))) 0).

(* ===================================================================== *)
(** ** Byte-range reads and [compare] *)
(* ===================================================================== *)

Lemma wrap32_succ va k : wrap32 (wrap32 (va + 1) + k) = wrap32 (va + (1 + k)).
Proof. unfold wrap32. rewrite Z.add_mod_idemp_l by lia. f_equal. lia. Qed.

Lemma wrap32_small z : 0 <= z < 4294967296 -> wrap32 z = z.
Proof. unfold wrap32. intros H. apply Z.mod_small. exact H. Qed.

Lemma wrap32_range z : 0 <= wrap32 z < 4294967296.
Proof. unfold wrap32. apply Z.mod_pos_bound. lia. Qed.

(** A read stops at the first byte whose page is unmapped and nowhere else:
    the bytes before it are mapped and read, the marker names it. *)
Lemma read_seq_spec c pm n : forall va bs va' e,
  0 <= va < 4294967296 ->
  read_seq c pm va n = (bs, va', e) ->
  va' = wrap32 (va + Z.of_nat (length bs))
  /\ (forall i, (i < length bs)%nat ->
                translate c pm (wrap32 (va + Z.of_nat i)) <> Unmapped)
  /\ ((e = None /\ length bs = n)
      \/ (e = Some PageFaultException /\ (length bs < n)%nat
          /\ translate c pm va' = Unmapped)).
Proof.
  induction n as [|n IH]; intros va bs va' e Hva H; simpl in H.
  - injection H as <- <- <-. simpl. rewrite Z.add_0_r, wrap32_small by lia.
    repeat split; auto. intros i Hi. lia.
  - destruct (translate c pm va) as [|pa w] eqn:ET.
    + injection H as <- <- <-. simpl. rewrite Z.add_0_r, wrap32_small by lia.
      repeat split; [intros i Hi; lia|]. right. repeat split; auto. lia.
    + destruct (read_seq c pm (wrap32 (va + 1)) n) as [[bs1 va1] e1] eqn:ER.
      injection H as <- <- <-.
      apply IH in ER as (Hv & Hm & He); [|apply wrap32_range].
      simpl length. repeat split.
      * rewrite Hv, wrap32_succ. f_equal. lia.
      * intros [|i] Hi.
        -- simpl. rewrite Z.add_0_r, wrap32_small by lia. congruence.
        -- specialize (Hm i ltac:(lia)). rewrite wrap32_succ in Hm.
           replace (va + Z.of_nat (S i)) with (va + (1 + Z.of_nat i)) by lia. exact Hm.
      * destruct He as [[-> <-]|(-> & Hl & Hu)]; [left; auto|right].
        repeat split; auto. lia.
Qed.

(** The claim of the specification about a [compare] that meets a fault:
    every byte read before the fault that differs from the expected value
    is reported with its address, the expected and the actual value. *)
Definition compares_the_bytes_read (s : ProcessTrace) (cmdArgs : list Z)
    (s' : ProcessTrace) : Prop :=
  forall (addr expected actual : Z) (k : nat),
    nth_error cmdArgs 0 = Some addr ->
    nth_error (tl cmdArgs) k = Some expected ->
    nth_error (snd (fst (get_bytes (memory s) addr (Z.of_nat (length cmdArgs) - 1)))) k
      = Some actual ->
    actual <> expected ->
    In (OutCompareError (wrap32 (addr + Z.of_nat k)) expected actual) (cout s').

(** A process that wrote [1 2] at the last two bytes of page 0; page 1 is
    not mapped. *)
Definition compare_state : ProcessTrace :=
  state_of (run 8 ["quota 5"; "put ffe 1 2"] 0) blank.

(** C5, as stated, fails: [compare ffe 1 9 0] reads the two mapped bytes
    [1 2] and faults on the third; the byte [2] read at [0xfff] differs from
    the expected [9] and is not reported. *)
Lemma compare_skips_the_bytes_read :
  ~ compares_the_bytes_read compare_state [4094; 1; 9; 0]
      (state_of (CmdCompare compare_state [4094; 1; 9; 0]) blank).
Proof.
  intros H.
  specialize (H 4094 9 2 1%nat eq_refl eq_refl).
  assert (Hr : nth_error (snd (fst (get_bytes (memory compare_state) 4094
                 (Z.of_nat (length [4094; 1; 9; 0]) - 1)))) 1 = Some 2)
    by (vm_compute; reflexivity).
  specialize (H Hr ltac:(lia)).
  vm_compute in H.
  repeat (destruct H as [H|H]; [discriminate H|]). exact H.
Qed.

(** C5, amended.  When a page of the range of a [compare] is unmapped, the
    command returns; the read stops at the first byte [j] on an unmapped
    page, every byte before it being mapped; the page fault is reported with
    that address as the marker; nothing else is written, so no byte is
    compared, read or not; and memory is unchanged. *)
Theorem compare_with_fault_reports_only_the_fault :
  forall (s : ProcessTrace) (cmdArgs : list Z) (addr : Z) (k : nat),
    nth_error cmdArgs 0 = Some addr ->
    0 <= addr < 4294967296 ->
    (k < length (tl cmdArgs))%nat ->
    translate (pmcb (memory s)) (pmem (memory s)) (wrap32 (addr + Z.of_nat k)) = Unmapped ->
    exists (j : nat) (s' : ProcessTrace),
      CmdCompare s cmdArgs = Done tt s'
      /\ (j <= k)%nat
      /\ translate (pmcb (memory s)) (pmem (memory s)) (wrap32 (addr + Z.of_nat j)) = Unmapped
      /\ (forall i, (i < j)%nat ->
            translate (pmcb (memory s)) (pmem (memory s)) (wrap32 (addr + Z.of_nat i))
            <> Unmapped)
      /\ cout s' = OutException "PageFaultException" (line_number s)
                     (wrap32 (addr + Z.of_nat j)) PageFaultException :: cout s
      /\ next_vaddress (pmcb (memory s')) = wrap32 (addr + Z.of_nat j)
      /\ pmem (memory s') = pmem (memory s).
Proof.
  intros s cmdArgs addr k Ha Hr Hk Hu.
  unfold CmdCompare, at_, bind. rewrite Ha. unfold get_bytes.
  destruct (read_seq _ _ _ _) as [[bs va'] e] eqn:ER.
  apply read_seq_spec in ER as (Hv & Hm & He); [|exact Hr].
  assert (Hn : Z.to_nat (Z.of_nat (length cmdArgs) - 1) = length (tl cmdArgs)).
  { destruct cmdArgs; [discriminate Ha|]. simpl length. lia. }
  destruct He as [[-> Hl]|(-> & Hl & Hun)].
  - exfalso. apply (Hm k); [lia|]. exact Hu.
  - exists (length bs). eexists. split; [reflexivity|]. simpl. subst va'.
    repeat split; auto.
    destruct (Nat.le_gt_cases (length bs) k) as [|Hlt]; [assumption|].
    exfalso. apply (Hm k Hlt). exact Hu.
Qed.

Lemma compare_with_fault_witness :
  exists (j : nat) (s' : ProcessTrace),
    CmdCompare compare_state [4094; 1; 9; 0] = Done tt s'
    /\ (j <= 2)%nat
    /\ translate (pmcb (memory compare_state)) (pmem (memory compare_state))
         (wrap32 (4094 + Z.of_nat j)) = Unmapped
    /\ (forall i, (i < j)%nat ->
          translate (pmcb (memory compare_state)) (pmem (memory compare_state))
            (wrap32 (4094 + Z.of_nat i)) <> Unmapped)
    /\ cout s' = OutException "PageFaultException" (line_number compare_state)
                   (wrap32 (4094 + Z.of_nat j)) PageFaultException :: cout compare_state
    /\ next_vaddress (pmcb (memory s')) = wrap32 (4094 + Z.of_nat j)
    /\ pmem (memory s') = pmem (memory compare_state).
Proof.
  apply (compare_with_fault_reports_only_the_fault
           compare_state [4094; 1; 9; 0] 4094 2).
  - reflexivity.
  - lia.
  - simpl. lia.
  - vm_compute. reflexivity.
Defined.

(* ===================================================================== *)
(** ** Returning handlers: mode of the MMU, counter and allocator *)
(* ===================================================================== *)

(** [returns r Q]: the call does not use up the fuel of the model and, when
    it returns to its caller, value and state satisfy [Q]. *)
Definition returns {A : Type} (r : Result A) (Q : A -> ProcessTrace -> Prop) : Prop :=
  match r with
  | Done a s => Q a s
  | Stop _ _ => True
  | Timeout => False
  end.

Lemma returns_bind {A B : Type} (r : Result A) (k : A -> ProcessTrace -> Result B)
    (P : A -> ProcessTrace -> Prop) (Q : B -> ProcessTrace -> Prop) :
  returns r P -> (forall a s, P a s -> returns (k a s) Q) -> returns (bind r k) Q.
Proof. destruct r; simpl; auto. Qed.

Lemma returns_weaken {A : Type} (r : Result A) (P Q : A -> ProcessTrace -> Prop) :
  returns r P -> (forall a s, P a s -> Q a s) -> returns r Q.
Proof. destruct r; simpl; auto. Qed.

Lemma while_returns {V : Type} (body : ProcessTrace -> V -> Result (Loop V))
    (I : ProcessTrace -> V -> Prop) (Q : bool -> ProcessTrace -> Prop)
    (measure : ProcessTrace -> V -> nat) :
  (forall s v, I s v ->
     returns (body s v) (fun st s' =>
       match st with
       | Again v' => I s' v' /\ (measure s' v' < measure s v)%nat
       | Exit b => Q b s'
       end)) ->
  forall fuel s v, I s v -> (measure s v < fuel)%nat ->
    returns (while fuel body s v) Q.
Proof.
  intros Hb fuel s v HI Hm.
  apply (while_total body I Q measure); auto.
Qed.

Definition virtual_context (root : Z) (c : PMCB) : Prop :=
  vm_enable c = true /\ page_table_base c = root.

Definition in_virtual_mode (root : Z) (s : ProcessTrace) : Prop :=
  virtual_context root (pmcb (memory s)) /\ virtual_context root (vmem_pmcb s).

(** One or two frames were taken from the head of the free list. *)
Definition took_frames (before after : PageFrameAllocator) : Prop :=
  exists f, before = f :: after \/ exists g, before = g :: f :: after.

Lemma AllocateAndMapPage_returns s vaddr :
  returns (AllocateAndMapPage s vaddr) (fun _ s' =>
    same_io s s' /\ cout s' = cout s /\ accesses s' = accesses s
    /\ allocated_pages s' = allocated_pages s /\ vmem_pmcb s' = vmem_pmcb s
    /\ vm_enable (pmcb (memory s')) = vm_enable (pmcb (memory s))
    /\ page_table_base (pmcb (memory s')) = page_table_base (pmcb (memory s))
    /\ took_frames (allocator s) (allocator s')).
Proof.
  destruct (AllocateAndMapPage s vaddr) as [u s'|f s'|] eqn:E; simpl; auto.
  - apply AllocateAndMapPage_fields in E. exact E.
  - unfold AllocateAndMapPage in E. unfold_ops.
    repeat (case_match; simplify_eq; simpl in * ).
Qed.

Lemma recover_returns s :
  returns (recover s) (fun r s' =>
    match r with
    | None => s' = s /\ allocated_pages s = QUOTA s
    | Some _ =>
        same_io s s' /\ cout s' = cout s
        /\ accesses s' = Recovered (recovery_page s) :: accesses s
        /\ allocated_pages s' = allocated_pages s + 1
        /\ allocated_pages s <> QUOTA s
        /\ vmem_pmcb s' = vmem_pmcb s
        /\ vm_enable (pmcb (memory s')) = false
        /\ took_frames (allocator s) (allocator s')
    end).
Proof.
  destruct (recover s) as [[[]|] s'|f s'|] eqn:E; simpl; auto.
  - apply recover_Some in E. exact E.
  - apply recover_cases in E as [(_ & -> & Hq)|(? & _)]; [auto|discriminate].
  - unfold recover in E. case_match; [discriminate|].
    pose proof (AllocateAndMapPage_returns
                  (with_memory s (set_PMCB (memory s) pmem_pmcb))
                  (Z.land (next_vaddress (vmem_pmcb (with_memory s (set_PMCB (memory s) pmem_pmcb)))) kPageNumberMask)) as HA.
    destruct (AllocateAndMapPage _ _); simpl in *; try discriminate. exact HA.
Qed.

Lemma virtual_after_op root c op va e :
  virtual_context root c -> virtual_context root (after_op c op va e).
Proof. intros [? ?]. split; assumption. Qed.

Lemma virtual_clear root c :
  virtual_context root c -> virtual_context root (clear_operation c).
Proof. intros [? ?]. split; assumption. Qed.

(** What a pass of a writing loop does to the process besides memory: it
    goes round again only after one recovery, which counts one page for one
    or two frames; it leaves the loop with the MMU in virtual mode. *)
Definition pass_effect (root : Z) (s : ProcessTrace) {V : Type}
    (st : Loop V) (s' : ProcessTrace) : Prop :=
  same_io s s' /\ virtual_context root (vmem_pmcb s')
  /\ match st with
     | Again _ =>
         allocated_pages s <> QUOTA s
         /\ allocated_pages s' = allocated_pages s + 1
         /\ took_frames (allocator s) (allocator s')
     | Exit _ =>
         allocated_pages s' = allocated_pages s
         /\ allocator s' = allocator s
         /\ virtual_context root (pmcb (memory s'))
     end.

Lemma on_page_fault_effect {V : Type} root s start num_bytes (v : Z -> V) :
  virtual_context root (pmcb (memory s)) ->
  returns (on_page_fault s start num_bytes v) (fun st s' =>
    pass_effect root s st s'
    /\ match st with
       | Again x =>
           x = v (wrap32 (next_vaddress (pmcb (memory s)) - start))
           /\ wrap32 (next_vaddress (pmcb (memory s)) - start) <> num_bytes
       | Exit _ => True
       end).
Proof.
  intros Hv. unfold on_page_fault, get_PMCB. simpl.
  destruct (wrap32 (next_vaddress (pmcb (memory s)) - start) =? num_bytes) eqn:E; simpl.
  - unfold pass_effect, same_io. simpl. auto 10.
  - apply Z.eqb_neq in E.
    eapply returns_bind; [apply recover_returns|].
    intros [[]|] s' H; simpl in *.
    + destruct H as (Hio & Hc & Ha & Hp & Hq & Hvm & Hm & Ht).
      unfold pass_effect. simpl in *. rewrite Hvm. auto 10.
    + destruct H as [-> Hq]. unfold pass_effect, same_io. simpl in *. auto 10.
Qed.

Lemma on_permission_fault_effect {V : Type} root s :
  virtual_context root (pmcb (memory s)) ->
  returns (@on_permission_fault V s) (fun st s' => pass_effect root s st s').
Proof.
  intros Hv. unfold on_permission_fault, PrintAndClearException, pass_effect, same_io.
  simpl. unfold get_PMCB. repeat split; try apply virtual_clear; apply Hv.
Qed.

Lemma CmdPut_body_effect root addr num_bytes buffer s w :
  virtual_context root (vmem_pmcb s) ->
  returns (CmdPut_body addr num_bytes buffer s w) (fun st s' => pass_effect root s st s').
Proof.
  intros Hv. unfold CmdPut_body, put_bytes. simpl.
  destruct (write_seq _ _ _ _) as [[pm va] e].
  destruct e as [[]|].
  - eapply returns_weaken.
    + apply (on_page_fault_effect root). simpl.
      apply virtual_after_op, virtual_clear, Hv.
    + intros st s' [H _]. revert H. unfold pass_effect, same_io. simpl. auto.
  - eapply returns_weaken.
    + apply (on_permission_fault_effect root). simpl.
      apply virtual_after_op, virtual_clear, Hv.
    + intros st s' H. revert H. unfold pass_effect, same_io. simpl. auto.
  - unfold pass_effect, same_io. simpl.
    repeat split; try apply virtual_after_op; try apply virtual_clear; apply Hv.
Qed.

(** The [for] loop of [CmdFill] touches memory and the access record only;
    after [j] bytes written, address and count have advanced by [j]; it
    stops early exactly on a fault, whose marker is the address reached. *)
Lemma fill_bytes_spec k : forall s addr w val s' addr' w' e,
  0 <= addr < 4294967296 -> 0 <= w < 4294967296 ->
  fill_bytes k s addr w val = (s', addr', w', e) ->
  same_io s s' /\ cout s' = cout s /\ allocated_pages s' = allocated_pages s
  /\ allocator s' = allocator s /\ vmem_pmcb s' = vmem_pmcb s
  /\ vm_enable (pmcb (memory s')) = vm_enable (pmcb (memory s))
  /\ page_table_base (pmcb (memory s')) = page_table_base (pmcb (memory s))
  /\ exists j : nat,
       (j <= k)%nat
       /\ addr' = wrap32 (addr + Z.of_nat j) /\ w' = wrap32 (w + Z.of_nat j)
       /\ match e with
          | None => j = k
          | Some _ => (j < k)%nat /\ next_vaddress (pmcb (memory s')) = addr'
          end.
Proof.
  induction k as [|k IH]; intros s addr w val s' addr' w' e Ha Hw H; simpl in H.
  - injection H as <- <- <- <-. repeat split. exists 0%nat.
    rewrite !Z.add_0_r, !wrap32_small by assumption. auto.
  - unfold put_byte, put_bytes in H. simpl in H.
    destruct (translate (pmcb (memory s)) (pmem (memory s)) addr) as [|pa wr] eqn:ET.
    + injection H as <- <- <- <-. simpl. repeat split. exists 0%nat.
      rewrite !Z.add_0_r, !wrap32_small by assumption. repeat split; auto; lia.
    + destruct wr.
      * apply IH in H; try apply wrap32_range. simpl in H.
        destruct H as (Hio & Hc & Hp & Hal & Hv & Hvm & Hb & j & Hj & -> & -> & He).
        repeat split; try apply Hio; auto.
        exists (S j). rewrite !wrap32_succ.
        replace (Z.of_nat (S j)) with (1 + Z.of_nat j) by lia.
        repeat split; auto; [lia|].
        destruct e; [|lia]. destruct He as [? He]. rewrite wrap32_succ in He.
        split; [lia|exact He].
      * injection H as <- <- <- <-. simpl. repeat split. exists 0%nat.
        rewrite !Z.add_0_r, !wrap32_small by assumption. repeat split; auto; lia.
Qed.

(** The loop variables of [CmdFill] between passes: [bytes_written] bytes
    are written and [addr] is that far from the start. *)
Definition fill_invariant (num_bytes starting_addr : Z) (v : Z * Z) : Prop :=
  0 <= snd v <= num_bytes /\ fst v = wrap32 (starting_addr + snd v).

Lemma CmdFill_body_effect root num_bytes val start s v :
  0 <= num_bytes < 4294967296 -> 0 <= start < 4294967296 ->
  virtual_context root (vmem_pmcb s) ->
  fill_invariant num_bytes start v ->
  returns (CmdFill_body num_bytes val start s v) (fun st s' =>
    pass_effect root s st s'
    /\ match st with
       | Again v' => fill_invariant num_bytes start v'
       | Exit _ => True
       end).
Proof.
  intros Hn Hs Hv [Hw Ha]. destruct v as [addr w]. simpl in Hw, Ha.
  unfold CmdFill_body.
  destruct (fill_bytes _ _ _ _ _) as [[[s1 addr1] w1] e] eqn:EF.
  apply fill_bytes_spec in EF; [|subst addr; apply wrap32_range|lia].
  simpl in EF.
  destruct EF as (Hio & Hc & Hp & Hal & Hvp & Hvm & Hb & j & Hj & -> & -> & He).
  assert (Hv1 : virtual_context root (pmcb (memory s1))).
  { split; [rewrite Hvm|rewrite Hb]; apply Hv. }
  assert (Hv1' : virtual_context root (vmem_pmcb s1)).
  { rewrite Hvp. apply virtual_clear, Hv. }
  destruct e as [[]|].
  - destruct He as [Hlt Hmark].
    eapply returns_weaken; [apply (on_page_fault_effect root _ _ _ _ Hv1)|].
    intros st s' [H Hst]. split.
    + revert H. unfold pass_effect, same_io in *. simpl in *.
      rewrite Hp, Hal. destruct st; intuition congruence.
    + destruct st as [v'|b]; [|exact I]. destruct Hst as [-> Hne].
      rewrite Hmark. subst addr. unfold fill_invariant. simpl.
      assert (Hx : wrap32 (wrap32 (wrap32 (start + w) + Z.of_nat j) - start)
                   = w + Z.of_nat j).
      { unfold wrap32. rewrite Z.add_mod_idemp_l, Zminus_mod_idemp_l by lia.
        replace (start + w + Z.of_nat j - start) with (w + Z.of_nat j) by lia.
        apply Z.mod_small. lia. }
      rewrite Hx. split; [lia|]. unfold wrap32.
      rewrite Z.add_mod_idemp_l by lia. f_equal. lia.
  - pose proof (on_permission_fault_effect (V := Z * Z) root s1 Hv1) as H.
    unfold on_permission_fault in *. simpl in *. split; [|exact I].
    revert H. unfold pass_effect, same_io in *. simpl in *.
    rewrite Hp, Hal. intuition congruence.
  - subst j. rewrite (wrap32_small (w + _)) by lia.
    replace (w + Z.of_nat (Z.to_nat (num_bytes - w))) with num_bytes by lia.
    rewrite Z.eqb_refl. simpl. split; [|exact I].
    unfold pass_effect, same_io. simpl. rewrite Hp, Hal.
    repeat split; try apply Hio; auto; try apply Hv1'; apply Hv1.
Qed.

Definition u32 (z : Z) : Prop := 0 <= z < 4294967296.

(** Frames taken from the allocator between two states. *)
Definition frames_taken (s s' : ProcessTrace) : Z :=
  Z.of_nat (length (allocator s)) - Z.of_nat (length (allocator s')).

Lemma took_frames_length before after :
  took_frames before after ->
  (length before = S (length after) \/ length before = S (S (length after)))%nat.
Proof. intros [f [->|[g ->]]]; simpl; auto. Qed.

(** What a writing handler has done to the process when it returns. *)
Definition handler_effect (root : Z) (s : ProcessTrace) (s' : ProcessTrace) : Prop :=
  same_io s s' /\ in_virtual_mode root s'
  /\ allocated_pages s <= allocated_pages s'
  /\ (allocated_pages s <= QUOTA s -> allocated_pages s' <= QUOTA s)
  /\ allocated_pages s' - allocated_pages s <= frames_taken s s'
       <= 2 * (allocated_pages s' - allocated_pages s).

(** The same between the start of the loop and a later pass. *)
Definition progress (s0 s : ProcessTrace) : Prop :=
  same_io s0 s
  /\ allocated_pages s0 <= allocated_pages s
  /\ (allocated_pages s0 <= QUOTA s0 -> allocated_pages s <= QUOTA s0)
  /\ allocated_pages s - allocated_pages s0 <= frames_taken s0 s
       <= 2 * (allocated_pages s - allocated_pages s0).

Section WritingLoop.
Context {V : Type}.
Variable body : ProcessTrace -> V -> Result (Loop V).
Variable J : V -> Prop.
Variable root : Z.
Hypothesis body_effect : forall s v,
  virtual_context root (vmem_pmcb s) -> J v ->
  returns (body s v) (fun st s' =>
    pass_effect root s st s'
    /\ match st with Again v' => J v' | Exit _ => True end).

Lemma writing_loop_returns s0 v0 :
  virtual_context root (vmem_pmcb s0) -> J v0 ->
  returns (leave (while (loop_bound s0) body s0 v0))
          (fun _ s' => handler_effect root s0 s').
Proof.
  intros Hv HJ. unfold leave.
  eapply returns_bind with
    (P := fun (_ : bool) s' =>
            progress s0 s' /\ virtual_context root (vmem_pmcb s')
            /\ virtual_context root (pmcb (memory s'))).
  - apply (while_returns body
             (fun s v => progress s0 s /\ virtual_context root (vmem_pmcb s) /\ J v)
             _ (fun s _ => length (allocator s))).
    + intros s v (Hp & Hvs & HJs).
      eapply returns_weaken; [apply (body_effect s v Hvs HJs)|].
      intros st s' [(Hio & Hv' & He) HJ'].
      destruct Hp as (Hio0 & Hle & Hq & Hf).
      assert (HQ : QUOTA s = QUOTA s0) by apply Hio0.
      unfold progress, frames_taken in *.
      destruct st as [v'|b].
      * destruct He as (Hne & Hinc & Ht).
        apply took_frames_length in Ht.
        repeat split; auto; try (eapply same_io_trans; eauto);
          try apply Hv'; try lia.
      * destruct He as (Hsame & Hal & Hm). rewrite Hsame, Hal.
        repeat split; auto; try (eapply same_io_trans; eauto);
          try apply Hv'; try apply Hm; try lia.
    + unfold progress, frames_taken.
      split; [|split; [exact Hv|exact HJ]].
      split; [apply same_io_refl|]. repeat split; auto; lia.
    + unfold loop_bound. lia.
  - intros b s' ((Hio & Hle & Hq & Hf) & Hv' & Hm).
    unfold handler_effect, in_virtual_mode, frames_taken in *.
    destruct b; simpl; repeat split; auto; try apply Hio; try apply Hv'; try apply Hm; lia.
Qed.
End WritingLoop.

Lemma Forall_nth_error {A : Type} (P : A -> Prop) l i x :
  Forall P l -> nth_error l i = Some x -> P x.
Proof.
  intros H Hn. apply (proj1 (List.Forall_forall P l) H).
  eapply nth_error_In; eauto.
Qed.

Lemma CmdPut_effect root s cmdArgs :
  virtual_context root (vmem_pmcb s) ->
  returns (CmdPut s cmdArgs) (fun _ s' => handler_effect root s s').
Proof.
  intros Hv. unfold CmdPut, at_, bind.
  destruct (nth_error cmdArgs 0); [|exact I].
  apply (writing_loop_returns _ (fun _ => True) root); auto.
  intros s1 v Hv1 _. eapply returns_weaken; [apply CmdPut_body_effect, Hv1|].
  intros [] ? ?; auto.
Qed.

Lemma CmdFill_effect root s cmdArgs :
  virtual_context root (vmem_pmcb s) -> Forall u32 cmdArgs ->
  returns (CmdFill s cmdArgs) (fun _ s' => handler_effect root s s').
Proof.
  intros Hv Hu. unfold CmdFill, at_, bind.
  destruct (nth_error cmdArgs 0) as [addr|] eqn:E0; [|exact I].
  destruct (nth_error cmdArgs 1) as [n|] eqn:E1; [|exact I].
  destruct (nth_error cmdArgs 2) as [val|] eqn:E2; [|exact I].
  pose proof (Forall_nth_error _ _ _ _ Hu E0) as Ha.
  pose proof (Forall_nth_error _ _ _ _ Hu E1) as Hn.
  apply (writing_loop_returns _ (fill_invariant n addr) root); auto.
  - intros s1 v Hv1 HJ. apply CmdFill_body_effect; auto.
  - unfold fill_invariant, u32 in *. simpl. rewrite Z.add_0_r, wrap32_small; lia.
Qed.

Lemma CmdCopy_effect root s cmdArgs :
  in_virtual_mode root s ->
  returns (CmdCopy s cmdArgs) (fun _ s' => handler_effect root s s').
Proof.
  intros [Hm Hv]. unfold CmdCopy, at_, bind.
  destruct (nth_error cmdArgs 0) as [dst|]; [|exact I].
  destruct (nth_error cmdArgs 1) as [src|]; [|exact I].
  destruct (nth_error cmdArgs 2) as [n|]; [|exact I].
  unfold get_bytes. destruct (read_seq _ _ _ _) as [[bs va] e].
  set (body := CmdCopy_body dst).
  assert (Hb : forall x buf s1 v, virtual_context root (vmem_pmcb s1) -> True ->
             returns (CmdCopy_body dst x buf s1 v) (fun st s' =>
               pass_effect root s1 st s'
               /\ match st with Again _ => True | Exit _ => True end)).
  { intros x buf s1 v Hv1 _. unfold CmdCopy_body.
    eapply returns_weaken; [apply CmdPut_body_effect, Hv1|].
    intros [] ? ?; auto. }
  destruct e as [[]|]; [|exact I|].
  - eapply returns_weaken.
    + apply (writing_loop_returns _ (fun _ => True) root (Hb _ _)); auto;
        simpl; unfold get_PMCB; simpl; apply virtual_clear, virtual_after_op, Hm.
    + intros b s'. unfold handler_effect, frames_taken, same_io. simpl. auto.
  - eapply returns_weaken.
    + apply (writing_loop_returns _ (fun _ => True) root (Hb _ _)); auto;
        simpl; unfold get_PMCB; simpl; apply virtual_after_op, Hm.
    + intros b s'. unfold handler_effect, frames_taken, same_io. simpl. auto.
Qed.

Lemma compare_bytes_memory expected : forall s addr buffer,
  memory (compare_bytes s addr buffer expected) = memory s
  /\ vmem_pmcb (compare_bytes s addr buffer expected) = vmem_pmcb s.
Proof.
  induction expected as [|x xs IH]; intros s addr buffer; simpl; [auto|].
  destruct (IH (if negb (hd 0 buffer =? x)
                then print s (OutCompareError addr x (hd 0 buffer)) else s)
               (wrap32 (addr + 1)) (tl buffer)) as [-> ->].
  destruct (negb _); auto.
Qed.

Lemma CmdCompare_virtual root s cmdArgs :
  in_virtual_mode root s ->
  returns (CmdCompare s cmdArgs) (fun _ s' => in_virtual_mode root s').
Proof.
  intros [Hm Hv]. unfold CmdCompare, at_, bind.
  destruct (nth_error cmdArgs 0) as [addr|]; [|exact I].
  unfold get_bytes. destruct (read_seq _ _ _ _) as [[bs va] e].
  destruct e as [[]|]; simpl; auto.
  - unfold PrintAndClearException, in_virtual_mode, get_PMCB. simpl.
    split; apply virtual_clear, virtual_after_op, Hm.
  - unfold in_virtual_mode.
    destruct (compare_bytes_memory (tl cmdArgs)
                (with_memory s {| pmem := pmem (memory s);
                                  pmcb := after_op (pmcb (memory s)) READ_OP va None |})
                addr bs) as [-> ->].
    simpl. split; [apply virtual_after_op, Hm|exact Hv].
Qed.

Lemma dump_bytes_virtual root k : forall s i addr s' e,
  in_virtual_mode root s ->
  dump_bytes k s i addr = (s', e) -> in_virtual_mode root s'.
Proof.
  induction k as [|k IH]; intros s i addr s' e Hs H; simpl in H.
  - injection H as <- <-. exact Hs.
  - unfold get_byte, get_bytes in H.
    set (s0 := if i mod 16 =? 0 then print s OutNewline else s) in *.
    assert (Hs0 : in_virtual_mode root s0).
    { unfold s0. destruct (i mod 16 =? 0); [destruct Hs; split|]; assumption. }
    clearbody s0. destruct Hs0 as [Hm Hv].
    destruct (read_seq _ _ _ _) as [[bs va] e1].
    destruct e1.
    + injection H as <- <-. split; simpl; auto using virtual_after_op.
    + apply IH in H; [exact H|]. split; simpl; auto using virtual_after_op.
Qed.

Lemma CmdDump_virtual root s cmdArgs :
  in_virtual_mode root s ->
  returns (CmdDump s cmdArgs) (fun _ s' => in_virtual_mode root s').
Proof.
  intros Hs. unfold CmdDump, at_, bind.
  destruct (nth_error cmdArgs 0) as [addr|]; [|exact I].
  destruct (nth_error cmdArgs 1) as [count|]; [|exact I].
  destruct (dump_bytes _ _ _ _) as [s1 e] eqn:ED.
  apply (dump_bytes_virtual root) in ED; [|destruct Hs; split; assumption].
  destruct ED as [Hm Hv].
  destruct e as [[]|]; simpl; auto.
  - unfold PrintAndClearException, in_virtual_mode, get_PMCB. simpl.
    split; apply virtual_clear, Hm.
  - split; assumption.
Qed.

Lemma SetWritableStatus_fields s vaddr writable :
  returns (SetWritableStatus s vaddr writable) (fun _ s' =>
    same_io s s' /\ cout s' = cout s /\ accesses s' = accesses s
    /\ allocated_pages s' = allocated_pages s /\ allocator s' = allocator s
    /\ vmem_pmcb s' = vmem_pmcb s).
Proof.
  unfold SetWritableStatus. unfold_ops.
  repeat (case_match; simplify_eq; simpl in * ); repeat split; auto.
Qed.

Lemma writable_pages_fields count : forall s vaddr writable,
  returns (writable_pages count s vaddr writable) (fun _ s' =>
    same_io s s' /\ cout s' = cout s /\ accesses s' = accesses s
    /\ allocated_pages s' = allocated_pages s /\ allocator s' = allocator s
    /\ vmem_pmcb s' = vmem_pmcb s).
Proof.
  induction count as [|count IH]; intros s vaddr writable; simpl.
  - repeat split.
  - eapply returns_bind; [apply SetWritableStatus_fields|].
    intros _ s1 (Hio & Hc & Ha & Hp & Hal & Hv).
    eapply returns_weaken; [apply IH|].
    intros _ s2 (Hio2 & Hc2 & Ha2 & Hp2 & Hal2 & Hv2).
    repeat split; try congruence; destruct Hio as (?&?&?&?), Hio2 as (?&?&?&?); congruence.
Qed.

Lemma CmdWritable_virtual root s cmdArgs :
  in_virtual_mode root s ->
  returns (CmdWritable s cmdArgs) (fun _ s' => in_virtual_mode root s').
Proof.
  intros [Hm Hv]. unfold CmdWritable, at_, bind.
  destruct (nth_error cmdArgs 0) as [vaddr|]; [|exact I].
  destruct (nth_error cmdArgs 1) as [bc|]; [|exact I].
  destruct (nth_error cmdArgs 2) as [flag|]; [|exact I].
  pose proof (writable_pages_fields (Z.to_nat (bc / kPageSize))
    (with_memory (with_vmem_pmcb s (get_PMCB (memory s)))
       (set_PMCB (memory (with_vmem_pmcb s (get_PMCB (memory s)))) pmem_pmcb))
    vaddr (negb (flag =? 0))) as H.
  destruct (writable_pages _ _ _ _) as [u s1|f s1|]; simpl in *; auto.
  destruct H as (_ & _ & _ & _ & _ & Hv1).
  unfold in_virtual_mode. simpl. rewrite Hv1. unfold get_PMCB. auto.
Qed.

(** C3.  Started with the process's context active in virtual mode, each of
    [compare], [put], [fill], [copy], [dump] and [writable] ends the program
    or returns with that context active in virtual mode again, whichever way
    it returns: completion, permission fault or quota failure. *)
Theorem commands_return_in_virtual_mode :
  forall (root : Z) (s : ProcessTrace) (cmdArgs : list Z),
    in_virtual_mode root s -> Forall u32 cmdArgs ->
    returns (CmdCompare s cmdArgs) (fun _ s' => in_virtual_mode root s')
    /\ returns (CmdPut s cmdArgs) (fun _ s' => in_virtual_mode root s')
    /\ returns (CmdFill s cmdArgs) (fun _ s' => in_virtual_mode root s')
    /\ returns (CmdCopy s cmdArgs) (fun _ s' => in_virtual_mode root s')
    /\ returns (CmdDump s cmdArgs) (fun _ s' => in_virtual_mode root s')
    /\ returns (CmdWritable s cmdArgs) (fun _ s' => in_virtual_mode root s').
Proof.
  intros root s cmdArgs Hs Hu.
  split; [apply CmdCompare_virtual, Hs|].
  split; [eapply returns_weaken; [apply CmdPut_effect, Hs|intros ? ? H; apply H]|].
  split; [eapply returns_weaken; [apply CmdFill_effect; [apply Hs|exact Hu]|
                                  intros ? ? H; apply H]|].
  split; [eapply returns_weaken; [apply CmdCopy_effect, Hs|intros ? ? H; apply H]|].
  split; [apply CmdDump_virtual, Hs|apply CmdWritable_virtual, Hs].
Qed.

Lemma commands_return_in_virtual_mode_witness :
  returns (CmdCompare compare_state [4094; 4; 9])
          (fun _ s' => in_virtual_mode 4096 s')
  /\ returns (CmdPut compare_state [4094; 4; 9]) (fun _ s' => in_virtual_mode 4096 s')
  /\ returns (CmdFill compare_state [4094; 4; 9]) (fun _ s' => in_virtual_mode 4096 s')
  /\ returns (CmdCopy compare_state [4094; 4; 9]) (fun _ s' => in_virtual_mode 4096 s')
  /\ returns (CmdDump compare_state [4094; 4; 9]) (fun _ s' => in_virtual_mode 4096 s')
  /\ returns (CmdWritable compare_state [4094; 4; 9])
             (fun _ s' => in_virtual_mode 4096 s').
Proof.
  apply (commands_return_in_virtual_mode 4096 compare_state [4094; 4; 9]).
  - unfold in_virtual_mode, virtual_context. repeat split; vm_compute; reflexivity.
  - repeat constructor; unfold u32; lia.
Defined.

(** The claim of the specification about the counter: it never exceeds the
    quota and it counts every frame taken from the allocator, [initial]
    being the free frames before the process was created. *)
Definition counter_counts_every_frame (initial : PageFrameAllocator)
    (s : ProcessTrace) : Prop :=
  allocated_pages s <= QUOTA s
  /\ allocated_pages s
     = Z.of_nat (length initial) - Z.of_nat (length (allocator s)).

(** C2, as stated, fails: after [quota 5] and one [put] into an unmapped
    page, three frames are gone from the allocator (the root of the page
    table, a second-level table and the page) and the counter is [1]. *)
Lemma counter_misses_table_frames :
  ~ counter_counts_every_frame (frames_from 4096 8) compare_state.
Proof.
  unfold counter_counts_every_frame. vm_compute. intros [_ H]. discriminate H.
Qed.

(** C2, amended.  The counter counts recovered page faults: a [put], [fill]
    or [copy] that returns has left the quota alone, has not decreased the
    counter, has kept it within the quota if it was, and has taken at least
    one and at most two frames for every unit the counter grew; each
    recovery adds exactly one for the one or two frames it takes; and the
    frame taken for the root of the page table at creation is not counted. *)
Theorem counter_counts_recovered_faults :
  forall (root : Z) (cmd : string) (h : ProcessTrace -> list Z -> Result bool)
         (s : ProcessTrace) (cmdArgs : list Z),
    writer cmd = Some h -> in_virtual_mode root s -> Forall u32 cmdArgs ->
    returns (h s cmdArgs) (fun _ s' =>
      QUOTA s' = QUOTA s
      /\ allocated_pages s <= allocated_pages s'
      /\ (allocated_pages s <= QUOTA s -> allocated_pages s' <= QUOTA s')
      /\ allocated_pages s' - allocated_pages s <= frames_taken s s'
           <= 2 * (allocated_pages s' - allocated_pages s))
    /\ (forall t t', recover t = Done (Some tt) t' ->
          allocated_pages t' = allocated_pages t + 1
          /\ took_frames (allocator t) (allocator t'))
    /\ (forall m f free lines id q,
          exists s0, ProcessTrace_new m (f :: free) lines id q = Done tt s0
                     /\ allocated_pages s0 = 0 /\ allocator s0 = free
                     /\ page_table_base (vmem_pmcb s0) = f).
Proof.
  intros root cmd h s cmdArgs Hw Hs Hu. split; [|split].
  - assert (He : returns (h s cmdArgs) (fun _ s' => handler_effect root s s')).
    { apply writer_cases in Hw as [->|[->| ->]].
      - apply CmdPut_effect, Hs.
      - apply CmdFill_effect; [apply Hs|exact Hu].
      - apply CmdCopy_effect, Hs. }
    eapply returns_weaken; [exact He|].
    intros b s' (Hio & _ & Hle & Hq & Hf).
    assert (HQ : QUOTA s' = QUOTA s) by apply Hio.
    rewrite HQ. auto.
  - intros t t' H. apply recover_Some in H. intuition.
  - intros m f free lines id q. eexists. split; [reflexivity|]. simpl. auto.
Qed.

Lemma counter_counts_recovered_faults_witness :
  returns (CmdPut compare_state [8190; 1; 2; 3]) (fun _ s' =>
    QUOTA s' = QUOTA compare_state
    /\ allocated_pages compare_state <= allocated_pages s'
    /\ (allocated_pages compare_state <= QUOTA compare_state ->
        allocated_pages s' <= QUOTA s')
    /\ allocated_pages s' - allocated_pages compare_state
       <= frames_taken compare_state s'
       <= 2 * (allocated_pages s' - allocated_pages compare_state))
  /\ (forall t t', recover t = Done (Some tt) t' ->
        allocated_pages t' = allocated_pages t + 1
        /\ took_frames (allocator t) (allocator t'))
  /\ (forall m f free lines id q,
        exists s0, ProcessTrace_new m (f :: free) lines id q = Done tt s0
                   /\ allocated_pages s0 = 0 /\ allocator s0 = free
                   /\ page_table_base (vmem_pmcb s0) = f).
Proof.
  apply (counter_counts_recovered_faults 4096 "put" CmdPut compare_state
           [8190; 1; 2; 3]).
  - reflexivity.
  - unfold in_virtual_mode, virtual_context. repeat split; vm_compute; reflexivity.
  - repeat constructor; unfold u32; lia.
Defined.

(* ===================================================================== *)
(** ** Bytes and page-table entries in memory *)
(* ===================================================================== *)

Lemma byte_at_range pm a : 0 <= byte_at pm a < 256.
Proof. unfold byte_at, wrap8. apply Z.mod_pos_bound. lia. Qed.

Lemma entry_at_range pm a : 0 <= entry_at pm a < 4294967296.
Proof.
  unfold entry_at.
  pose proof (byte_at_range pm a). pose proof (byte_at_range pm (wrap32 (a + 1))).
  pose proof (byte_at_range pm (wrap32 (a + 2))).
  pose proof (byte_at_range pm (wrap32 (a + 3))). lia.
Qed.

Lemma byte_at_insert pm a b a' :
  byte_at (<[a := b]> pm) a' = if decide (a = a') then wrap8 b else byte_at pm a'.
Proof.
  unfold byte_at. rewrite lookup_insert. destruct (decide (a = a')); reflexivity.
Qed.

Lemma byte_at_insert_ne pm a b a' :
  a <> a' -> byte_at (<[a := b]> pm) a' = byte_at pm a'.
Proof. intros H. rewrite byte_at_insert. destruct (decide (a = a')); congruence. Qed.

(** An address at which a page-table entry can lie. *)
Definition aligned4 (a : Z) : Prop := 0 <= a < 4294967296 /\ a mod 4 = 0.

(** The address of a page frame. *)
Definition frame (f : Z) : Prop := 0 <= f < 4294967296 /\ f mod 4096 = 0.

Lemma aligned4_bytes a :
  aligned4 a ->
  wrap32 (a + 1) = a + 1 /\ wrap32 (a + 2) = a + 2 /\ wrap32 (a + 3) = a + 3.
Proof.
  intros [Hr Hm]. assert (a + 3 < 4294967296).
  { pose proof (Z.div_mod a 4 ltac:(lia)) as Hd.
    assert (a / 4 < 1073741824) by (apply Z.div_lt_upper_bound; lia). lia. }
  rewrite !wrap32_small by lia. auto.
Qed.

(** A write elsewhere leaves an entry as it was. *)
Lemma entry_at_insert_other pm pa b a :
  aligned4 a -> (pa < a \/ a + 3 < pa) ->
  entry_at (<[pa := b]> pm) a = entry_at pm a.
Proof.
  intros Ha Hne. unfold entry_at.
  destruct (aligned4_bytes a Ha) as (-> & -> & ->).
  rewrite !byte_at_insert_ne by lia. reflexivity.
Qed.

(** The memory after the four bytes of an entry are stored at [a]. *)
Definition store_entry (pm : gmap Z Z) (a e : Z) : gmap Z Z :=
  <[a + 3 := (e / 16777216) mod 256]>
    (<[a + 2 := (e / 65536) mod 256]>
       (<[a + 1 := (e / 256) mod 256]> (<[a := e mod 256]> pm))).

Lemma entry_at_store_same pm a e :
  aligned4 a -> 0 <= e < 4294967296 -> entry_at (store_entry pm a e) a = e.
Proof.
  intros Ha He. unfold entry_at, store_entry.
  destruct (aligned4_bytes a Ha) as (-> & -> & ->).
  rewrite !byte_at_insert.
  repeat (destruct (decide _); try lia).
  unfold wrap8. rewrite !Z.mod_mod by lia.
  assert (E2 : e / 65536 = e / 256 / 256) by (rewrite Z.div_div by lia; reflexivity).
  assert (E3 : e / 16777216 = e / 256 / 256 / 256)
    by (rewrite !Z.div_div by lia; reflexivity).
  rewrite E2, E3.
  pose proof (Z.div_mod e 256 ltac:(lia)).
  pose proof (Z.div_mod (e / 256) 256 ltac:(lia)).
  pose proof (Z.div_mod (e / 256 / 256) 256 ltac:(lia)).
  assert (e / 256 / 256 / 256 < 256).
  { repeat (apply Z.div_lt_upper_bound; [lia|]). lia. }
  assert (0 <= e / 256 / 256 / 256) by (repeat apply Z.div_pos; lia).
  rewrite (Z.mod_small (e / 256 / 256 / 256)) by lia. lia.
Qed.

Lemma entry_at_store_other pm a e a' :
  aligned4 a -> aligned4 a' -> a <> a' ->
  entry_at (store_entry pm a e) a' = entry_at pm a'.
Proof.
  intros Ha Ha' Hne. unfold store_entry.
  assert (a' + 3 < a \/ a + 3 < a').
  { destruct Ha as [_ Ha], Ha' as [_ Ha'].
    pose proof (Z.div_mod a 4 ltac:(lia)). pose proof (Z.div_mod a' 4 ltac:(lia)). lia. }
  rewrite !entry_at_insert_other by (auto; lia). reflexivity.
Qed.

(* ===================================================================== *)
(** ** The bit fields of an entry, in arithmetic *)
(* ===================================================================== *)

Lemma land_shiftl_r e c k :
  0 <= k -> Z.land e (Z.shiftl c k) = Z.shiftl (Z.land (Z.shiftr e k) c) k.
Proof.
  intros Hk. apply Z.bits_inj'. intros n Hn.
  rewrite Z.land_spec, !Z.shiftl_spec by lia.
  destruct (Z.lt_ge_cases n k) as [Hlt|Hge].
  - rewrite !(Z.testbit_neg_r _ (n - k)) by lia. apply andb_false_r.
  - rewrite Z.land_spec, Z.shiftr_spec by lia.
    replace (n - k + k) with n by lia. reflexivity.
Qed.

Lemma land_1 e : Z.land e 1 = e mod 2.
Proof. change 1 with (Z.ones 1). rewrite Z.land_ones by lia. reflexivity. Qed.

Lemma land_2 e : Z.land e 2 = 2 * ((e / 2) mod 2).
Proof.
  change 2 with (Z.shiftl 1 1) at 1. rewrite land_shiftl_r by lia.
  rewrite land_1, Z.shiftl_mul_pow2, Z.shiftr_div_pow2 by lia.
  change (2 ^ 1) with 2. lia.
Qed.

Lemma land_frame e :
  0 <= e < 4294967296 -> Z.land e kPageNumberMask = 4096 * (e / 4096).
Proof.
  intros He. unfold kPageNumberMask.
  change 4294963200 with (Z.shiftl (Z.ones 20) 12).
  rewrite land_shiftl_r, Z.land_ones by lia.
  rewrite Z.shiftl_mul_pow2, Z.shiftr_div_pow2 by lia.
  change (2 ^ 12) with 4096. change (2 ^ 20) with 1048576.
  rewrite Z.mod_small; [lia|].
  split; [apply Z.div_pos; lia|apply Z.div_lt_upper_bound; lia].
Qed.

Lemma land_offset v : Z.land v (kPageSize - 1) = v mod 4096.
Proof.
  change (kPageSize - 1) with (Z.ones 12). rewrite Z.land_ones by lia. reflexivity.
Qed.

Lemma land_index x : Z.land x kPageTableIndexMask = x mod 1024.
Proof.
  change kPageTableIndexMask with (Z.ones 10). rewrite Z.land_ones by lia. reflexivity.
Qed.

Lemma lor_disjoint a b : Z.land a b = 0 -> Z.lor a b = a + b.
Proof. intros H. symmetry. apply Z.add_nocarry_lor. exact H. Qed.

(** Present and writable added to the address of a frame. *)
Lemma lor_flags f :
  f mod 4096 = 0 -> Z.lor (Z.lor f kPTE_PresentMask) kPTE_WritableMask = f + 3.
Proof.
  intros Hf. unfold kPTE_PresentMask, kPTE_WritableMask.
  pose proof (Z.div_mod f 4096 ltac:(lia)) as Hd.
  rewrite (lor_disjoint f 1).
  - rewrite lor_disjoint; [lia|]. rewrite land_2.
    replace (f + 1) with (1 + (2048 * (f / 4096)) * 2) by lia.
    rewrite Z.div_add by lia. change (1 / 2) with 0.
    replace (0 + 2048 * (f / 4096)) with ((1024 * (f / 4096)) * 2) by lia.
    rewrite Z.mod_mul by lia. reflexivity.
  - rewrite land_1. replace f with ((2048 * (f / 4096)) * 2) by lia.
    apply Z.mod_mul. lia.
Qed.

(** The writable bit replaced, as [SetWritableStatus] computes it. *)
Lemma set_writable_arith e (w : bool) :
  0 <= e < 4294967296 ->
  Z.lor (Z.land e (Z.lxor 4294967295 kPTE_WritableMask))
        (if w then kPTE_WritableMask else 0)
  = 4 * (e / 4) + (if w then 2 else 0) + e mod 2.
Proof.
  intros He. unfold kPTE_WritableMask.
  change (Z.lxor 4294967295 2) with (Z.lor (Z.shiftl (Z.ones 30) 2) 1).
  rewrite Z.land_lor_distr_r, land_shiftl_r, Z.land_ones, land_1 by lia.
  rewrite Z.shiftl_mul_pow2, Z.shiftr_div_pow2 by lia.
  change (2 ^ 2) with 4. change (2 ^ 30) with 1073741824.
  assert (Hq : 0 <= e / 4 < 1073741824).
  { split; [apply Z.div_pos; lia|apply Z.div_lt_upper_bound; lia]. }
  rewrite (Z.mod_small (e / 4)) by lia.
  assert (Hb : 0 <= e mod 2 < 2) by (apply Z.mod_pos_bound; lia).
  assert (H1 : Z.lor (e / 4 * 4) (e mod 2) = e / 4 * 4 + e mod 2).
  { apply lor_disjoint. rewrite Z.land_comm.
    change 4 with (2 ^ 2). rewrite <- Z.shiftl_mul_pow2 by lia.
    rewrite land_shiftl_r, Z.shiftr_div_pow2 by lia. change (2 ^ 2) with 4.
    rewrite (Z.div_small (e mod 2)) by lia. reflexivity. }
  rewrite H1. destruct w.
  - rewrite lor_disjoint; [lia|]. rewrite land_2.
    replace (e / 4 * 4 + e mod 2) with (e mod 2 + (2 * (e / 4)) * 2) by lia.
    rewrite Z.div_add by lia. rewrite (Z.div_small (e mod 2)) by lia.
    replace (0 + 2 * (e / 4)) with ((e / 4) * 2) by lia.
    rewrite Z.mod_mul by lia. reflexivity.
  - rewrite Z.lor_0_r. lia.
Qed.

Lemma shiftr_l1 v : Z.shiftr v (kPageSizeBits + kPageTableSizeBits) = v / 4194304.
Proof. change (kPageSizeBits + kPageTableSizeBits) with 22.
       rewrite Z.shiftr_div_pow2 by lia. reflexivity. Qed.

Lemma shiftr_l2 v : Z.shiftr v kPageSizeBits = v / 4096.
Proof. unfold kPageSizeBits. rewrite Z.shiftr_div_pow2 by lia. reflexivity. Qed.

Definition frame_of (e : Z) : Z := 4096 * (e / 4096).

(** Where the walk finds the first-level entry of [va], and the
    second-level entry under the first-level entry [l1]. *)
Definition l1_slot (root va : Z) : Z := root + 4 * (va / 4194304).
Definition l2_slot (l1 va : Z) : Z := frame_of l1 + 4 * ((va / 4096) mod 1024).

Lemma frame_of_frame e : 0 <= e < 4294967296 -> frame (frame_of e).
Proof.
  intros He. unfold frame, frame_of.
  pose proof (Z.div_mod e 4096 ltac:(lia)).
  pose proof (Z.mod_pos_bound e 4096 ltac:(lia)).
  repeat split; try lia.
  rewrite Z.mul_comm. apply Z.mod_mul. lia.
Qed.

Lemma frame_slot f k : frame f -> 0 <= k < 1024 -> aligned4 (f + 4 * k).
Proof.
  intros [Hr Hm] Hk. unfold aligned4.
  pose proof (Z.div_mod f 4096 ltac:(lia)).
  assert (f / 4096 < 1048576) by (apply Z.div_lt_upper_bound; lia).
  split; [lia|].
  replace (f + 4 * k) with ((1024 * (f / 4096) + k) * 4) by lia.
  apply Z.mod_mul. lia.
Qed.

Lemma l1_index_range va : u32 va -> 0 <= va / 4194304 < 1024.
Proof.
  intros Hv. unfold u32 in Hv.
  split; [apply Z.div_pos; lia|apply Z.div_lt_upper_bound; lia].
Qed.

Lemma l2_index_range va : 0 <= (va / 4096) mod 1024 < 1024.
Proof. apply Z.mod_pos_bound. lia. Qed.

Lemma l1_slot_aligned root va : frame root -> u32 va -> aligned4 (l1_slot root va).
Proof. intros Hr Hv. apply frame_slot; [exact Hr|apply l1_index_range, Hv]. Qed.

Lemma l2_slot_aligned l1 va : 0 <= l1 < 4294967296 -> aligned4 (l2_slot l1 va).
Proof.
  intros Hl. apply frame_slot; [apply frame_of_frame, Hl|apply l2_index_range].
Qed.

Lemma aligned4_wrap a : aligned4 a -> wrap32 a = a.
Proof. intros [Hr _]. apply wrap32_small, Hr. Qed.

(** The walk in arithmetic. *)
Lemma walk_arith pm root va :
  frame root -> u32 va ->
  walk pm root va =
    let l1 := entry_at pm (l1_slot root va) in
    if l1 mod 2 =? 0 then Unmapped
    else
      let l2 := entry_at pm (l2_slot l1 va) in
      if l2 mod 2 =? 0 then Unmapped
      else Mapped (frame_of l2 + va mod 4096) (negb ((l2 / 2) mod 2 =? 0)).
Proof.
  intros Hr Hv. unfold walk.
  rewrite shiftr_l1, shiftr_l2, land_index, land_offset.
  unfold sizeof_PageTableEntry, kPTE_PresentMask, kPTE_WritableMask.
  fold (l1_slot root va). rewrite (aligned4_wrap _ (l1_slot_aligned _ _ Hr Hv)).
  cbv zeta. set (l1 := entry_at pm (l1_slot root va)).
  pose proof (entry_at_range pm (l1_slot root va)) as Hl1. fold l1 in Hl1.
  rewrite land_1, (land_frame l1 Hl1). fold (frame_of l1). fold (l2_slot l1 va).
  rewrite (aligned4_wrap _ (l2_slot_aligned l1 va Hl1)).
  set (l2 := entry_at pm (l2_slot l1 va)).
  pose proof (entry_at_range pm (l2_slot l1 va)) as Hl2. fold l2 in Hl2.
  rewrite land_1, land_2, (land_frame l2 Hl2). fold (frame_of l2).
  destruct (l1 mod 2 =? 0); [reflexivity|].
  destruct (l2 mod 2 =? 0); [reflexivity|].
  f_equal. f_equal.
  pose proof (Z.mod_pos_bound (l2 / 2) 2 ltac:(lia)).
  destruct ((l2 / 2) mod 2 =? 0) eqn:E.
  - apply Z.eqb_eq in E. rewrite E. reflexivity.
  - apply Z.eqb_neq in E. apply Z.eqb_neq. lia.
Qed.

(* ===================================================================== *)
(** ** Entries read and written with paging disabled *)
(* ===================================================================== *)

Lemma get_entry_physical s a :
  vm_enable (pmcb (memory s)) = false -> aligned4 a ->
  exists c,
    get_entry s a
    = Done (entry_at (pmem (memory s)) a)
           (with_memory s {| pmem := pmem (memory s); pmcb := c |})
    /\ vm_enable c = false
    /\ page_table_base c = page_table_base (pmcb (memory s)).
Proof.
  intros Hvm Ha. unfold get_entry, get_bytes, sizeof_PageTableEntry.
  change (Z.to_nat 4) with 4%nat. simpl. unfold translate. rewrite Hvm.
  destruct (aligned4_bytes a Ha) as (E1 & E2 & E3).
  eexists. split.
  - f_equal. unfold entry_of_bytes, entry_at. simpl.
    rewrite E1. replace (a + 1 + 1) with (a + 2) by lia.
    rewrite E2. replace (a + 2 + 1) with (a + 3) by lia.
    rewrite ?E3. reflexivity.
  - simpl. auto.
Qed.

Lemma put_entry_physical s a e :
  vm_enable (pmcb (memory s)) = false -> aligned4 a ->
  exists c,
    put_entry s a e
    = Done tt (with_memory s {| pmem := store_entry (pmem (memory s)) a e; pmcb := c |})
    /\ vm_enable c = false
    /\ page_table_base c = page_table_base (pmcb (memory s)).
Proof.
  intros Hvm Ha. unfold put_entry, put_bytes, entry_bytes. simpl.
  unfold translate. rewrite Hvm.
  destruct (aligned4_bytes a Ha) as (E1 & E2 & E3).
  eexists. split.
  - f_equal. f_equal. f_equal. unfold store_entry.
    rewrite E1. replace (a + 1 + 1) with (a + 2) by lia.
    rewrite E2. replace (a + 2 + 1) with (a + 3) by lia.
    rewrite ?E3. reflexivity.
  - simpl. auto.
Qed.

(* ===================================================================== *)
(** ** [SetWritableStatus] on memory *)
(* ===================================================================== *)

Definition set_writable_entry (e : Z) (w : bool) : Z :=
  4 * (e / 4) + (if w then 2 else 0) + e mod 2.

(** Memory after [SetWritableStatus(va, w)] run with paging disabled. *)
Definition set_writable_mem (pm : gmap Z Z) (root va : Z) (w : bool) : gmap Z Z :=
  let l1 := entry_at pm (l1_slot root va) in
  if l1 mod 2 =? 0 then pm
  else
    let l2 := entry_at pm (l2_slot l1 va) in
    if l2 mod 2 =? 0 then pm
    else store_entry pm (l2_slot l1 va) (set_writable_entry l2 w).

Lemma set_writable_entry_range e w :
  0 <= e < 4294967296 -> 0 <= set_writable_entry e w < 4294967296.
Proof.
  intros He. unfold set_writable_entry.
  pose proof (Z.div_mod e 4 ltac:(lia)). pose proof (Z.mod_pos_bound e 4 ltac:(lia)).
  pose proof (Z.mod_pos_bound e 2 ltac:(lia)).
  assert (e / 4 < 1073741824) by (apply Z.div_lt_upper_bound; lia).
  assert (0 <= e / 4) by (apply Z.div_pos; lia).
  destruct w; lia.
Qed.

Lemma set_writable_entry_bits e w :
  set_writable_entry e w / 4 = e / 4
  /\ set_writable_entry e w mod 2 = e mod 2
  /\ (set_writable_entry e w / 2) mod 2 = (if w then 1 else 0).
Proof.
  unfold set_writable_entry.
  pose proof (Z.mod_pos_bound e 2 ltac:(lia)) as Hb.
  set (q := e / 4). set (b := e mod 2) in *.
  assert (H4 : (4 * q + (if w then 2 else 0) + b) / 4 = q).
  { replace (4 * q + (if w then 2 else 0) + b)
      with (((if w then 2 else 0) + b) + q * 4) by lia.
    rewrite Z.div_add by lia. rewrite Z.div_small; [lia|destruct w; lia]. }
  assert (H2 : (4 * q + (if w then 2 else 0) + b) mod 2 = b).
  { replace (4 * q + (if w then 2 else 0) + b)
      with (b + (2 * q + (if w then 1 else 0)) * 2) by (destruct w; lia).
    rewrite Z.mod_add by lia. apply Z.mod_small. lia. }
  assert (H1 : ((4 * q + (if w then 2 else 0) + b) / 2) mod 2 = if w then 1 else 0).
  { replace (4 * q + (if w then 2 else 0) + b)
      with (b + (2 * q + (if w then 1 else 0)) * 2) by (destruct w; lia).
    rewrite Z.div_add by lia. rewrite (Z.div_small b) by lia.
    replace (0 + (2 * q + (if w then 1 else 0)))
      with ((if w then 1 else 0) + q * 2) by lia.
    rewrite Z.mod_add by lia. apply Z.mod_small. destruct w; lia. }
  auto.
Qed.

Lemma SetWritableStatus_physical root s va w :
  vm_enable (pmcb (memory s)) = false ->
  page_table_base (vmem_pmcb s) = root -> frame root -> u32 va ->
  exists s',
    SetWritableStatus s va w = Done tt s'
    /\ pmem (memory s') = set_writable_mem (pmem (memory s)) root va w
    /\ vm_enable (pmcb (memory s')) = false.
Proof.
  intros Hvm Hb Hr Hv. unfold SetWritableStatus, set_writable_mem.
  rewrite Hb, shiftr_l1, shiftr_l2, land_index.
  unfold sizeof_PageTableEntry, kPTE_PresentMask.
  fold (l1_slot root va). rewrite (aligned4_wrap _ (l1_slot_aligned _ _ Hr Hv)).
  destruct (get_entry_physical s _ Hvm (l1_slot_aligned _ _ Hr Hv))
    as (c1 & -> & Hc1 & _).
  cbv zeta. set (l1 := entry_at (pmem (memory s)) (l1_slot root va)).
  pose proof (entry_at_range (pmem (memory s)) (l1_slot root va)) as Hl1. fold l1 in Hl1.
  unfold bind. rewrite land_1.
  destruct (l1 mod 2 =? 0); [eexists; split; [reflexivity|simpl; auto]|].
  rewrite (land_frame l1 Hl1). fold (frame_of l1). fold (l2_slot l1 va).
  rewrite (aligned4_wrap _ (l2_slot_aligned l1 va Hl1)).
  match goal with |- context [get_entry ?t _] =>
    destruct (get_entry_physical t (l2_slot l1 va) Hc1 (l2_slot_aligned l1 va Hl1))
      as (c2 & -> & Hc2 & _) end.
  simpl pmem. set (l2 := entry_at (pmem (memory s)) (l2_slot l1 va)).
  pose proof (entry_at_range (pmem (memory s)) (l2_slot l1 va)) as Hl2. fold l2 in Hl2.
  rewrite land_1.
  destruct (l2 mod 2 =? 0); [eexists; split; [reflexivity|simpl; auto]|].
  rewrite (set_writable_arith l2 w Hl2). fold (set_writable_entry l2 w).
  match goal with |- context [put_entry ?t _ ?e] =>
    destruct (put_entry_physical t (l2_slot l1 va) e Hc2 (l2_slot_aligned l1 va Hl1))
      as (c3 & -> & Hc3 & _) end.
  eexists. split; [reflexivity|simpl; auto].
Qed.

(** Memory after the loop of [CmdWritable]. *)
Fixpoint writable_pages_mem (count : nat) (pm : gmap Z Z) (root va : Z) (w : bool)
  : gmap Z Z :=
  match count with
  | O => pm
  | S count' =>
      writable_pages_mem count' (set_writable_mem pm root va w) root
        (wrap32 (va + 4096)) w
  end.

Lemma writable_pages_physical root count : forall s va w,
  vm_enable (pmcb (memory s)) = false ->
  page_table_base (vmem_pmcb s) = root -> frame root -> u32 va ->
  exists s',
    writable_pages count s va w = Done tt s'
    /\ pmem (memory s') = writable_pages_mem count (pmem (memory s)) root va w.
Proof.
  induction count as [|count IH]; intros s va w Hvm Hb Hr Hv; simpl.
  - eexists. split; reflexivity.
  - destruct (SetWritableStatus_physical root s va w Hvm Hb Hr Hv)
      as (s1 & E & Hm & Hvm1).
    pose proof (SetWritableStatus_fields s va w) as Hf. rewrite E in Hf. simpl in Hf.
    destruct Hf as (_ & _ & _ & _ & _ & Hvp).
    rewrite E. simpl.
    destruct (IH s1 (wrap32 (va + 4096)) w Hvm1) as (s2 & E2 & Hm2);
      [congruence|exact Hr|apply wrap32_range|].
    exists s2. split; [exact E2|]. rewrite Hm2, Hm. reflexivity.
Qed.

(** Two memories whose entries differ at most in the writable bit, a bit
    equal to [w] staying so. *)
Definition same_mapping (w : bool) (pm pm' : gmap Z Z) : Prop :=
  forall a, aligned4 a ->
    entry_at pm' a / 4 = entry_at pm a / 4
    /\ entry_at pm' a mod 2 = entry_at pm a mod 2
    /\ ((entry_at pm a / 2) mod 2 = (if w then 1 else 0) ->
        (entry_at pm' a / 2) mod 2 = (if w then 1 else 0)).

Lemma same_mapping_refl w pm : same_mapping w pm pm.
Proof. intros a Ha. auto. Qed.

Lemma same_mapping_trans w pm1 pm2 pm3 :
  same_mapping w pm1 pm2 -> same_mapping w pm2 pm3 -> same_mapping w pm1 pm3.
Proof.
  intros H12 H23 a Ha.
  destruct (H12 a Ha) as (A1 & A2 & A3), (H23 a Ha) as (B1 & B2 & B3).
  repeat split; try congruence. auto.
Qed.

Lemma set_writable_mem_same_mapping pm root va w :
  frame root -> u32 va -> same_mapping w pm (set_writable_mem pm root va w).
Proof.
  intros Hr Hv. unfold set_writable_mem. cbv zeta.
  set (l1 := entry_at pm (l1_slot root va)).
  pose proof (entry_at_range pm (l1_slot root va)) as Hl1. fold l1 in Hl1.
  destruct (l1 mod 2 =? 0); [apply same_mapping_refl|].
  set (l2 := entry_at pm (l2_slot l1 va)).
  pose proof (entry_at_range pm (l2_slot l1 va)) as Hl2. fold l2 in Hl2.
  destruct (l2 mod 2 =? 0); [apply same_mapping_refl|].
  intros a Ha. destruct (Z.eq_dec (l2_slot l1 va) a) as [<-|Hne].
  - rewrite entry_at_store_same
      by (auto using l2_slot_aligned, set_writable_entry_range).
    fold l2. destruct (set_writable_entry_bits l2 w) as (B1 & B2 & B3). auto.
  - rewrite entry_at_store_other by (auto using l2_slot_aligned). auto.
Qed.

Lemma writable_pages_mem_same_mapping root w count : forall pm va,
  frame root -> u32 va ->
  same_mapping w pm (writable_pages_mem count pm root va w).
Proof.
  induction count as [|count IH]; intros pm va Hr Hv; simpl.
  - apply same_mapping_refl.
  - apply (same_mapping_trans w pm (set_writable_mem pm root va w)).
    + apply set_writable_mem_same_mapping; assumption.
    + apply IH; [exact Hr|apply wrap32_range].
Qed.

Lemma frame_of_div4 e e' : e' / 4 = e / 4 -> frame_of e' = frame_of e.
Proof.
  intros H. unfold frame_of. f_equal.
  replace 4096 with (4 * 1024) by lia. rewrite <- !Z.div_div by lia. congruence.
Qed.

(** The walk as a statement about the two entries it reads. *)
Lemma walk_Mapped pm root va pa w :
  frame root -> u32 va ->
  walk pm root va = Mapped pa w <->
  let l1 := entry_at pm (l1_slot root va) in
  let l2 := entry_at pm (l2_slot l1 va) in
  l1 mod 2 = 1 /\ l2 mod 2 = 1
  /\ pa = frame_of l2 + va mod 4096
  /\ w = negb ((l2 / 2) mod 2 =? 0).
Proof.
  intros Hr Hv. rewrite (walk_arith pm root va Hr Hv). cbv zeta.
  set (l1 := entry_at pm (l1_slot root va)).
  set (l2 := entry_at pm (l2_slot l1 va)).
  pose proof (Z.mod_pos_bound l1 2 ltac:(lia)).
  pose proof (Z.mod_pos_bound l2 2 ltac:(lia)).
  destruct (l1 mod 2 =? 0) eqn:E1;
    [apply Z.eqb_eq in E1; split; [discriminate|lia]|].
  destruct (l2 mod 2 =? 0) eqn:E2;
    [apply Z.eqb_eq in E2; split; [discriminate|lia]|].
  apply Z.eqb_neq in E1, E2. split.
  - intros H'. injection H' as <- <-. repeat split; lia.
  - intros (_ & _ & -> & ->). reflexivity.
Qed.

Lemma walk_Unmapped pm root va :
  frame root -> u32 va ->
  walk pm root va = Unmapped <->
  let l1 := entry_at pm (l1_slot root va) in
  l1 mod 2 = 0 \/ entry_at pm (l2_slot l1 va) mod 2 = 0.
Proof.
  intros Hr Hv. rewrite (walk_arith pm root va Hr Hv). cbv zeta.
  set (l1 := entry_at pm (l1_slot root va)).
  set (l2 := entry_at pm (l2_slot l1 va)).
  destruct (l1 mod 2 =? 0) eqn:E1; [apply Z.eqb_eq in E1; tauto|].
  destruct (l2 mod 2 =? 0) eqn:E2; [apply Z.eqb_eq in E2; tauto|].
  apply Z.eqb_neq in E1, E2. split; [discriminate|tauto].
Qed.

(** Agreement of two walks on presence and on the physical address. *)
Definition same_translation (t t' : Translation) : Prop :=
  match t, t' with
  | Unmapped, Unmapped => True
  | Mapped pa _, Mapped pa' _ => pa = pa'
  | _, _ => False
  end.

Lemma same_mapping_walk w pm pm' root va :
  frame root -> u32 va -> same_mapping w pm pm' ->
  same_translation (walk pm root va) (walk pm' root va).
Proof.
  intros Hr Hv Hs.
  rewrite (walk_arith pm root va Hr Hv), (walk_arith pm' root va Hr Hv). cbv zeta.
  destruct (Hs _ (l1_slot_aligned root va Hr Hv)) as (A1 & A2 & _).
  set (l1 := entry_at pm (l1_slot root va)) in *.
  set (l1' := entry_at pm' (l1_slot root va)) in *.
  assert (Hs2 : l2_slot l1' va = l2_slot l1 va).
  { unfold l2_slot. rewrite (frame_of_div4 l1 l1' A1). reflexivity. }
  rewrite Hs2, A2.
  destruct (l1 mod 2 =? 0); [exact I|].
  pose proof (entry_at_range pm (l1_slot root va)) as Hl1. fold l1 in Hl1.
  destruct (Hs _ (l2_slot_aligned l1 va Hl1)) as (B1 & B2 & _).
  rewrite B2. destruct (_ mod 2 =? 0); [exact I|]. simpl.
  rewrite (frame_of_div4 _ _ B1). reflexivity.
Qed.

Lemma same_page_slots root l1 va va' :
  va' / 4096 = va / 4096 ->
  l1_slot root va' = l1_slot root va /\ l2_slot l1 va' = l2_slot l1 va.
Proof.
  intros H. unfold l1_slot, l2_slot. rewrite H.
  replace 4194304 with (4096 * 1024) by lia. rewrite <- !Z.div_div by lia.
  rewrite H. auto.
Qed.

(** A mapped page whose second-level entry has the writable bit [w] keeps
    its translation, with that bit, in every memory [same_mapping] leads to. *)
Lemma walk_same_mapping_bit w pm pm' root va pa w0 :
  frame root -> u32 va -> same_mapping w pm pm' ->
  walk pm root va = Mapped pa w0 ->
  (entry_at pm (l2_slot (entry_at pm (l1_slot root va)) va) / 2) mod 2
    = (if w then 1 else 0) ->
  walk pm' root va = Mapped pa w.
Proof.
  intros Hr Hv Hs Hw Hbit.
  apply (walk_Mapped pm root va pa w0 Hr Hv) in Hw. cbv zeta in Hw.
  destruct Hw as (P1 & P2 & -> & _).
  apply (walk_Mapped pm' root va _ w Hr Hv). cbv zeta.
  destruct (Hs _ (l1_slot_aligned root va Hr Hv)) as (A1 & A2 & _).
  set (l1 := entry_at pm (l1_slot root va)) in *.
  set (l1' := entry_at pm' (l1_slot root va)) in *.
  assert (Hs2 : l2_slot l1' va = l2_slot l1 va).
  { unfold l2_slot. rewrite (frame_of_div4 l1 l1' A1). reflexivity. }
  rewrite Hs2.
  pose proof (entry_at_range pm (l1_slot root va)) as Hl1. fold l1 in Hl1.
  destruct (Hs _ (l2_slot_aligned l1 va Hl1)) as (B1 & B2 & B3).
  specialize (B3 Hbit).
  repeat split; try congruence.
  - rewrite (frame_of_div4 _ _ B1). reflexivity.
  - rewrite B3. destruct w; reflexivity.
Qed.

Lemma set_writable_mem_bit pm root va w pa w0 :
  frame root -> u32 va ->
  walk pm root va = Mapped pa w0 ->
  let pm' := set_writable_mem pm root va w in
  (entry_at pm' (l2_slot (entry_at pm' (l1_slot root va)) va) / 2) mod 2
    = (if w then 1 else 0)
  /\ walk pm' root va = Mapped pa w.
Proof.
  intros Hr Hv Hw pm'.
  pose proof (set_writable_mem_same_mapping pm root va w Hr Hv) as Hs. fold pm' in Hs.
  apply (walk_Mapped pm root va pa w0 Hr Hv) in Hw. cbv zeta in Hw.
  destruct Hw as (P1 & P2 & -> & _).
  destruct (Hs _ (l1_slot_aligned root va Hr Hv)) as (A1 & A2 & _).
  set (l1 := entry_at pm (l1_slot root va)) in *.
  set (l1' := entry_at pm' (l1_slot root va)) in *.
  pose proof (entry_at_range pm (l1_slot root va)) as Hl1. fold l1 in Hl1.
  assert (Hs2 : l2_slot l1' va = l2_slot l1 va).
  { unfold l2_slot. rewrite (frame_of_div4 l1 l1' A1). reflexivity. }
  set (l2 := entry_at pm (l2_slot l1 va)) in *.
  pose proof (entry_at_range pm (l2_slot l1 va)) as Hl2. fold l2 in Hl2.
  assert (E : entry_at pm' (l2_slot l1 va) = set_writable_entry l2 w).
  { unfold pm', set_writable_mem. cbv zeta. fold l1. fold l2.
    replace (l1 mod 2 =? 0) with false by (symmetry; apply Z.eqb_neq; lia).
    replace (l2 mod 2 =? 0) with false by (symmetry; apply Z.eqb_neq; lia).
    apply entry_at_store_same;
      auto using l2_slot_aligned, set_writable_entry_range. }
  destruct (set_writable_entry_bits l2 w) as (B1 & B2 & B3).
  rewrite Hs2, E. split; [exact B3|].
  apply (walk_Mapped pm' root va _ w Hr Hv). cbv zeta. fold l1'.
  rewrite Hs2, E. repeat split; try congruence.
  - rewrite (frame_of_div4 _ _ B1). reflexivity.
  - rewrite B3. destruct w; reflexivity.
Qed.

Lemma writable_pages_mem_sets root w count : forall pm va (k : nat) va' pa w0,
  frame root -> u32 va -> (k < count)%nat -> u32 va' ->
  va' / 4096 = wrap32 (va + 4096 * Z.of_nat k) / 4096 ->
  walk pm root va' = Mapped pa w0 ->
  walk (writable_pages_mem count pm root va w) root va' = Mapped pa w.
Proof.
  induction count as [|count IH]; intros pm va k va' pa w0 Hr Hv Hk Hv' Hp Hw;
    [lia|]. simpl.
  assert (Hs1 := set_writable_mem_same_mapping pm root va w Hr Hv).
  destruct k as [|k].
  - rewrite Z.mul_0_r, Z.add_0_r, (wrap32_small va) in Hp by exact Hv.
    assert (E : set_writable_mem pm root va w = set_writable_mem pm root va' w).
    { unfold set_writable_mem. cbv zeta.
      destruct (same_page_slots root (entry_at pm (l1_slot root va)) va va' Hp)
        as [-> E2].
      rewrite E2. reflexivity. }
    destruct (set_writable_mem_bit pm root va' w pa w0 Hr Hv' Hw) as [Hbit Hw1].
    rewrite <- E in Hbit, Hw1.
    eapply walk_same_mapping_bit; eauto.
    apply writable_pages_mem_same_mapping; [exact Hr|apply wrap32_range].
  - pose proof (same_mapping_walk w _ _ root va' Hr Hv' Hs1) as Ht.
    rewrite Hw in Ht.
    destruct (walk (set_writable_mem pm root va w) root va') as [|pa1 w1] eqn:E1;
      [contradiction|]. simpl in Ht. subst pa1.
    apply (IH _ (wrap32 (va + 4096)) k va' pa w1); auto; try lia.
    + apply wrap32_range.
    + rewrite Hp. f_equal. unfold wrap32.
      rewrite Z.add_mod_idemp_l by lia. f_equal. lia.
Qed.

(** Whether page number [p] lies wholly inside [[addr, addr + byte_count)]. *)
Definition fully_covered (addr byte_count p : Z) : bool :=
  (addr <=? 4096 * p) && (4096 * (p + 1) <=? addr + byte_count).

(** The claim of the specification about [writable]: a mapped page gets the
    flag as its writable bit when the range covers it fully, and keeps its
    bit otherwise. *)
Definition writable_as_specified (root : Z) (s : ProcessTrace)
    (addr byte_count flag : Z) (s' : ProcessTrace) : Prop :=
  forall va pa w,
    u32 va -> walk (pmem (memory s)) root va = Mapped pa w ->
    walk (pmem (memory s')) root va
    = Mapped pa (if fully_covered addr byte_count (va / 4096)
                 then negb (flag =? 0) else w).

(** C6, as stated, fails: [writable 800 1000 0] covers no page fully, yet
    page 0, which contains [0x800], is made read-only. *)
Lemma writable_reaches_a_partly_covered_page :
  ~ writable_as_specified 4096 compare_state 2048 4096 0
      (state_of (CmdWritable compare_state [2048; 4096; 0]) blank).
Proof.
  intros H. specialize (H 0 12288 true).
  assert (Hu : u32 0) by (unfold u32; lia).
  assert (Hw : walk (pmem (memory compare_state)) 4096 0 = Mapped 12288 true)
    by (vm_compute; reflexivity).
  specialize (H Hu Hw). vm_compute in H. discriminate H.
Qed.

(* ===================================================================== *)
(** ** Where a retried write starts *)
(* ===================================================================== *)





Section AccessRecord.
Variable l0 : list Access.





End AccessRecord.










(* ===================================================================== *)
(** ** Well-formed page tables *)
(* ===================================================================== *)

(** No word of frame [f] has the present bit set. *)
Definition clean_frame (pm : gmap Z Z) (f : Z) : Prop :=
  forall k, 0 <= k < 1024 -> entry_at pm (f + 4 * k) mod 2 = 0.

(** The first-level entry number [i] and, under it, the second-level entry
    number [j]. *)
Definition L1 (pm : gmap Z Z) (root i : Z) : Z := entry_at pm (root + 4 * i).
Definition L2 (pm : gmap Z Z) (root i j : Z) : Z :=
  entry_at pm (frame_of (L1 pm root i) + 4 * j).

(** The page table at [root] and the free frames [free] are well formed:
    the free frames are distinct frames without present entries, no table
    and no page is free, the second-level tables are not the root, and no
    page is a table. *)
Record well_formed (root : Z) (pm : gmap Z Z) (free : list Z) : Prop := {
  wf_root : frame root;
  wf_root_free : ~ In root free;
  wf_free : forall f, In f free -> frame f;
  wf_nodup : List.NoDup free;
  wf_clean : forall f, In f free -> clean_frame pm f;
  wf_tables : forall i, 0 <= i < 1024 -> L1 pm root i mod 2 = 1 ->
    frame_of (L1 pm root i) <> root /\ ~ In (frame_of (L1 pm root i)) free;
  wf_pages : forall i j, 0 <= i < 1024 -> 0 <= j < 1024 ->
    L1 pm root i mod 2 = 1 -> L2 pm root i j mod 2 = 1 ->
    frame_of (L2 pm root i j) <> root
    /\ ~ In (frame_of (L2 pm root i j)) free
    /\ forall i', 0 <= i' < 1024 -> L1 pm root i' mod 2 = 1 ->
         frame_of (L2 pm root i j) <> frame_of (L1 pm root i')
}.

Lemma L1_range pm root i : 0 <= L1 pm root i < 4294967296.
Proof. apply entry_at_range. Qed.

Lemma L2_range pm root i j : 0 <= L2 pm root i j < 4294967296.
Proof. apply entry_at_range. Qed.

Lemma frame_of_L1 pm root i : frame (frame_of (L1 pm root i)).
Proof. apply frame_of_frame, L1_range. Qed.

Lemma frame_of_L2 pm root i j : frame (frame_of (L2 pm root i j)).
Proof. apply frame_of_frame, L2_range. Qed.

(** A byte of one frame is not a byte of an entry of another frame. *)
Lemma frames_disjoint F D k pa :
  frame F -> frame D -> F <> D -> 0 <= k < 1024 -> D <= pa < D + 4096 ->
  pa < F + 4 * k \/ F + 4 * k + 3 < pa.
Proof.
  intros [_ HF] [_ HD] Hne Hk Hpa.
  pose proof (Z.div_mod F 4096 ltac:(lia)). pose proof (Z.div_mod D 4096 ltac:(lia)).
  lia.
Qed.

Lemma slots_differ F F' k k' :
  frame F -> frame F' -> 0 <= k < 1024 -> 0 <= k' < 1024 ->
  F <> F' \/ k <> k' -> F + 4 * k <> F' + 4 * k'.
Proof.
  intros [_ HF] [_ HF'] Hk Hk' Hne.
  pose proof (Z.div_mod F 4096 ltac:(lia)). pose proof (Z.div_mod F' 4096 ltac:(lia)).
  lia.
Qed.

(** The entry [AllocateAndMapPage] builds from a frame. *)
Lemma flags_entry d :
  frame d ->
  0 <= d + 3 < 4294967296 /\ frame_of (d + 3) = d
  /\ (d + 3) mod 2 = 1 /\ ((d + 3) / 2) mod 2 = 1.
Proof.
  intros [Hr Hm]. unfold frame_of.
  pose proof (Z.div_mod d 4096 ltac:(lia)) as Hd. rewrite Hm in Hd.
  assert (d / 4096 < 1048576) by (apply Z.div_lt_upper_bound; lia).
  assert (E : (d + 3) / 4096 = d / 4096).
  { replace (d + 3) with (3 + (d / 4096) * 4096) by lia.
    rewrite Z.div_add by lia. reflexivity. }
  rewrite E. repeat split; try lia.
  - replace (d + 3) with (1 + (2048 * (d / 4096) + 1) * 2) by lia.
    rewrite Z.mod_add by lia. reflexivity.
  - replace (d + 3) with (1 + (2048 * (d / 4096) + 1) * 2) by lia.
    rewrite Z.div_add by lia. change (1 / 2) with 0.
    replace (0 + (2048 * (d / 4096) + 1)) with (1 + (1024 * (d / 4096)) * 2) by lia.
    rewrite Z.mod_add by lia. reflexivity.
Qed.

Lemma walk_L pm root va :
  frame root -> u32 va ->
  l1_slot root va = root + 4 * (va / 4194304)
  /\ entry_at pm (l1_slot root va) = L1 pm root (va / 4194304)
  /\ entry_at pm (l2_slot (entry_at pm (l1_slot root va)) va)
     = L2 pm root (va / 4194304) ((va / 4096) mod 1024).
Proof. intros _ _. unfold l1_slot, l2_slot, L1, L2. auto. Qed.

(** Two memories with the same page table at [root]. *)
Definition same_tables (root : Z) (pm pm' : gmap Z Z) : Prop :=
  (forall i, 0 <= i < 1024 -> L1 pm' root i = L1 pm root i)
  /\ (forall i j, 0 <= i < 1024 -> 0 <= j < 1024 -> L1 pm root i mod 2 = 1 ->
        L2 pm' root i j = L2 pm root i j).

Lemma same_tables_walk root pm pm' va :
  frame root -> u32 va -> same_tables root pm pm' ->
  walk pm' root va = walk pm root va.
Proof.
  intros Hr Hv [H1 H2].
  rewrite (walk_arith pm root va Hr Hv), (walk_arith pm' root va Hr Hv). cbv zeta.
  destruct (walk_L pm root va Hr Hv) as (_ & -> & ->).
  destruct (walk_L pm' root va Hr Hv) as (_ & -> & ->).
  pose proof (l1_index_range va Hv) as Hi.
  pose proof (l2_index_range va) as Hj.
  rewrite (H1 _ Hi).
  destruct (L1 pm root (va / 4194304) mod 2 =? 0) eqn:E; [reflexivity|].
  apply Z.eqb_neq in E.
  pose proof (Z.mod_pos_bound (L1 pm root (va / 4194304)) 2 ltac:(lia)).
  rewrite (H2 _ _ Hi Hj) by lia. reflexivity.
Qed.

Lemma same_tables_wf root pm pm' free :
  well_formed root pm free -> same_tables root pm pm' ->
  (forall f, In f free -> clean_frame pm' f) ->
  well_formed root pm' free.
Proof.
  intros [Hr Hrf Hf Hn Hc Ht Hp] [H1 H2] Hc'. constructor; auto.
  - intros i Hi. rewrite (H1 i Hi). auto.
  - intros i j Hi Hj. rewrite (H1 i Hi). intros P1.
    rewrite (H2 i j Hi Hj P1). intros P2.
    destruct (Hp i j Hi Hj P1 P2) as (A & B & C). repeat split; auto.
    intros i' Hi'. rewrite (H1 i' Hi'). auto.
Qed.

(** A byte written through the page table lands in a page, which is no
    table and no free frame: tables and free frames stay as they are. *)
Lemma write_byte_same_tables root pm free va pa w b :
  well_formed root pm free -> u32 va ->
  walk pm root va = Mapped pa w ->
  same_tables root pm (<[pa := b]> pm)
  /\ (forall f, In f free -> clean_frame (<[pa := b]> pm) f).
Proof.
  intros Hwf Hv Hw. pose proof Hwf as [Hr Hrf Hf Hn Hc Ht Hp].
  apply (walk_Mapped pm root va pa w Hr Hv) in Hw. cbv zeta in Hw.
  destruct (walk_L pm root va Hr Hv) as (_ & E1 & E2). rewrite E2, E1 in Hw.
  destruct Hw as (P1 & P2 & -> & _).
  pose proof (l1_index_range va Hv) as Hi.
  pose proof (l2_index_range va) as Hj.
  set (i := va / 4194304) in *. set (j := (va / 4096) mod 1024) in *.
  destruct (Hp i j Hi Hj P1 P2) as (Dr & Df & Dt).
  pose proof (frame_of_L2 pm root i j) as HD.
  set (d := frame_of (L2 pm root i j)) in *.
  assert (Hpa : d <= d + va mod 4096 < d + 4096).
  { pose proof (Z.mod_pos_bound va 4096 ltac:(lia)). lia. }
  assert (Hsame : forall F k, frame F -> F <> d -> 0 <= k < 1024 ->
            entry_at (<[d + va mod 4096 := b]> pm) (F + 4 * k)
            = entry_at pm (F + 4 * k)).
  { intros F k HF Hne Hk. apply entry_at_insert_other.
    - apply frame_slot; assumption.
    - pose proof (frames_disjoint F d k _ HF HD Hne Hk Hpa). lia. }
  assert (H1 : forall i', 0 <= i' < 1024 ->
            L1 (<[d + va mod 4096 := b]> pm) root i' = L1 pm root i').
  { intros i' Hi'. unfold L1. apply Hsame; auto. }
  split; [split|].
  - exact H1.
  - intros i' j' Hi' Hj' P. unfold L2. rewrite (H1 i' Hi').
    apply Hsame; auto using frame_of_L1.
    intros E. apply (Dt i' Hi' P). auto.
  - intros f Hin k Hk. rewrite Hsame; auto.
    + apply Hc; assumption.
    + intros ->. contradiction.
Qed.

(** A byte-range write in virtual mode over a well-formed table: the table
    stays well formed and translates as before; [j] bytes are written, all
    on pages mapped writable, and the operation stops before the end
    exactly at a byte that is unmapped or read-only. *)
Lemma write_seq_wf root c free data : forall pm va pm' va' e,
  vm_enable c = true -> page_table_base c = root ->
  well_formed root pm free -> u32 va ->
  write_seq c pm va data = (pm', va', e) ->
  well_formed root pm' free
  /\ (forall x, u32 x -> walk pm' root x = walk pm root x)
  /\ exists j : nat,
       (j <= length data)%nat /\ va' = wrap32 (va + Z.of_nat j)
       /\ (forall i, (i < j)%nat ->
             exists pa, walk pm root (wrap32 (va + Z.of_nat i)) = Mapped pa true)
       /\ match e with
          | None => j = length data
          | Some PageFaultException =>
              (j < length data)%nat /\ walk pm root va' = Unmapped
          | Some WritePermissionFaultException =>
              (j < length data)%nat /\ exists pa, walk pm root va' = Mapped pa false
          end.
Proof.
  induction data as [|b data IH]; intros pm va pm' va' e Hvm Hb Hwf Hv H; simpl in H.
  - injection H as <- <- <-. split; [exact Hwf|]. split; [auto|]. exists 0%nat.
    rewrite Z.add_0_r, wrap32_small by exact Hv. repeat split; auto; intros; lia.
  - unfold translate in H. rewrite Hvm, Hb in H.
    destruct (walk pm root va) as [|pa w] eqn:EW.
    + injection H as <- <- <-. split; [exact Hwf|]. split; [auto|]. exists 0%nat.
      rewrite Z.add_0_r, wrap32_small by exact Hv. simpl.
      repeat split; auto; try lia; intros; lia.
    + destruct w.
      * destruct (write_byte_same_tables root pm free va pa true b Hwf Hv EW)
          as [Hst Hcl].
        pose proof (same_tables_wf root pm _ free Hwf Hst Hcl) as Hwf1.
        assert (Hw1 : forall x, u32 x -> walk (<[pa := b]> pm) root x = walk pm root x).
        { intros x Hx. apply same_tables_walk; auto. apply Hwf. }
        apply IH in H; auto; [|apply wrap32_range].
        destruct H as (Hwf' & Hw' & j & Hj & -> & Hpre & He).
        split; [exact Hwf'|]. split.
        { intros x Hx. rewrite Hw', Hw1; auto. }
        exists (S j). simpl length. rewrite wrap32_succ.
        replace (Z.of_nat (S j)) with (1 + Z.of_nat j) by lia.
        repeat split; auto; try lia.
        -- intros [|i] Hi.
           ++ simpl. rewrite Z.add_0_r, wrap32_small by exact Hv. eauto.
           ++ destruct (Hpre i ltac:(lia)) as [pa' Hpa'].
              rewrite wrap32_succ, Hw1 in Hpa' by apply wrap32_range.
              replace (Z.of_nat (S i)) with (1 + Z.of_nat i) by lia. eauto.
        -- rewrite wrap32_succ in He.
           destruct e as [[]|].
           ++ destruct He as [? He]. rewrite Hw1 in He by apply wrap32_range.
              split; [lia|exact He].
           ++ destruct He as [? [pa' He]]. rewrite Hw1 in He by apply wrap32_range.
              split; [lia|eauto].
           ++ lia.
      * injection H as <- <- <-. split; [exact Hwf|]. split; [auto|]. exists 0%nat.
        rewrite Z.add_0_r, wrap32_small by exact Hv. simpl.
        repeat split; auto; try lia; eauto; intros; lia.
Qed.

Lemma entry_store_same pm F k e :
  frame F -> 0 <= k < 1024 -> 0 <= e < 4294967296 ->
  entry_at (store_entry pm (F + 4 * k) e) (F + 4 * k) = e.
Proof. intros HF Hk He. apply entry_at_store_same; auto using frame_slot. Qed.

Lemma entry_store_other pm F k e F' k' :
  frame F -> frame F' -> 0 <= k < 1024 -> 0 <= k' < 1024 ->
  F <> F' \/ k <> k' ->
  entry_at (store_entry pm (F + 4 * k) e) (F' + 4 * k') = entry_at pm (F' + 4 * k').
Proof.
  intros HF HF' Hk Hk' Hne.
  apply entry_at_store_other; auto using frame_slot, slots_differ.
Qed.

Lemma not_in_cons {A : Type} (x a : A) l : ~ In x (a :: l) -> x <> a /\ ~ In x l.
Proof. simpl. intuition. Qed.

Lemma walk_mapped_entries pm root x :
  frame root -> u32 x -> walk pm root x <> Unmapped ->
  L1 pm root (x / 4194304) mod 2 = 1
  /\ L2 pm root (x / 4194304) ((x / 4096) mod 1024) mod 2 = 1.
Proof.
  intros Hr Hx Hw.
  destruct (walk pm root x) as [|pa w] eqn:E; [contradiction|].
  apply (walk_Mapped pm root x pa w Hr Hx) in E. cbv zeta in E.
  destruct (walk_L pm root x Hr Hx) as (_ & E1 & E2). rewrite E2, E1 in E.
  tauto.
Qed.

(** The second-level entry of a page installed under a present first-level
    entry. *)
Lemma install_page root pm d free i j :
  well_formed root pm (d :: free) ->
  0 <= i < 1024 -> 0 <= j < 1024 ->
  L1 pm root i mod 2 = 1 -> L2 pm root i j mod 2 = 0 ->
  let pm' := store_entry pm (frame_of (L1 pm root i) + 4 * j) (d + 3) in
  well_formed root pm' free
  /\ (forall x, u32 x -> walk pm root x <> Unmapped ->
        walk pm' root x = walk pm root x)
  /\ (forall x, u32 x -> x / 4194304 = i -> (x / 4096) mod 1024 = j ->
        walk pm' root x = Mapped (d + x mod 4096) true).
Proof.
  intros [Hr Hrf Hf Hn Hc Ht Hp] Hi Hj P1 P2 pm'.
  pose proof (frame_of_L1 pm root i) as HT. set (t := frame_of (L1 pm root i)) in *.
  destruct (Ht i Hi P1) as [Htr Htf]. fold t in Htr, Htf.
  assert (Hd : frame d) by (apply Hf; left; reflexivity).
  destruct (flags_entry d Hd) as (Er & Ef & Ep & Ew).
  apply not_in_cons in Hrf as [Hrd Hrf]. apply not_in_cons in Htf as [Htd Htf].
  inversion Hn as [|? ? Hdf Hn']; subst.
  assert (H1 : forall i', 0 <= i' < 1024 -> L1 pm' root i' = L1 pm root i').
  { intros i' Hi'. unfold L1, pm'. apply entry_store_other; auto. }
  assert (H2 : forall i' j', 0 <= i' < 1024 -> 0 <= j' < 1024 ->
            (frame_of (L1 pm root i') = t /\ j' = j /\ L2 pm' root i' j' = d + 3)
            \/ ((frame_of (L1 pm root i') <> t \/ j' <> j)
                /\ L2 pm' root i' j' = L2 pm root i' j')).
  { intros i' j' Hi' Hj'. unfold L2. rewrite (H1 i' Hi').
    destruct (Z.eq_dec (frame_of (L1 pm root i')) t) as [E|E];
      [destruct (Z.eq_dec j' j) as [E'|E']|].
    - left. rewrite E, E'. unfold pm'. rewrite entry_store_same; auto.
    - right. split; [auto|]. unfold pm'.
      apply entry_store_other; auto using frame_of_L1.
    - right. split; [auto|]. unfold pm'.
      apply entry_store_other; auto using frame_of_L1. }
  split; [constructor; auto|split].
  - intros f Hin. apply Hf. right. exact Hin.
  - intros f Hin k Hk. unfold pm'. rewrite entry_store_other; auto.
    + apply Hc; [right; exact Hin|exact Hk].
    + apply Hf. right. exact Hin.
    + left. intros ->. contradiction.
  - intros i' Hi'. rewrite (H1 i' Hi'). intros P.
    destruct (Ht i' Hi' P) as [A B]. apply not_in_cons in B as [_ B]. auto.
  - intros i' j' Hi' Hj'. rewrite (H1 i' Hi'). intros P.
    destruct (H2 i' j' Hi' Hj') as [(_ & _ & ->)|(_ & ->)].
    + intros _. rewrite Ef. repeat split; auto.
      intros i'' Hi''. rewrite (H1 i'' Hi''). intros P''.
      destruct (Ht i'' Hi'' P'') as [_ B]. apply not_in_cons in B as [B _]. auto.
    + intros P'. destruct (Hp i' j' Hi' Hj' P P') as (A & B & C).
      apply not_in_cons in B as [_ B]. repeat split; auto.
      intros i'' Hi''. rewrite (H1 i'' Hi''). auto.
  - intros x Hx Hw.
    destruct (walk_mapped_entries pm root x Hr Hx Hw) as [Q1 Q2].
    pose proof (l1_index_range x Hx) as Hix. pose proof (l2_index_range x) as Hjx.
    rewrite (walk_arith pm root x Hr Hx), (walk_arith pm' root x Hr Hx). cbv zeta.
    destruct (walk_L pm root x Hr Hx) as (_ & -> & ->).
    destruct (walk_L pm' root x Hr Hx) as (_ & -> & ->).
    rewrite (H1 _ Hix).
    destruct (H2 _ _ Hix Hjx) as [(E & E' & _)|(_ & ->)]; [|reflexivity].
    exfalso. unfold L2 in Q2, P2. rewrite E, E' in Q2. fold t in P2. lia.
  - intros x Hx Ei Ej.
    apply (walk_Mapped pm' root x _ _ Hr Hx). cbv zeta.
    destruct (walk_L pm' root x Hr Hx) as (_ & E1 & E2). rewrite E2, E1, Ei, Ej.
    rewrite (H1 i Hi).
    destruct (H2 i j Hi Hj) as [(_ & _ & ->)|([E|E] & _)]; [|contradiction..].
    rewrite Ef, Ep, Ew. auto.
Qed.

(** A fresh second-level table installed in an absent first-level entry. *)
Lemma install_table root pm T free i :
  well_formed root pm (T :: free) ->
  0 <= i < 1024 -> L1 pm root i mod 2 = 0 ->
  let pm' := store_entry pm (root + 4 * i) (T + 3) in
  well_formed root pm' free
  /\ (forall x, u32 x -> walk pm root x <> Unmapped ->
        walk pm' root x = walk pm root x)
  /\ L1 pm' root i = T + 3
  /\ (forall j, 0 <= j < 1024 -> L2 pm' root i j mod 2 = 0).
Proof.
  intros [Hr Hrf Hf Hn Hc Ht Hp] Hi P1 pm'.
  assert (HT : frame T) by (apply Hf; left; reflexivity).
  destruct (flags_entry T HT) as (Er & Ef & Ep & Ew).
  apply not_in_cons in Hrf as [HrT Hrf].
  inversion Hn as [|? ? HTf Hn']; subst.
  assert (H1 : forall i', 0 <= i' < 1024 -> i' <> i -> L1 pm' root i' = L1 pm root i').
  { intros i' Hi' Hne. unfold L1, pm'. apply entry_store_other; auto. }
  assert (H1i : L1 pm' root i = T + 3).
  { unfold L1, pm'. apply entry_store_same; auto. }
  assert (Hother : forall F k, frame F -> F <> root -> 0 <= k < 1024 ->
            entry_at pm' (F + 4 * k) = entry_at pm (F + 4 * k)).
  { intros F k HF Hne Hk. unfold pm'. apply entry_store_other; auto. }
  assert (H2i : forall j, 0 <= j < 1024 -> L2 pm' root i j mod 2 = 0).
  { intros j Hj. unfold L2. rewrite H1i, Ef, Hother; auto.
    apply Hc; [left; reflexivity|exact Hj]. }
  assert (H2 : forall i' j', 0 <= i' < 1024 -> 0 <= j' < 1024 -> i' <> i ->
            L1 pm root i' mod 2 = 1 -> L2 pm' root i' j' = L2 pm root i' j').
  { intros i' j' Hi' Hj' Hne P. unfold L2. rewrite (H1 i' Hi' Hne).
    apply Hother; auto using frame_of_L1. apply (Ht i' Hi' P). }
  split; [constructor; auto|split; [|split; [exact H1i|exact H2i]]].
  - intros f Hin. apply Hf. right. exact Hin.
  - intros f Hin k Hk. rewrite Hother; auto.
    + apply Hc; [right; exact Hin|exact Hk].
    + apply Hf. right. exact Hin.
    + intros ->. contradiction.
  - intros i' Hi'. destruct (Z.eq_dec i' i) as [->|Hne].
    + rewrite H1i, Ef. intros _. auto.
    + rewrite (H1 i' Hi' Hne). intros P.
      destruct (Ht i' Hi' P) as [A B]. apply not_in_cons in B as [_ B]. auto.
  - intros i' j' Hi' Hj'. destruct (Z.eq_dec i' i) as [->|Hne].
    + intros _ P. rewrite (H2i j' Hj') in P. discriminate P.
    + rewrite (H1 i' Hi' Hne). intros P. rewrite (H2 i' j' Hi' Hj' Hne P). intros P'.
      destruct (Hp i' j' Hi' Hj' P P') as (A & B & C).
      apply not_in_cons in B as [BT B]. repeat split; auto.
      intros i'' Hi''. destruct (Z.eq_dec i'' i) as [->|Hne''].
      * rewrite H1i, Ef. intros _. exact BT.
      * rewrite (H1 i'' Hi'' Hne''). auto.
  - intros x Hx Hw.
    destruct (walk_mapped_entries pm root x Hr Hx Hw) as [Q1 Q2].
    pose proof (l1_index_range x Hx) as Hix. pose proof (l2_index_range x) as Hjx.
    assert (Hne : x / 4194304 <> i) by (intros E; rewrite E in Q1; lia).
    rewrite (walk_arith pm root x Hr Hx), (walk_arith pm' root x Hr Hx). cbv zeta.
    destruct (walk_L pm root x Hr Hx) as (_ & -> & ->).
    destruct (walk_L pm' root x Hr Hx) as (_ & -> & ->).
    rewrite (H1 _ Hix Hne), (H2 _ _ Hix Hjx Hne Q1). reflexivity.
Qed.

(** Memory and allocator after a successful [AllocateAndMapPage] of an
    unmapped page over a well-formed table, run with paging disabled: the
    table is well formed, what was mapped is mapped as before, and the page
    is mapped writable. *)
Definition page_installed (root vaddr : Z) (pm : gmap Z Z) (free : list Z)
    (pm' : gmap Z Z) (free' : list Z) : Prop :=
  well_formed root pm' free'
  /\ (forall x, u32 x -> walk pm root x <> Unmapped ->
        walk pm' root x = walk pm root x)
  /\ (forall x, u32 x -> x / 4096 = vaddr / 4096 ->
        exists pa, walk pm' root x = Mapped pa true).

Lemma same_page_indices x vaddr :
  x / 4096 = vaddr / 4096 ->
  x / 4194304 = vaddr / 4194304 /\ (x / 4096) mod 1024 = (vaddr / 4096) mod 1024.
Proof.
  intros H. rewrite H. split; [|reflexivity].
  replace 4194304 with (4096 * 1024) by lia. rewrite <- !Z.div_div by lia.
  rewrite H. reflexivity.
Qed.

Lemma land_present e : Z.land e kPTE_PresentMask = e mod 2.
Proof. apply land_1. Qed.

Lemma AllocateAndMapPage_wf root s vaddr :
  vm_enable (pmcb (memory s)) = false ->
  page_table_base (vmem_pmcb s) = root ->
  well_formed root (pmem (memory s)) (allocator s) ->
  u32 vaddr -> walk (pmem (memory s)) root vaddr = Unmapped ->
  match AllocateAndMapPage s vaddr with
  | Done _ s' =>
      page_installed root vaddr (pmem (memory s)) (allocator s)
        (pmem (memory s')) (allocator s')
  | Stop f _ => f = Allocator_exhausted
  | Timeout => False
  end.
Proof.
  intros Hvm Hb Hwf Hv Hw. pose proof Hwf as [Hr _ _ _ _ _ _].
  pose proof (l1_index_range vaddr Hv) as Hi.
  pose proof (l2_index_range vaddr) as Hj.
  set (i := vaddr / 4194304) in *. set (j := (vaddr / 4096) mod 1024) in *.
  apply (walk_Unmapped _ root vaddr Hr Hv) in Hw. cbv zeta in Hw.
  destruct (walk_L (pmem (memory s)) root vaddr Hr Hv) as (_ & E1 & E2).
  rewrite E2, E1 in Hw. fold i j in Hw.
  unfold AllocateAndMapPage.
  rewrite Hb, shiftr_l1, shiftr_l2, land_index.
  unfold sizeof_PageTableEntry.
  fold (l1_slot root vaddr). rewrite (aligned4_wrap _ (l1_slot_aligned _ _ Hr Hv)).
  destruct (get_entry_physical s _ Hvm (l1_slot_aligned _ _ Hr Hv))
    as (c1 & -> & Hc1 & _).
  rewrite E1. fold i j. unfold bind; cbv beta iota. rewrite land_present.
  pose proof (Z.mod_pos_bound (L1 (pmem (memory s)) root i) 2 ltac:(lia)) as Hb1.
  destruct (L1 (pmem (memory s)) root i mod 2 =? 0) eqn:EP.
  - (* no second-level table yet *)
    apply Z.eqb_eq in EP. unfold Allocate1. simpl allocator.
    destruct (allocator s) as [|T free1] eqn:EA; [reflexivity|].
    unfold bind; cbv beta iota.
    assert (HT : frame T) by (apply (wf_free _ _ _ Hwf); left; reflexivity).
    destruct (flags_entry T HT) as (Er & Ef & Ep & Ew).
    rewrite (lor_flags T (proj2 HT)).
    match goal with |- context [put_entry ?t _ ?e] =>
      destruct (put_entry_physical t (l1_slot root vaddr) e Hc1
                  (l1_slot_aligned _ _ Hr Hv)) as (c2 & -> & Hc2 & _) end.
    simpl pmem. unfold bind; cbv beta iota.
    destruct (install_table root (pmem (memory s)) T free1 i Hwf Hi EP)
      as (Hwf1 & Hw1 & HL1 & HL2).
    fold (l1_slot root vaddr) in Hwf1, Hw1, HL1, HL2.
    change (root + 4 * i) with (l1_slot root vaddr) in *.
    set (pm1 := store_entry (pmem (memory s)) (l1_slot root vaddr) (T + 3)) in *.
    rewrite (land_frame (T + 3) Er). fold (frame_of (T + 3)). rewrite Ef.
    assert (Ha2 : aligned4 (T + 4 * j)) by (apply frame_slot; assumption).
    rewrite (aligned4_wrap _ Ha2).
    match goal with |- context [get_entry ?t _] =>
      destruct (get_entry_physical t (T + 4 * j) Hc2 Ha2) as (c3 & -> & Hc3 & _) end.
    simpl pmem. unfold bind; cbv beta iota.
    assert (EL2 : entry_at pm1 (T + 4 * j) = L2 pm1 root i j).
    { unfold L2. rewrite HL1, Ef. reflexivity. }
    rewrite EL2, land_present, (HL2 j Hj). simpl negb. cbv iota.
    unfold Allocate1. simpl allocator.
    destruct free1 as [|d free2]; [reflexivity|].
    unfold bind; cbv beta iota.
    assert (Hd : frame d) by (apply (wf_free _ _ _ Hwf1); left; reflexivity).
    rewrite (lor_flags d (proj2 Hd)).
    match goal with |- context [put_entry ?t _ ?e] =>
      destruct (put_entry_physical t (T + 4 * j) e Hc3 Ha2) as (c4 & -> & Hc4 & _) end.
    simpl pmem. simpl allocator.
    assert (P1 : L1 pm1 root i mod 2 = 1) by (rewrite HL1; exact Ep).
    destruct (install_page root pm1 d free2 i j Hwf1 Hi Hj P1 (HL2 j Hj))
      as (Hwf2 & Hw2 & Hm2).
    rewrite HL1, Ef in Hwf2, Hw2, Hm2.
    split; [exact Hwf2|split].
    + intros x Hx Hmx. rewrite Hw2; auto. rewrite Hw1; auto.
    + intros x Hx Hp. destruct (same_page_indices x vaddr Hp) as [Ei Ej].
      eexists. apply Hm2; auto.
  - (* the second-level table exists *)
    apply Z.eqb_neq in EP. assert (P1 : L1 (pmem (memory s)) root i mod 2 = 1) by lia.
    destruct Hw as [Hw|Hw]; [lia|].
    unfold bind; cbv beta iota.
    rewrite (land_frame _ (L1_range _ _ _)).
    fold (frame_of (L1 (pmem (memory s)) root i)).
    pose proof (frame_of_L1 (pmem (memory s)) root i) as HTf.
    assert (Ha2 : aligned4 (frame_of (L1 (pmem (memory s)) root i) + 4 * j))
      by (apply frame_slot; assumption).
    rewrite (aligned4_wrap _ Ha2).
    match goal with |- context [get_entry ?t _] =>
      destruct (get_entry_physical t _ Hc1 Ha2) as (c3 & -> & Hc3 & _) end.
    simpl pmem. unfold bind; cbv beta iota.
    fold (L2 (pmem (memory s)) root i j). rewrite land_present, Hw. simpl negb. cbv iota.
    unfold Allocate1. simpl allocator.
    destruct (allocator s) as [|d free2] eqn:EA; [reflexivity|].
    unfold bind; cbv beta iota.
    assert (Hd : frame d) by (apply (wf_free _ _ _ Hwf); left; reflexivity).
    rewrite (lor_flags d (proj2 Hd)).
    match goal with |- context [put_entry ?t _ ?e] =>
      destruct (put_entry_physical t _ e Hc3 Ha2) as (c4 & -> & Hc4 & _) end.
    simpl pmem. simpl allocator.
    destruct (install_page root (pmem (memory s)) d free2 i j Hwf Hi Hj P1 Hw)
      as (Hwf2 & Hw2 & Hm2).
    split; [exact Hwf2|split; [exact Hw2|]].
    intros x Hx Hp. destruct (same_page_indices x vaddr Hp) as [Ei Ej].
    eexists. apply Hm2; auto.
Qed.

(* ===================================================================== *)
(** ** Pages touched by a request *)
(* ===================================================================== *)

(** Number of pages a request of [n] bytes at [addr] runs over. *)
Definition pages_touched (addr n : Z) : Z :=
  if n <=? 0 then 0 else (addr mod 4096 + n - 1) / 4096 + 1.

(** Which of those pages, counted from 0, byte number [j] is on. *)
Definition visit (addr j : Z) : Z := (addr mod 4096 + j) / 4096.

Lemma visit_mono addr j j' : 0 <= j <= j' -> visit addr j <= visit addr j'.
Proof. intros H. unfold visit. apply Z.div_le_mono; lia. Qed.

Lemma visit_nonneg addr j : 0 <= j -> 0 <= visit addr j.
Proof.
  intros H. unfold visit. apply Z.div_pos; [|lia].
  pose proof (Z.mod_pos_bound addr 4096 ltac:(lia)). lia.
Qed.

Lemma visit_below addr n j :
  0 <= j < n -> visit addr j + 1 <= pages_touched addr n.
Proof.
  intros H. unfold pages_touched.
  destruct (n <=? 0) eqn:E; [apply Z.leb_le in E; lia|].
  pose proof (visit_mono addr j (n - 1) ltac:(lia)) as Hm. unfold visit in *.
  replace (addr mod 4096 + n - 1) with (addr mod 4096 + (n - 1)) by lia. lia.
Qed.

Lemma wrap32_page x : 0 <= x -> wrap32 x / 4096 = (x / 4096) mod 1048576.
Proof.
  intros Hx. unfold wrap32. change 4294967296 with (4096 * 1048576).
  rewrite Z.rem_mul_r by lia.
  replace (x mod 4096 + 4096 * ((x / 4096) mod 1048576))
    with (x mod 4096 + ((x / 4096) mod 1048576) * 4096) by lia.
  rewrite Z.div_add by lia.
  rewrite (Z.div_small (x mod 4096)) by (apply Z.mod_pos_bound; lia). lia.
Qed.

Lemma visit_page addr j :
  0 <= addr -> 0 <= j ->
  wrap32 (addr + j) / 4096 = (addr / 4096 + visit addr j) mod 1048576.
Proof.
  intros Ha Hj. rewrite wrap32_page by lia. f_equal. unfold visit.
  pose proof (Z.div_mod addr 4096 ltac:(lia)) as Hd.
  replace (addr + j) with ((addr mod 4096 + j) + (addr / 4096) * 4096) by lia.
  rewrite Z.div_add by lia. lia.
Qed.

Lemma same_visit_same_page addr j j' :
  0 <= addr -> 0 <= j -> 0 <= j' -> visit addr j = visit addr j' ->
  wrap32 (addr + j) / 4096 = wrap32 (addr + j') / 4096.
Proof. intros Ha Hj Hj' H. rewrite !visit_page, H by lia. reflexivity. Qed.

Lemma walk_Unmapped_page pm root x y :
  frame root -> u32 x -> u32 y -> x / 4096 = y / 4096 ->
  walk pm root x = Unmapped -> walk pm root y = Unmapped.
Proof.
  intros Hr Hx Hy Hp Hw.
  apply (walk_Unmapped pm root x Hr Hx) in Hw.
  apply (walk_Unmapped pm root y Hr Hy). cbv zeta in *.
  destruct (same_page_slots root (entry_at pm (l1_slot root y)) y x Hp) as [E1 E2].
  rewrite E1 in Hw. rewrite <- E2. exact Hw.
Qed.

Lemma page_of_marker m :
  u32 m ->
  Z.land m kPageNumberMask = 4096 * (m / 4096)
  /\ u32 (4096 * (m / 4096))
  /\ 4096 * (m / 4096) / 4096 = m / 4096.
Proof.
  intros Hm. unfold u32 in *. rewrite land_frame by exact Hm.
  pose proof (Z.div_mod m 4096 ltac:(lia)). pose proof (Z.mod_pos_bound m 4096 ltac:(lia)).
  repeat split; try lia.
  rewrite Z.mul_comm, Z.div_mul by lia. reflexivity.
Qed.

(* ===================================================================== *)
(** ** Progress of the retry loops *)
(* ===================================================================== *)

(** Between passes of a loop writing [n] bytes at [addr]: the table is well
    formed, the saved context is the virtual one, at most [q] recoveries
    were counted since the counter was [a0], and every byte of the request
    on one of the first [q] pages it runs over is mapped. *)
Definition loop_invariant (root addr n a0 q : Z) (s : ProcessTrace) : Prop :=
  well_formed root (pmem (memory s)) (allocator s)
  /\ virtual_context root (vmem_pmcb s)
  /\ 0 <= q /\ allocated_pages s - a0 <= q <= pages_touched addr n
  /\ forall j, 0 <= j < n -> visit addr j < q ->
       walk (pmem (memory s)) root (wrap32 (addr + j)) <> Unmapped.

(** The [catch] block for a page fault at byte [j1] of the request, every
    earlier byte being mapped: it leaves the loop, or it recovers, and then
    the bytes on the page of [j1] and before are mapped. *)
Lemma on_page_fault_progress {V : Type} root addr n a0 q (v : Z -> V) s j1 :
  u32 addr ->
  virtual_context root (pmcb (memory s)) ->
  well_formed root (pmem (memory s)) (allocator s) ->
  0 <= q -> allocated_pages s - a0 <= q ->
  0 <= j1 < n ->
  next_vaddress (pmcb (memory s)) = wrap32 (addr + j1) ->
  walk (pmem (memory s)) root (wrap32 (addr + j1)) = Unmapped ->
  (forall j, 0 <= j < n -> j < j1 \/ visit addr j < q ->
     walk (pmem (memory s)) root (wrap32 (addr + j)) <> Unmapped) ->
  returns (on_page_fault s addr n v) (fun st s' =>
    match st with
    | Again x =>
        x = v (wrap32 (wrap32 (addr + j1) - addr))
        /\ allocated_pages s' = allocated_pages s + 1
        /\ loop_invariant root addr n a0 (visit addr j1 + 1) s'
    | Exit _ =>
        well_formed root (pmem (memory s')) (allocator s')
        /\ allocated_pages s' = allocated_pages s
    end).
Proof.
  intros Ha [Hvm Hb] Hwf Hq Hc Hj Hmark Hun Hmap.
  pose proof Hwf as [Hr _ _ _ _ _ _].
  unfold on_page_fault, get_PMCB. simpl. rewrite Hmark.
  destruct (negb (wrap32 (wrap32 (addr + j1) - addr) =? n)); simpl; [|auto].
  unfold recover. simpl.
  destruct (allocated_pages s =? QUOTA s) eqn:EQ; simpl; [auto|].
  rewrite Hmark.
  destruct (page_of_marker (wrap32 (addr + j1)) (wrap32_range _)) as (-> & Hpu & Hpp).
  set (page := 4096 * (wrap32 (addr + j1) / 4096)) in *.
  set (s3 := with_memory _ (set_PMCB _ pmem_pmcb)).
  assert (Hwp : walk (pmem (memory s3)) root page = Unmapped).
  { simpl. apply (walk_Unmapped_page _ root (wrap32 (addr + j1))); auto.
    apply wrap32_range. }
  pose proof (AllocateAndMapPage_wf root s3 page eq_refl Hb Hwf Hpu Hwp) as HA.
  pose proof (AllocateAndMapPage_returns s3 page) as HF.
  destruct (AllocateAndMapPage s3 page) as [[] s4|f s4|]; simpl in *; auto.
  destruct HA as (Hwf4 & Hkeep & Hnew).
  destruct HF as (_ & _ & _ & Hap & Hvp & _).
  split; [reflexivity|]. split; [lia|].
  unfold loop_invariant. simpl. rewrite Hvp, Hap. simpl.
  pose proof (visit_nonneg addr j1 ltac:(lia)).
  pose proof (visit_below addr n j1 Hj).
  assert (Hqv : q <= visit addr j1).
  { destruct (Z.lt_ge_cases (visit addr j1) q) as [Hlt|Hge]; [|lia].
    exfalso. apply (Hmap j1 Hj); auto. }
  split; [exact Hwf4|]. split; [split; [exact Hvm|exact Hb]|].
  split; [lia|]. split; [lia|].
  - intros j Hjn Hvis.
    destruct (Z.eq_dec (visit addr j) (visit addr j1)) as [E|E].
    + destruct (Hnew (wrap32 (addr + j)) (wrap32_range _)) as [pa Hpa].
      * rewrite Hpp. unfold u32 in Ha. apply same_visit_same_page; lia.
      * rewrite Hpa. discriminate.
    + assert (Hlt : j < j1).
      { destruct (Z.lt_ge_cases j j1) as [|Hge]; [assumption|].
        pose proof (visit_mono addr j1 j ltac:(lia)). lia. }
      rewrite Hkeep; [|apply wrap32_range|]; apply Hmap; auto.
Qed.

Lemma returns_conj {A : Type} (r : Result A) (P Q : A -> ProcessTrace -> Prop) :
  returns r P -> returns r Q -> returns r (fun a s => P a s /\ Q a s).
Proof. destruct r; simpl; auto. Qed.

Lemma CmdPut_body_progress root addr n a0 q buffer s w :
  u32 addr -> Z.of_nat (length buffer) = n ->
  loop_invariant root addr n a0 q s ->
  returns (CmdPut_body addr n buffer s w) (fun st s' =>
    match st with
    | Again _ =>
        allocated_pages s' = allocated_pages s + 1
        /\ exists q', loop_invariant root addr n a0 q' s'
    | Exit _ =>
        well_formed root (pmem (memory s')) (allocator s')
        /\ allocated_pages s' = allocated_pages s
    end).
Proof.
  intros Ha Hn (Hwf & Hv & Hq & Hc & Hmap).
  unfold CmdPut_body, put_bytes. simpl.
  destruct (write_seq _ _ _ _) as [[pm' va'] e] eqn:EW.
  apply (write_seq_wf root _ (allocator s)) in EW; auto; try apply Hv.
  destruct EW as (Hwf' & Hw' & j & Hj & -> & Hpre & He).
  destruct e as [[]|]; simpl.
  - destruct He as [Hlt Hun].
    assert (Hun' : walk pm' root (wrap32 (addr + Z.of_nat j)) = Unmapped)
      by (rewrite Hw' by apply wrap32_range; exact Hun).
    assert (Hmap' : forall j', 0 <= j' < n -> j' < Z.of_nat j \/ visit addr j' < q ->
              walk pm' root (wrap32 (addr + j')) <> Unmapped).
    { intros j' Hj' [Hlt'|Hvis]; rewrite Hw' by apply wrap32_range.
      - destruct (Hpre (Z.to_nat j') ltac:(lia)) as [pa Hpa].
        rewrite Z2Nat.id in Hpa by lia. rewrite Hpa. discriminate.
      - apply Hmap; auto. }
    match goal with |- returns (on_page_fault ?t _ _ _) _ =>
      pose proof (on_page_fault_progress root addr n a0 q (fun x : Z => x) t
                    (Z.of_nat j) Ha
                    (virtual_after_op root _ WRITE_OP _ _ (virtual_clear root _ Hv))
                    Hwf' Hq (proj1 Hc) ltac:(lia) eq_refl Hun' Hmap') as HP end.
    eapply returns_weaken; [exact HP|].
    intros [x|b] s'; simpl; [|auto]. intros (_ & Hap & Hinv). eauto.
  - unfold on_permission_fault, PrintAndClearException. simpl. auto.
  - auto.
Qed.

(** The [for] loop of [CmdFill] over a well-formed table. *)
Lemma fill_bytes_wf root k : forall s addr w val s' addr' w' e,
  virtual_context root (pmcb (memory s)) ->
  well_formed root (pmem (memory s)) (allocator s) ->
  u32 addr -> u32 w ->
  fill_bytes k s addr w val = (s', addr', w', e) ->
  well_formed root (pmem (memory s')) (allocator s')
  /\ (forall x, u32 x -> walk (pmem (memory s')) root x = walk (pmem (memory s)) root x)
  /\ exists j : nat,
       (j <= k)%nat
       /\ addr' = wrap32 (addr + Z.of_nat j) /\ w' = wrap32 (w + Z.of_nat j)
       /\ (forall i, (i < j)%nat ->
             walk (pmem (memory s)) root (wrap32 (addr + Z.of_nat i)) <> Unmapped)
       /\ match e with
          | None => j = k
          | Some x =>
              (j < k)%nat /\ next_vaddress (pmcb (memory s')) = addr'
              /\ (x = PageFaultException ->
                  walk (pmem (memory s)) root addr' = Unmapped)
          end.
Proof.
  induction k as [|k IH]; intros s addr w val s' addr' w' e Hv Hwf Ha Hw H; simpl in H.
  - injection H as <- <- <- <-. split; [exact Hwf|]. split; [auto|].
    exists 0%nat. rewrite !Z.add_0_r, !wrap32_small by assumption.
    repeat split; auto; intros; lia.
  - unfold put_byte, put_bytes in H.
    destruct (write_seq _ _ _ _) as [[pm1 va1] e1] eqn:EW.
    pose proof EW as EW'.
    apply (write_seq_wf root _ (allocator s)) in EW; auto; try apply Hv.
    destruct EW as (Hwf1 & Hw1 & j1 & Hj1 & -> & Hpre & He).
    simpl in EW'. unfold translate in EW'.
    destruct Hv as [Hvm Hb]. rewrite Hvm, Hb in EW'.
    destruct e1 as [x|].
    + injection H as <- <- <- <-. simpl.
      split; [exact Hwf1|]. split; [exact Hw1|].
      exists 0%nat. rewrite !Z.add_0_r, !wrap32_small by assumption.
      split; [lia|]. split; [reflexivity|]. split; [reflexivity|].
      split; [intros; lia|].
      assert (E0 : j1 = 0%nat).
      { destruct (walk (pmem (memory s)) root addr) as [|pa wr];
          [|destruct wr]; try discriminate EW';
          injection EW' as _ Hva _;
          destruct x; destruct He as [Hlt _]; simpl in Hlt; lia. }
      subst j1. rewrite Z.add_0_r, wrap32_small by exact Ha.
      split; [lia|]. split; [reflexivity|].
      intros ->. destruct (walk (pmem (memory s)) root addr) as [|pa wr];
        [reflexivity|]. destruct wr; discriminate EW'.
    + apply IH in H; simpl; auto; try apply wrap32_range; [|split; assumption].
      simpl in H. destruct H as (Hwf' & Hw' & j & Hj & -> & -> & Hpre' & He').
      split; [exact Hwf'|]. split.
      { intros x Hx. rewrite Hw', Hw1; auto. }
      exists (S j). rewrite !wrap32_succ.
      replace (Z.of_nat (S j)) with (1 + Z.of_nat j) by lia.
      split; [lia|]. split; [reflexivity|]. split; [reflexivity|]. split.
      * intros [|i] Hi.
        -- simpl. rewrite Z.add_0_r, wrap32_small by exact Ha.
           destruct (walk (pmem (memory s)) root addr) as [|pa wr];
             [discriminate EW'|discriminate].
        -- specialize (Hpre' i ltac:(lia)).
           rewrite wrap32_succ, Hw1 in Hpre' by apply wrap32_range.
           replace (Z.of_nat (S i)) with (1 + Z.of_nat i) by lia. exact Hpre'.
      * destruct e as [x|]; [|lia]. destruct He' as (Hlt & Hmk & Hx).
        rewrite wrap32_succ in Hmk, Hx.
        split; [lia|]. split; [exact Hmk|].
        intros E. specialize (Hx E). rewrite Hw1 in Hx by apply wrap32_range.
        exact Hx.
Qed.

(** What the loop variables of [CmdFill] add to the invariant: the bytes
    already written are on pages the invariant knows to be mapped. *)
Definition fill_progress (n start q : Z) (v : Z * Z) : Prop :=
  fill_invariant n start v /\ (snd v = 0 \/ visit start (snd v) < q).

Lemma CmdFill_body_progress root n val start a0 q s v :
  u32 start -> 0 <= n < 4294967296 ->
  loop_invariant root start n a0 q s -> fill_progress n start q v ->
  returns (CmdFill_body n val start s v) (fun st s' =>
    match st with
    | Again v' =>
        allocated_pages s' = allocated_pages s + 1
        /\ exists q', loop_invariant root start n a0 q' s'
                      /\ fill_progress n start q' v'
    | Exit _ =>
        well_formed root (pmem (memory s')) (allocator s')
        /\ allocated_pages s' = allocated_pages s
    end).
Proof.
  intros Hs Hn (Hwf & Hv & Hq & Hc & Hmap) [[Hw Ha] Hvis].
  destruct v as [addr w]. simpl in Hw, Ha, Hvis. unfold CmdFill_body.
  set (s1 := with_memory _ _).
  destruct (fill_bytes _ s1 addr w val) as [[[s2 addr2] w2] e] eqn:EF.
  assert (Hv1 : virtual_context root (pmcb (memory s1)))
    by (apply virtual_clear, Hv).
  pose proof EF as EF'.
  apply fill_bytes_spec in EF'; [|subst addr; apply wrap32_range|lia].
  destruct EF' as (_ & _ & Hap & Hal & Hvp & Hvm & Hb & _).
  apply (fill_bytes_wf root) in EF; auto;
    [|subst addr; apply wrap32_range|unfold u32; lia].
  simpl in EF, Hap, Hal, Hvp, Hvm, Hb.
  destruct EF as (Hwf2 & Hw2 & j & Hj & -> & -> & Hpre & He).
  assert (Hv2 : virtual_context root (pmcb (memory s2))).
  { destruct Hv as [A B]. split; congruence. }
  assert (Haddr : forall i, wrap32 (addr + i) = wrap32 (start + (w + i))).
  { intros i. subst addr. unfold wrap32. rewrite Z.add_mod_idemp_l by lia.
    f_equal. lia. }
  destruct e as [[]|].
  - destruct He as (Hlt & Hmk & Hun). specialize (Hun eq_refl).
    rewrite Haddr in Hmk, Hun.
    assert (Hun2 : walk (pmem (memory s2)) root (wrap32 (start + (w + Z.of_nat j)))
                   = Unmapped).
    { rewrite Hw2 by apply wrap32_range. exact Hun. }
    assert (Hmap2 : forall j', 0 <= j' < n ->
              j' < w + Z.of_nat j \/ visit start j' < q ->
              walk (pmem (memory s2)) root (wrap32 (start + j')) <> Unmapped).
    { intros j' Hj' Hcase. rewrite Hw2 by apply wrap32_range.
      assert (Hc3 : visit start j' < q \/ (w <= j' < w + Z.of_nat j)).
      { destruct Hcase as [Hlt'|]; [|auto].
        destruct (Z.lt_ge_cases j' w) as [Hb'|]; [|right; lia].
        left. destruct Hvis as [->|Hvis]; [lia|].
        pose proof (visit_mono start j' w ltac:(lia)). lia. }
      destruct Hc3 as [Hc3|Hc3]; [apply Hmap; auto|].
      specialize (Hpre (Z.to_nat (j' - w)) ltac:(lia)).
      rewrite Haddr, Z2Nat.id in Hpre by lia.
      replace (w + (j' - w)) with j' in Hpre by lia. exact Hpre. }
    rewrite <- Hap in Hc.
    pose proof (on_page_fault_progress root start n a0 q (fun x => (wrap32 (addr + Z.of_nat j), x))
                  s2 (w + Z.of_nat j) Hs Hv2 Hwf2 Hq (proj1 Hc) ltac:(lia)
                  Hmk Hun2 Hmap2) as HP.
    eapply returns_weaken; [exact HP|].
    intros [x|b] s'; simpl; [|rewrite Hap; auto].
    intros (-> & Hap' & Hinv). split; [lia|].
    exists (visit start (w + Z.of_nat j) + 1). split; [exact Hinv|].
    assert (Hx : wrap32 (wrap32 (start + (w + Z.of_nat j)) - start) = w + Z.of_nat j).
    { unfold wrap32. rewrite Zminus_mod_idemp_l.
      replace (start + (w + Z.of_nat j) - start) with (w + Z.of_nat j) by lia.
      apply Z.mod_small. lia. }
    unfold fill_progress, fill_invariant. simpl. rewrite Hx.
    repeat split; try lia. apply Haddr.
  - unfold on_permission_fault, PrintAndClearException. simpl.
    rewrite Hap, Hal in *. auto.
  - subst j. rewrite (wrap32_small (w + _)) by lia.
    replace (w + Z.of_nat (Z.to_nat (n - w))) with n by lia.
    rewrite Z.eqb_refl. simpl. rewrite Hap. auto.
Qed.

Lemma pages_touched_nonneg addr n : 0 <= pages_touched addr n.
Proof.
  unfold pages_touched. destruct (n <=? 0) eqn:E; [lia|].
  apply Z.leb_gt in E.
  pose proof (Z.mod_pos_bound addr 4096 ltac:(lia)).
  assert (0 <= (addr mod 4096 + n - 1) / 4096) by (apply Z.div_pos; lia). lia.
Qed.

Lemma pages_touched_mono addr n n' :
  n <= n' -> pages_touched addr n <= pages_touched addr n'.
Proof.
  intros H. unfold pages_touched.
  pose proof (Z.mod_pos_bound addr 4096 ltac:(lia)).
  destruct (n <=? 0) eqn:E; destruct (n' <=? 0) eqn:E';
    try apply Z.leb_le in E; try apply Z.leb_gt in E;
    try apply Z.leb_le in E'; try apply Z.leb_gt in E'; try lia.
  - assert (0 <= (addr mod 4096 + n' - 1) / 4096) by (apply Z.div_pos; lia). lia.
  - assert ((addr mod 4096 + n - 1) / 4096 <= (addr mod 4096 + n' - 1) / 4096)
      by (apply Z.div_le_mono; lia). lia.
Qed.

(** The result of the retry loop of a request that runs over [P] pages. *)
Definition loop_result (root a0 P : Z) (s' : ProcessTrace) : Prop :=
  well_formed root (pmem (memory s')) (allocator s')
  /\ allocated_pages s' - a0 <= P.

Section BoundedLoop.
Context {V : Type}.
Variable body : ProcessTrace -> V -> Result (Loop V).
Variables root addr n a0 : Z.
Variable K : Z -> V -> Prop.
Hypothesis body_progress : forall q s v,
  loop_invariant root addr n a0 q s -> K q v ->
  returns (body s v) (fun st s' =>
    match st with
    | Again v' =>
        allocated_pages s' = allocated_pages s + 1
        /\ exists q', loop_invariant root addr n a0 q' s' /\ K q' v'
    | Exit _ =>
        well_formed root (pmem (memory s')) (allocator s')
        /\ allocated_pages s' = allocated_pages s
    end).

(** One pass more than the request runs over pages is enough fuel. *)
Lemma bounded_loop s v q :
  loop_invariant root addr n a0 q s -> K q v -> allocated_pages s = a0 ->
  returns (while (S (Z.to_nat (pages_touched addr n))) body s v)
          (fun _ s' => loop_result root a0 (pages_touched addr n) s').
Proof.
  intros Hinv HK Ha0.
  apply (while_returns body
           (fun t x => exists q, loop_invariant root addr n a0 q t /\ K q x)
           _ (fun t _ => Z.to_nat (pages_touched addr n - (allocated_pages t - a0)))).
  - intros t x (q1 & Hi & Hk).
    eapply returns_weaken; [apply (body_progress q1 t x Hi Hk)|].
    intros [x'|b] t'.
    + intros (Hap & q' & Hi' & Hk'). split; [eauto|].
      destruct Hi' as (_ & _ & _ & Hc' & _). lia.
    + intros (Hwf & Hap). split; [exact Hwf|].
      destruct Hi as (_ & _ & _ & Hc & _). lia.
  - eauto.
  - rewrite Ha0. replace (pages_touched addr n - (a0 - a0))
      with (pages_touched addr n) by lia. lia.
Qed.
End BoundedLoop.

(** Fuel that is not used up does not matter. *)
Lemma while_agree {V : Type} (body : ProcessTrace -> V -> Result (Loop V)) f1 :
  forall f2 s v,
    while f1 body s v <> Timeout -> while f2 body s v <> Timeout ->
    while f1 body s v = while f2 body s v.
Proof.
  induction f1 as [|f1 IH]; intros f2 s v H1 H2; [contradiction H1; reflexivity|].
  destruct f2 as [|f2]; [contradiction H2; reflexivity|].
  simpl in *. destruct (body s v) as [[v'|b] s1|f s1|]; simpl in *; auto.
Qed.

Lemma returns_not_Timeout {A : Type} (r : Result A) Q : returns r Q -> r <> Timeout.
Proof. destruct r; simpl; [discriminate|discriminate|contradiction]. Qed.

Lemma leave_not_Timeout r : leave r <> Timeout -> r <> Timeout.
Proof. intros H E. apply H. rewrite E. reflexivity. Qed.

Lemma returns_leave r (Q : ProcessTrace -> Prop) :
  returns r (fun _ s => Q s) ->
  (forall s, Q s -> Q (with_memory s (set_PMCB (memory s) (vmem_pmcb s)))) ->
  returns (leave r) (fun _ s => Q s).
Proof.
  intros H HQ. unfold leave, bind. destruct r as [[] s|f s|]; simpl in *; auto.
Qed.

Lemma loop_invariant_start root addr n s :
  well_formed root (pmem (memory s)) (allocator s) ->
  virtual_context root (vmem_pmcb s) ->
  loop_invariant root addr n (allocated_pages s) 0 s.
Proof.
  intros Hwf Hv. unfold loop_invariant.
  pose proof (pages_touched_nonneg addr n).
  split; [exact Hwf|]. split; [exact Hv|].
  split; [lia|]. split; [lia|].
  intros j Hj Hvis. pose proof (visit_nonneg addr j ltac:(lia)). lia.
Qed.

(** A handler whose loop, started in [s1] with [v], is [body]: it is done
    within a pass per page and one more. *)
Lemma handler_bounded {V : Type} (body : ProcessTrace -> V -> Result (Loop V))
    root addr n (K : Z -> V -> Prop) s1 v :
  (forall q s x, loop_invariant root addr n (allocated_pages s1) q s -> K q x ->
     returns (body s x) (fun st s' =>
       match st with
       | Again v' =>
           allocated_pages s' = allocated_pages s + 1
           /\ exists q', loop_invariant root addr n (allocated_pages s1) q' s' /\ K q' v'
       | Exit _ =>
           well_formed root (pmem (memory s')) (allocator s')
           /\ allocated_pages s' = allocated_pages s
       end)) ->
  well_formed root (pmem (memory s1)) (allocator s1) ->
  virtual_context root (vmem_pmcb s1) -> K 0 v ->
  leave (while (loop_bound s1) body s1 v) <> Timeout ->
  leave (while (loop_bound s1) body s1 v)
  = leave (while (S (Z.to_nat (pages_touched addr n))) body s1 v)
  /\ returns (leave (while (loop_bound s1) body s1 v))
       (fun _ s' => loop_result root (allocated_pages s1) (pages_touched addr n) s').
Proof.
  intros Hb Hwf Hv HK Hnt.
  pose proof (bounded_loop body root addr n (allocated_pages s1) K Hb s1 v 0
                (loop_invariant_start root addr n s1 Hwf Hv) HK eq_refl) as HB.
  assert (E : while (loop_bound s1) body s1 v
              = while (S (Z.to_nat (pages_touched addr n))) body s1 v).
  { apply while_agree; [apply leave_not_Timeout, Hnt|].
    eapply returns_not_Timeout, HB. }
  rewrite E. split; [reflexivity|].
  apply (returns_leave _ (loop_result root (allocated_pages s1) (pages_touched addr n)));
    [exact HB|]. intros s Hs. exact Hs.
Qed.

Lemma CmdPut_bounded root s cmdArgs addr :
  in_virtual_mode root s ->
  well_formed root (pmem (memory s)) (allocator s) ->
  u32 addr -> nth_error cmdArgs 0 = Some addr ->
  let n := Z.of_nat (length cmdArgs) - 1 in
  CmdPut s cmdArgs
  = leave (while (S (Z.to_nat (pages_touched addr n)))
             (CmdPut_body addr n (map wrap8 (tl cmdArgs))) s 0)
  /\ returns (CmdPut s cmdArgs) (fun _ s' =>
       loop_result root (allocated_pages s) (pages_touched addr n) s').
Proof.
  intros [_ Hv] Hwf Ha E n.
  pose proof (CmdPut_effect root s cmdArgs Hv) as Ht.
  apply returns_not_Timeout in Ht. revert Ht.
  unfold CmdPut, at_, bind. rewrite E. fold n. intros Ht.
  apply (handler_bounded _ root addr n (fun _ _ => True)); auto.
  intros q t x Hi _. eapply returns_weaken.
  - apply (CmdPut_body_progress root addr n (allocated_pages s) q); auto.
    rewrite length_map. unfold n. destruct cmdArgs; [discriminate E|].
    simpl length. lia.
  - intros [x'|b] t'; [|auto]. intros (Hap & q' & Hq'). eauto.
Qed.

Lemma CmdFill_bounded root s cmdArgs addr n val :
  in_virtual_mode root s ->
  well_formed root (pmem (memory s)) (allocator s) ->
  Forall u32 cmdArgs ->
  nth_error cmdArgs 0 = Some addr -> nth_error cmdArgs 1 = Some n ->
  nth_error cmdArgs 2 = Some val ->
  CmdFill s cmdArgs
  = leave (while (S (Z.to_nat (pages_touched addr n)))
             (CmdFill_body n (wrap8 val) addr) s (addr, 0))
  /\ returns (CmdFill s cmdArgs) (fun _ s' =>
       loop_result root (allocated_pages s) (pages_touched addr n) s').
Proof.
  intros [_ Hv] Hwf Hu E0 E1 E2.
  pose proof (Forall_nth_error _ _ _ _ Hu E0) as Ha.
  pose proof (Forall_nth_error _ _ _ _ Hu E1) as Hn.
  pose proof (CmdFill_effect root s cmdArgs Hv Hu) as Ht.
  apply returns_not_Timeout in Ht. revert Ht.
  unfold CmdFill, at_, bind. rewrite E0, E1, E2. intros Ht.
  apply (handler_bounded _ root addr n (fill_progress n addr)); auto.
  - intros q t x Hi Hk.
    apply (CmdFill_body_progress root n _ addr (allocated_pages s) q); auto.
  - unfold fill_progress, fill_invariant, u32 in *. simpl.
    rewrite Z.add_0_r, wrap32_small by lia. repeat split; auto; lia.
Qed.

Lemma CmdCopy_bounded root s cmdArgs dst src n :
  in_virtual_mode root s ->
  well_formed root (pmem (memory s)) (allocator s) ->
  Forall u32 cmdArgs ->
  nth_error cmdArgs 0 = Some dst -> nth_error cmdArgs 1 = Some src ->
  nth_error cmdArgs 2 = Some n ->
  (exists s1 buffer bytes_read,
     0 <= bytes_read <= n /\ allocated_pages s1 = allocated_pages s
     /\ CmdCopy s cmdArgs
        = leave (while (S (Z.to_nat (pages_touched dst bytes_read)))
                   (CmdCopy_body dst bytes_read buffer) s1 0))
  /\ returns (CmdCopy s cmdArgs) (fun _ s' =>
       loop_result root (allocated_pages s) (pages_touched dst n) s').
Proof.
  intros Hs Hwf Hu E0 E1 E2. pose proof Hs as [Hm Hv].
  pose proof (Forall_nth_error _ _ _ _ Hu E0) as Hd.
  pose proof (Forall_nth_error _ _ _ _ Hu E1) as Hsrc.
  pose proof (Forall_nth_error _ _ _ _ Hu E2) as Hn.
  pose proof (CmdCopy_effect root s cmdArgs Hs) as Ht.
  apply returns_not_Timeout in Ht. revert Ht.
  unfold CmdCopy, at_, bind. rewrite E0, E1, E2. unfold get_bytes.
  destruct (read_seq _ _ _ _) as [[bs va] e] eqn:ER.
  apply read_seq_spec in ER; [|exact Hsrc].
  destruct ER as (-> & _ & He).
  assert (Hlen : Z.of_nat (length bs) <= n /\ (e = None \/ e = Some PageFaultException)).
  { unfold u32 in Hn. destruct He as [[-> Hl]|(-> & Hl & _)]; split; auto; lia. }
  destruct Hlen as [Hlen He'].
  assert (Hbr : wrap32 (wrap32 (src + Z.of_nat (length bs)) - src)
                = Z.of_nat (length bs)).
  { unfold wrap32. rewrite Zminus_mod_idemp_l.
    replace (src + Z.of_nat (length bs) - src) with (Z.of_nat (length bs)) by lia.
    apply Z.mod_small. unfold u32 in Hn. lia. }
  assert (Hgen : forall s1,
            pmem (memory s1) = pmem (memory s) -> allocator s1 = allocator s ->
            allocated_pages s1 = allocated_pages s ->
            virtual_context root (vmem_pmcb s1) ->
            next_vaddress (vmem_pmcb s1) = wrap32 (src + Z.of_nat (length bs)) ->
            leave (while (loop_bound s1)
                     (CmdCopy_body dst (wrap32 (next_vaddress (vmem_pmcb s1) - src)) bs)
                     s1 0) <> Timeout ->
            (exists s1' buffer bytes_read,
               0 <= bytes_read <= n /\ allocated_pages s1' = allocated_pages s
               /\ leave (while (loop_bound s1)
                     (CmdCopy_body dst (wrap32 (next_vaddress (vmem_pmcb s1) - src)) bs)
                     s1 0)
                  = leave (while (S (Z.to_nat (pages_touched dst bytes_read)))
                             (CmdCopy_body dst bytes_read buffer) s1' 0))
            /\ returns (leave (while (loop_bound s1)
                     (CmdCopy_body dst (wrap32 (next_vaddress (vmem_pmcb s1) - src)) bs)
                     s1 0))
                 (fun _ s' => loop_result root (allocated_pages s)
                                (pages_touched dst n) s')).
  { intros s1 Hpm Hal Hap Hv1 Hnv. rewrite Hnv, Hbr. intros Hnt.
    assert (Hwf1 : well_formed root (pmem (memory s1)) (allocator s1))
      by (rewrite Hpm, Hal; exact Hwf).
    destruct (handler_bounded (CmdCopy_body dst (Z.of_nat (length bs)) bs)
                root dst (Z.of_nat (length bs)) (fun _ _ => True) s1 0) as [Eq Hr];
      auto.
    - intros q t x Hi _. unfold CmdCopy_body. eapply returns_weaken.
      + apply (CmdPut_body_progress root dst _ (allocated_pages s1) q); auto.
        rewrite Nat2Z.id, firstn_all. reflexivity.
      + intros [x'|b] t'; [|auto]. intros (Hap' & q' & Hq'). eauto.
    - split.
      + exists s1, bs, (Z.of_nat (length bs)). repeat split; auto; lia.
      + eapply returns_weaken; [exact Hr|].
        intros b s' [Hw' Hc']. split; [exact Hw'|].
        pose proof (pages_touched_mono dst _ n Hlen). rewrite <- Hap. lia. }
  destruct He' as [->| ->].
  - intros Ht. apply Hgen; simpl; auto;
      unfold get_PMCB; simpl; apply virtual_after_op, Hm.
  - intros Ht. apply Hgen; simpl; auto;
      unfold get_PMCB; simpl; apply virtual_clear, virtual_after_op, Hm.
Qed.

(* ===================================================================== *)
(** ** The states the command loop reaches *)
(* ===================================================================== *)

(** The process runs in virtual mode over a well-formed page table. *)
Definition sound (root : Z) (s : ProcessTrace) : Prop :=
  in_virtual_mode root s
  /\ well_formed root (pmem (memory s)) (allocator s).

Lemma frame_entry_aligned f k : frame f -> 0 <= k < 1024 -> aligned4 (f + 4 * k).
Proof.
  intros [F0 F1] Hk. pose proof (Z.div_mod f 4096 ltac:(lia)) as H.
  rewrite F1 in H. split; [lia|].
  replace (f + 4 * k) with ((1024 * (f / 4096) + k) * 4) by lia.
  apply Z.mod_mul. lia.
Qed.

(** Changing writable bits keeps the page table well formed. *)
Lemma same_mapping_wf w root pm pm' free :
  well_formed root pm free -> same_mapping w pm pm' -> well_formed root pm' free.
Proof.
  intros [Hr Hrf Hf Hn Hc Ht Hp] Hm.
  assert (A1 : forall i, 0 <= i < 1024 ->
            frame_of (L1 pm' root i) = frame_of (L1 pm root i)
            /\ L1 pm' root i mod 2 = L1 pm root i mod 2).
  { intros i Hi. unfold L1.
    destruct (Hm (root + 4 * i) (frame_entry_aligned _ _ Hr Hi)) as (E4 & E2 & _).
    split; [apply frame_of_div4, E4|exact E2]. }
  assert (A2 : forall i j, 0 <= i < 1024 -> 0 <= j < 1024 ->
            frame_of (L2 pm' root i j) = frame_of (L2 pm root i j)
            /\ L2 pm' root i j mod 2 = L2 pm root i j mod 2).
  { intros i j Hi Hj. unfold L2. rewrite (proj1 (A1 i Hi)).
    destruct (Hm _ (frame_entry_aligned _ _ (frame_of_L1 pm root i) Hj))
      as (E4 & E2 & _).
    split; [apply frame_of_div4, E4|exact E2]. }
  constructor; auto.
  - intros f Hin k Hk.
    destruct (Hm _ (frame_entry_aligned _ _ (Hf f Hin) Hk)) as (_ & E2 & _).
    rewrite E2. apply (Hc f Hin k Hk).
  - intros i Hi. destruct (A1 i Hi) as [-> ->]. apply Ht, Hi.
  - intros i j Hi Hj. destruct (A1 i Hi) as [_ ->].
    destruct (A2 i j Hi Hj) as [-> ->]. intros P1 P2.
    destruct (Hp i j Hi Hj P1 P2) as (B1 & B2 & B3).
    split; [exact B1|]. split; [exact B2|].
    intros i' Hi'. destruct (A1 i' Hi') as [-> ->]. apply B3, Hi'.
Qed.

Lemma sound_context root s c :
  sound root s -> virtual_context root c ->
  sound root (with_memory s (set_PMCB (memory s) c)).
Proof.
  intros [[Hm Hv] Hwf] Hc. split; [split; [exact Hc|exact Hv]|exact Hwf].
Qed.

Lemma CmdQuota_sound root s cmdArgs :
  sound root s -> returns (CmdQuota s cmdArgs) (fun _ s' => sound root s').
Proof.
  intros Hs. unfold CmdQuota, at_, bind.
  destruct (nth_error cmdArgs 0); [|exact I]. exact Hs.
Qed.

Lemma compare_bytes_allocator expected : forall s addr buffer,
  allocator (compare_bytes s addr buffer expected) = allocator s.
Proof.
  induction expected as [|x expected IH]; intros s addr buffer; simpl; [reflexivity|].
  rewrite IH. destruct (negb _); reflexivity.
Qed.

Lemma CmdCompare_sound root s cmdArgs :
  sound root s -> returns (CmdCompare s cmdArgs) (fun _ s' => sound root s').
Proof.
  intros [Hv Hwf]. apply returns_conj with (P := fun _ s' => in_virtual_mode root s');
    [apply CmdCompare_virtual, Hv|].
  unfold CmdCompare, at_, bind.
  destruct (nth_error cmdArgs 0) as [addr|]; [|exact I].
  unfold get_bytes. destruct (read_seq _ _ _ _) as [[bs va] e].
  destruct e as [[]|]; simpl; auto.
  rewrite (proj1 (compare_bytes_memory _ _ _ _)), compare_bytes_allocator.
  exact Hwf.
Qed.

Lemma dump_bytes_store k : forall s i addr s' e,
  dump_bytes k s i addr = (s', e) ->
  pmem (memory s') = pmem (memory s) /\ allocator s' = allocator s.
Proof.
  induction k as [|k IH]; intros s i addr s' e; simpl.
  - intros E. injection E as <- <-. auto.
  - unfold get_byte, get_bytes.
    destruct (read_seq _ _ _ _) as [[bs va] x].
    destruct x as [x|].
    + intros E. injection E as <- <-. destruct (i mod 16 =? 0); simpl; auto.
    + intros E. apply IH in E. destruct E as [-> ->].
      destruct (i mod 16 =? 0); simpl; auto.
Qed.

Lemma CmdDump_sound root s cmdArgs :
  sound root s -> returns (CmdDump s cmdArgs) (fun _ s' => sound root s').
Proof.
  intros [Hv Hwf]. apply returns_conj with (P := fun _ s' => in_virtual_mode root s');
    [apply CmdDump_virtual, Hv|].
  unfold CmdDump, at_, bind.
  destruct (nth_error cmdArgs 0) as [addr|]; [|exact I].
  destruct (nth_error cmdArgs 1) as [count|]; [|exact I].
  destruct (dump_bytes _ _ _ _) as [s1 e] eqn:E.
  apply dump_bytes_store in E. simpl in E. destruct E as [Em Ea].
  destruct e as [[]|]; simpl; auto; rewrite Em, Ea; exact Hwf.
Qed.

Lemma CmdWritable_sound root s cmdArgs :
  sound root s -> Forall u32 cmdArgs ->
  returns (CmdWritable s cmdArgs) (fun _ s' => sound root s').
Proof.
  intros [Hv Hwf] Hu.
  apply returns_conj with (P := fun _ s' => in_virtual_mode root s');
    [apply CmdWritable_virtual, Hv|].
  unfold CmdWritable, at_, bind.
  destruct (nth_error cmdArgs 0) as [vaddr|] eqn:E0; [|exact I].
  destruct (nth_error cmdArgs 1) as [bc|]; [|exact I].
  destruct (nth_error cmdArgs 2) as [flag|]; [|exact I].
  pose proof (Forall_nth_error _ _ _ _ Hu E0) as Ha.
  set (s0 := with_memory (with_vmem_pmcb s (get_PMCB (memory s))) _).
  destruct (writable_pages_physical root (Z.to_nat (bc / kPageSize)) s0 vaddr
              (negb (flag =? 0))) as (s1 & E & Hm); auto.
  - destruct Hv as [[_ Hb] _]. exact Hb.
  - apply Hwf.
  - pose proof (writable_pages_fields (Z.to_nat (bc / kPageSize)) s0 vaddr
                  (negb (flag =? 0))) as Hf.
    rewrite E in *. simpl in *.
    destruct Hf as (_ & _ & _ & _ & Hal & _). rewrite Hm, Hal. simpl.
    eapply same_mapping_wf; [exact Hwf|].
    apply writable_pages_mem_same_mapping; [apply Hwf|exact Ha].
Qed.

(** The three writing handlers. *)
Lemma CmdPut_sound root s cmdArgs :
  sound root s -> Forall u32 cmdArgs ->
  returns (CmdPut s cmdArgs) (fun _ s' => sound root s').
Proof.
  intros [Hv Hwf] Hu.
  apply returns_conj with (P := fun _ s' => in_virtual_mode root s').
  - eapply returns_weaken; [apply (CmdPut_effect root), Hv|]. intros ? ? H; apply H.
  - destruct (nth_error cmdArgs 0) as [addr|] eqn:E0.
    + eapply returns_weaken;
        [apply (CmdPut_bounded root s cmdArgs addr Hv Hwf
                  (Forall_nth_error _ _ _ _ Hu E0) E0)|].
      intros ? ? H; apply H.
    + unfold CmdPut, at_, bind. rewrite E0. exact I.
Qed.

Lemma CmdFill_sound root s cmdArgs :
  sound root s -> Forall u32 cmdArgs ->
  returns (CmdFill s cmdArgs) (fun _ s' => sound root s').
Proof.
  intros [Hv Hwf] Hu.
  apply returns_conj with (P := fun _ s' => in_virtual_mode root s').
  - eapply returns_weaken; [apply (CmdFill_effect root); [apply Hv|exact Hu]|].
    intros ? ? H; apply H.
  - destruct (nth_error cmdArgs 0) as [addr|] eqn:E0;
      [|unfold CmdFill, at_, bind; rewrite E0; exact I].
    destruct (nth_error cmdArgs 1) as [n|] eqn:E1;
      [|unfold CmdFill, at_, bind; rewrite E0, E1; exact I].
    destruct (nth_error cmdArgs 2) as [val|] eqn:E2;
      [|unfold CmdFill, at_, bind; rewrite E0, E1, E2; exact I].
    eapply returns_weaken;
      [apply (CmdFill_bounded root s cmdArgs addr n val Hv Hwf Hu E0 E1 E2)|].
    intros ? ? H; apply H.
Qed.

Lemma CmdCopy_sound root s cmdArgs :
  sound root s -> Forall u32 cmdArgs ->
  returns (CmdCopy s cmdArgs) (fun _ s' => sound root s').
Proof.
  intros [Hv Hwf] Hu.
  apply returns_conj with (P := fun _ s' => in_virtual_mode root s').
  - eapply returns_weaken; [apply (CmdCopy_effect root), Hv|]. intros ? ? H; apply H.
  - destruct (nth_error cmdArgs 0) as [dst|] eqn:E0;
      [|unfold CmdCopy, at_, bind; rewrite E0; exact I].
    destruct (nth_error cmdArgs 1) as [src|] eqn:E1;
      [|unfold CmdCopy, at_, bind; rewrite E0, E1; exact I].
    destruct (nth_error cmdArgs 2) as [n|] eqn:E2;
      [|unfold CmdCopy, at_, bind; rewrite E0, E1, E2; exact I].
    eapply returns_weaken;
      [apply (CmdCopy_bounded root s cmdArgs dst src n Hv Hwf Hu E0 E1 E2)|].
    intros ? ? H; apply H.
Qed.

(** The arguments read from a line fit 32 bits. *)
Lemma hex_value_nonneg c d : hex_value c = Some d -> 0 <= d.
Proof.
  unfold hex_value. intros H.
  repeat match type of H with
         | (if ?b then _ else _) = _ => destruct b eqn:?
         end; try discriminate; injection H as <-; lia.
Qed.

Lemma read_hex_nonneg l : forall acc v rest,
  0 <= default 0 acc -> read_hex l acc = (Some v, rest) -> 0 <= v.
Proof.
  induction l as [|c l IH]; intros acc v rest Hacc; simpl.
  - intros E. injection E as -> _. exact Hacc.
  - destruct (hex_value c) as [d|] eqn:Ed.
    + apply IH. simpl. pose proof (hex_value_nonneg _ _ Ed). lia.
    + intros E. injection E as -> _. exact Hacc.
Qed.

Lemma read_args_u32 fuel : forall l, Forall u32 (read_args fuel l).
Proof.
  induction fuel as [|fuel IH]; intros l; simpl; [constructor|].
  destruct (read_hex (skip_space l) None) as [[v|] rest] eqn:E; [|constructor].
  destruct (v <? 4294967296) eqn:Ev; [|constructor].
  constructor; [|apply IH].
  apply read_hex_nonneg in E; [|simpl; lia]. unfold u32. lia.
Qed.

(** A line read leaves the memory alone, and hands 32-bit arguments to the
    handler. *)
Lemma ParseCommand_sound root s :
  sound root s ->
  returns (ParseCommand s) (fun p s' => sound root s' /\ Forall u32 (snd p)).
Proof.
  intros Hs. unfold ParseCommand.
  destruct (trace s) as [|line rest]; simpl; [split; [exact Hs|constructor]|].
  destruct line as [|c l]; simpl; [exact I|].
  destruct (negb (Ascii.eqb c "#")).
  - destruct (read_word _) as [cmd r]. simpl. split; [exact Hs|].
    destruct cmd; [constructor|apply read_args_u32].
  - simpl. split; [exact Hs|constructor].
Qed.

(** One round of the command loop. *)
Lemma Execute_body_sound root s i :
  sound root s -> returns (Execute_body s i) (fun _ s' => sound root s').
Proof.
  intros Hs. unfold Execute_body.
  eapply returns_bind; [apply (ParseCommand_sound root), Hs|].
  intros [[[ok line] cmd] cmdArgs] s1 [Hs1 Hu]. simpl in Hu.
  destruct ok; [|exact Hs1].
  destruct (cmd =? "quota")%string.
  { eapply returns_bind; [apply (CmdQuota_sound root), Hs1|]. intros ? ? H; exact H. }
  destruct (cmd =? "compare")%string.
  { eapply returns_bind; [apply (CmdCompare_sound root), Hs1|]. intros ? ? H; exact H. }
  destruct (cmd =? "put")%string.
  { eapply returns_bind; [apply (CmdPut_sound root); [exact Hs1|exact Hu]|].
    intros [] ? H; exact H. }
  destruct (cmd =? "fill")%string.
  { eapply returns_bind; [apply (CmdFill_sound root); [exact Hs1|exact Hu]|].
    intros [] ? H; exact H. }
  destruct (cmd =? "copy")%string.
  { eapply returns_bind; [apply (CmdCopy_sound root); [exact Hs1|exact Hu]|].
    intros [] ? H; exact H. }
  destruct (cmd =? "dump")%string.
  { eapply returns_bind; [apply (CmdDump_sound root), Hs1|]. intros ? ? H; exact H. }
  destruct (cmd =? "writable")%string.
  { eapply returns_bind; [apply (CmdWritable_sound root); [exact Hs1|exact Hu]|].
    intros ? ? H; exact H. }
  destruct (negb (cmd =? "")%string); [exact I|exact Hs1].
Qed.

Lemma rounds_sound root k : forall s i s_k,
  sound root s -> rounds k s i = Some s_k -> sound root s_k.
Proof.
  induction k as [|k IH]; intros s i s_k Hs; simpl.
  - intros E. injection E as <-. exact Hs.
  - pose proof (Execute_body_sound root s i Hs) as H.
    destruct (Execute_body s i) as [[|r] s1|f s1|]; try discriminate.
    apply (IH s1 (i + 1) s_k H).
Qed.

Lemma entry_at_empty a : entry_at ∅ a = 0.
Proof. unfold entry_at, byte_at. rewrite !lookup_empty. reflexivity. Qed.

(** The constructor leaves a sound process, when the free frames lie in the
    32-bit physical address space. *)
Lemma frames_from_In first n f :
  In f (frames_from first n) <->
  exists k, f = first + 4096 * k /\ 0 <= k < Z.of_nat n.
Proof.
  unfold frames_from. rewrite in_map_iff. split.
  - intros (k & <- & Hk). apply in_seq in Hk. exists (Z.of_nat k).
    split; [reflexivity|lia].
  - intros (k & -> & Hk). exists (Z.to_nat k). split.
    + unfold kPageSize. rewrite Z2Nat.id by lia. reflexivity.
    + apply in_seq. lia.
Qed.

Lemma frames_NoDup first n a :
  List.NoDup (map (fun k => first + kPageSize * Z.of_nat k) (seq a n)).
Proof.
  revert a. induction n as [|n IH]; intros a; simpl; constructor; [|apply IH].
  rewrite in_map_iff. intros (k & E & Hk). apply in_seq in Hk.
  unfold kPageSize in E. lia.
Qed.

Lemma boot_sound n lines quota :
  Z.of_nat n <= 1048575 ->
  returns (boot n lines quota) (fun _ s => sound 4096 s).
Proof.
  intros Hn. unfold boot, ProcessTrace_new, Allocate1, bind. simpl.
  destruct (frames_from 4096 n) as [|root rest] eqn:E; [exact I|]. simpl.
  assert (Ha : forall f, In f (root :: rest) <->
                 exists k, f = 4096 + 4096 * k /\ 0 <= k < Z.of_nat n)
    by (rewrite <- E; apply frames_from_In).
  assert (Hd : List.NoDup (root :: rest))
    by (rewrite <- E; apply frames_NoDup).
  assert (Hroot : root = 4096).
  { destruct n as [|n]; [discriminate E|]. unfold frames_from in E. simpl in E.
    injection E as <- _. reflexivity. }
  subst root. split.
  - unfold in_virtual_mode, virtual_context. simpl. auto.
  - constructor.
    + split; [lia|reflexivity].
    + inversion Hd; assumption.
    + intros f Hf. destruct (proj1 (Ha f) (or_intror Hf)) as (k & -> & Hk).
      split; [lia|].
      replace (4096 + 4096 * k) with ((1 + k) * 4096) by lia. apply Z.mod_mul. lia.
    + inversion Hd; assumption.
    + intros f _ k _. rewrite entry_at_empty. reflexivity.
    + intros i _. unfold L1. rewrite entry_at_empty. discriminate.
    + intros i j _ _. unfold L1. rewrite entry_at_empty. discriminate.
Qed.

(** From a new process on, every line is handed to its handler in a sound
    state and with 32-bit arguments: the state after [k] rounds of the loop
    of [Execute], then the line read. *)
Lemma handlers_start_sound n lines quota s0 k s_k p s_p :
  Z.of_nat n <= 1048575 ->
  boot n lines quota = Done tt s0 ->
  rounds k (with_memory s0 (set_PMCB (memory s0) (vmem_pmcb s0))) 0 = Some s_k ->
  ParseCommand s_k = Done p s_p ->
  sound 4096 s_p /\ Forall u32 (snd p).
Proof.
  intros Hn Hb Hr Hp.
  pose proof (boot_sound n lines quota Hn) as H0. rewrite Hb in H0. simpl in H0.
  assert (Hk : sound 4096 s_k).
  { eapply rounds_sound; [|exact Hr].
    apply sound_context; [exact H0|apply H0]. }
  pose proof (ParseCommand_sound 4096 s_k Hk) as H. rewrite Hp in H. exact H.
Qed.

(* ===================================================================== *)
(** ** The retry loops end *)
(* ===================================================================== *)

(** A request of no bytes: one pass, no fault, no allocation, memory
    untouched. *)
Definition completes_untouched (r : Result bool) (s : ProcessTrace)
    (issued : list Access) : Prop :=
  exists s', r = Done true s'
             /\ pmem (memory s') = pmem (memory s)
             /\ allocator s' = allocator s
             /\ allocated_pages s' = allocated_pages s
             /\ accesses s' = (issued ++ accesses s)%list.

Lemma zero_length_requests s addr other val :
  completes_untouched (CmdPut s [addr]) s [Issued addr 0]
  /\ completes_untouched (CmdFill s [addr; 0; val]) s []
  /\ completes_untouched (CmdCopy s [addr; other; 0]) s [Issued addr 0].
Proof.
  unfold completes_untouched. repeat split.
  - eexists. split; [reflexivity|]. simpl. auto.
  - eexists. split; [reflexivity|]. simpl. auto.
  - unfold CmdCopy. simpl. rewrite Z.sub_diag.
    eexists. split; [reflexivity|]. simpl. auto.
Qed.

(** C9.  In a sound state with 32-bit arguments, which is how every handler
    is started ([handlers_start_sound]), the retry loop of [put], [fill] and
    [copy] ends.  A pass that neither completes nor fails recovers one page
    fault, on a page of the request that was not mapped, and counts it: so
    there are at most as many such passes as pages the request runs over
    ([pages_touched]), the loop takes at most one pass more than that, the
    counter grows by at most that number and the table stays well formed.
    A request of no bytes completes in its one pass, with no fault and no
    allocation. *)
Theorem retry_loops_pass_once_per_page :
  forall (root : Z) (s : ProcessTrace) (cmdArgs : list Z),
    in_virtual_mode root s ->
    well_formed root (pmem (memory s)) (allocator s) ->
    Forall u32 cmdArgs ->
    (forall addr, nth_error cmdArgs 0 = Some addr ->
       let n := Z.of_nat (length cmdArgs) - 1 in
       CmdPut s cmdArgs
       = leave (while (S (Z.to_nat (pages_touched addr n)))
                  (CmdPut_body addr n (map wrap8 (tl cmdArgs))) s 0)
       /\ returns (CmdPut s cmdArgs) (fun _ s' =>
            loop_result root (allocated_pages s) (pages_touched addr n) s'))
    /\ (forall addr n val,
          nth_error cmdArgs 0 = Some addr -> nth_error cmdArgs 1 = Some n ->
          nth_error cmdArgs 2 = Some val ->
          CmdFill s cmdArgs
          = leave (while (S (Z.to_nat (pages_touched addr n)))
                     (CmdFill_body n (wrap8 val) addr) s (addr, 0))
          /\ returns (CmdFill s cmdArgs) (fun _ s' =>
               loop_result root (allocated_pages s) (pages_touched addr n) s'))
    /\ (forall dst src n,
          nth_error cmdArgs 0 = Some dst -> nth_error cmdArgs 1 = Some src ->
          nth_error cmdArgs 2 = Some n ->
          (exists s1 buffer bytes_read,
             0 <= bytes_read <= n /\ allocated_pages s1 = allocated_pages s
             /\ CmdCopy s cmdArgs
                = leave (while (S (Z.to_nat (pages_touched dst bytes_read)))
                           (CmdCopy_body dst bytes_read buffer) s1 0))
          /\ returns (CmdCopy s cmdArgs) (fun _ s' =>
               loop_result root (allocated_pages s) (pages_touched dst n) s'))
    /\ (forall addr other val,
          completes_untouched (CmdPut s [addr]) s [Issued addr 0]
          /\ completes_untouched (CmdFill s [addr; 0; val]) s []
          /\ completes_untouched (CmdCopy s [addr; other; 0]) s [Issued addr 0]).
Proof.
  intros root s cmdArgs Hs Hwf Hu.
  split; [|split; [|split]].
  - intros addr Ha.
    exact (CmdPut_bounded root s cmdArgs addr Hs Hwf
             (Forall_nth_error _ _ _ _ Hu Ha) Ha).
  - intros addr n val Ha Hn Hv.
    exact (CmdFill_bounded root s cmdArgs addr n val Hs Hwf Hu Ha Hn Hv).
  - intros dst src n Hd Hsrc Hn.
    exact (CmdCopy_bounded root s cmdArgs dst src n Hs Hwf Hu Hd Hsrc Hn).
  - intros addr other val. apply zero_length_requests.
Qed.

(** A new process over empty memory. *)
Definition new_process : ProcessTrace := state_of (boot 8 [] 5) blank.

Lemma new_process_sound : sound 4096 new_process.
Proof. exact (boot_sound 8 [] 5 ltac:(simpl; lia)). Qed.

Lemma retry_loops_pass_once_per_page_witness :
  in_virtual_mode 4096 new_process
  /\ (CmdPut new_process [4095; 2; 7]
      = leave (while 3 (CmdPut_body 4095 2 [2; 7]) new_process 0)
      /\ returns (CmdPut new_process [4095; 2; 7]) (fun _ s' =>
           loop_result 4096 (allocated_pages new_process) 2 s'))
  /\ (CmdFill new_process [4095; 2; 7]
      = leave (while 3 (CmdFill_body 2 7 4095) new_process (4095, 0))
      /\ returns (CmdFill new_process [4095; 2; 7]) (fun _ s' =>
           loop_result 4096 (allocated_pages new_process) 2 s')).
Proof.
  destruct new_process_sound as [Hv Hwf].
  assert (Hu : Forall u32 [4095; 2; 7]).
  { repeat constructor; unfold u32; lia. }
  split; [exact Hv|].
  destruct (retry_loops_pass_once_per_page 4096 new_process [4095; 2; 7]
              Hv Hwf Hu) as (Hput & Hfill & _).
  split.
  - exact (Hput 4095 eq_refl).
  - exact (Hfill 4095 2 7 eq_refl eq_refl eq_refl).
Defined.

(* ===================================================================== *)
(** ** Lines that are skipped, keywords that are not known *)
(* ===================================================================== *)

(** The process after a line was read and echoed. *)
Definition echoed (s : ProcessTrace) (line : string) (rest : list string)
  : ProcessTrace :=
  print (with_line_number (with_trace s rest) (line_number s + 1))
        (OutEcho (line_number s + 1) (id_number s) line).

(** The line consists of white space only. *)
Fixpoint all_space (l : string) : bool :=
  match l with
  | EmptyString => true
  | String c l' => isspace c && all_space l'
  end.

Lemma skip_space_all l : all_space l = true -> skip_space l = "".
Proof.
  induction l as [|c l IH]; simpl; [reflexivity|].
  intros H. apply andb_true_iff in H as [Hc Hl]. rewrite Hc. exact (IH Hl).
Qed.

Lemma space_is_no_comment c : isspace c = true -> Ascii.eqb c "#" = false.
Proof.
  intros H. destruct (Ascii.eqb_spec c "#") as [->|]; [discriminate H|reflexivity].
Qed.

(** The keywords [Execute] dispatches on. *)
Definition keywords : list string :=
  ["quota"; "compare"; "put"; "fill"; "copy"; "dump"; "writable"].

Lemma not_keyword cmd :
  ~ In cmd keywords ->
  (cmd =? "quota")%string = false /\ (cmd =? "compare")%string = false
  /\ (cmd =? "put")%string = false /\ (cmd =? "fill")%string = false
  /\ (cmd =? "copy")%string = false /\ (cmd =? "dump")%string = false
  /\ (cmd =? "writable")%string = false.
Proof.
  intros H. repeat split; apply String.eqb_neq; intros ->; apply H; simpl; auto 10.
Qed.

(** X1.  A comment line, whatever follows its [#], and a line of white
    space only are skipped: the round echoes the line, counts it, goes on to
    the next line and changes nothing else, whatever the state. *)
Theorem skipped_lines_only_echo :
  forall (s : ProcessTrace) (line : string) (rest : list string) (i : Z),
    (exists l, line = String "#" l) \/ (line <> "" /\ all_space line = true) ->
    Execute_body (with_trace s (line :: rest)) i = Done Continue (echoed s line rest).
Proof.
  intros s line rest i [[l ->]|[Hne Hsp]].
  - reflexivity.
  - destruct line as [|c l]; [contradiction|].
    pose proof (skip_space_all _ Hsp) as E.
    simpl in Hsp. apply andb_true_iff in Hsp as [Hc _].
    unfold Execute_body, ParseCommand. simpl trace. cbv iota.
    rewrite (space_is_no_comment c Hc). simpl negb. cbv iota.
    rewrite E. reflexivity.
Qed.

Lemma skipped_lines_only_echo_witness :
  Execute_body (with_trace blank ("   " :: ["put 0 1"])) 0
  = Done Continue (echoed blank "   " ["put 0 1"]).
Proof.
  apply skipped_lines_only_echo. right. split; [discriminate|reflexivity].
Defined.

(** X2.  A line that is no comment and whose first word is none of the
    seven keywords ends the program through [exit(2)], after the echo and
    before any handler runs, whatever follows the word. *)
Theorem unknown_keyword_exits :
  forall (s : ProcessTrace) (c : ascii) (l : string) (rest : list string) (i : Z),
    c <> "#"%char ->
    fst (read_word (skip_space (String c l))) <> "" ->
    ~ In (fst (read_word (skip_space (String c l)))) keywords ->
    Execute_body (with_trace s (String c l :: rest)) i
    = Stop Exit_invalid_command (echoed s (String c l) rest).
Proof.
  intros s c l rest i Hc Hne Hk.
  unfold Execute_body, ParseCommand. simpl trace. cbv iota.
  apply Ascii.eqb_neq in Hc. rewrite Hc. simpl negb. cbv iota.
  destruct (read_word (skip_space (String c l))) as [cmd r]. simpl in Hne, Hk.
  destruct (not_keyword cmd Hk) as (E1 & E2 & E3 & E4 & E5 & E6 & E7).
  apply String.eqb_neq in Hne.
  unfold bind. cbv iota beta. rewrite E1, E2, E3, E4, E5, E6, E7, Hne. reflexivity.
Qed.

Lemma unknown_keyword_exits_witness :
  Execute_body (with_trace blank ("  Put 0 1" :: [])) 0
  = Stop Exit_invalid_command (echoed blank "  Put 0 1" []).
Proof.
  apply unknown_keyword_exits.
  - discriminate.
  - discriminate.
  - simpl. intros H. repeat (destruct H as [H|H]; [discriminate H|]). exact H.
Defined.

(* ===================================================================== *)
(** ** Commands that only read *)
(* ===================================================================== *)

(** Nothing but [cout] and the contexts has changed: physical memory, the
    allocator, the counter, the quota, the trace and its line number are as
    they were. *)
Definition only_read (s s' : ProcessTrace) : Prop :=
  pmem (memory s') = pmem (memory s) /\ allocator s' = allocator s
  /\ allocated_pages s' = allocated_pages s /\ same_io s s'
  /\ accesses s' = accesses s.

Lemma only_read_refl s : only_read s s.
Proof. unfold only_read, same_io. auto 10. Qed.

Lemma only_read_trans s1 s2 s3 : only_read s1 s2 -> only_read s2 s3 -> only_read s1 s3.
Proof. unfold only_read, same_io. intuition congruence. Qed.

Lemma compare_bytes_only_read expected : forall s addr buffer,
  only_read s (compare_bytes s addr buffer expected).
Proof.
  induction expected as [|x expected IH]; intros s addr buffer; simpl;
    [apply only_read_refl|].
  eapply only_read_trans; [|apply IH].
  destruct (negb _); unfold only_read, same_io; simpl; auto 10.
Qed.

Lemma dump_bytes_only_read k : forall s i addr s' e,
  dump_bytes k s i addr = (s', e) -> only_read s s'.
Proof.
  induction k as [|k IH]; intros s i addr s' e; simpl.
  - intros E. injection E as <- <-. apply only_read_refl.
  - unfold get_byte, get_bytes.
    destruct (read_seq _ _ _ _) as [[bs va] x].
    destruct x as [x|]; intros E.
    + injection E as <- <-.
      destruct (i mod 16 =? 0); unfold only_read, same_io; simpl; auto 10.
    + apply IH in E. eapply only_read_trans; [|exact E].
      destruct (i mod 16 =? 0); unfold only_read, same_io; simpl; auto 10.
Qed.

(** What a command left behind, whether it returned or ended the program. *)
Definition left_behind {A : Type} (r : Result A) (Q : ProcessTrace -> Prop) : Prop :=
  match r with
  | Done _ s' => Q s'
  | Stop _ s' => Q s'
  | Timeout => False
  end.

Lemma CmdCompare_only_read s cmdArgs : left_behind (CmdCompare s cmdArgs) (only_read s).
Proof.
  unfold CmdCompare, at_, bind.
  destruct (nth_error cmdArgs 0) as [addr|]; [|apply only_read_refl].
  unfold get_bytes. destruct (read_seq _ _ _ _) as [[bs va] e].
  destruct e as [[]|]; simpl.
  - unfold only_read, same_io; simpl; auto 10.
  - unfold only_read, same_io; simpl; auto 10.
  - eapply only_read_trans; [|apply compare_bytes_only_read].
    unfold only_read, same_io; simpl; auto 10.
Qed.

Lemma CmdDump_only_read s cmdArgs : left_behind (CmdDump s cmdArgs) (only_read s).
Proof.
  unfold CmdDump, at_, bind.
  destruct (nth_error cmdArgs 0) as [addr|]; [|apply only_read_refl].
  destruct (nth_error cmdArgs 1) as [count|]; [|apply only_read_refl].
  destruct (dump_bytes _ _ _ _) as [s1 e] eqn:E.
  apply dump_bytes_only_read in E.
  assert (E0 : only_read s s1).
  { eapply only_read_trans; [|exact E]. unfold only_read, same_io; simpl; auto 10. }
  destruct e as [[]|]; simpl;
    (eapply only_read_trans; [exact E0|]); unfold only_read, same_io; simpl; auto 10.
Qed.

(** X3.  [compare] and [dump] only read: however they end, by returning or
    by an uncaught exception, physical memory (the page table with it), the
    allocator, the counter, the quota, the trace and the line number are as
    they were. *)
Theorem compare_and_dump_only_read :
  forall (s : ProcessTrace) (cmdArgs : list Z),
    left_behind (CmdCompare s cmdArgs) (only_read s)
    /\ left_behind (CmdDump s cmdArgs) (only_read s).
Proof.
  intros s cmdArgs. split; [apply CmdCompare_only_read|apply CmdDump_only_read].
Qed.

(* ===================================================================== *)
(** ** The command loop from line to line *)
(* ===================================================================== *)

(** A round of the loop returns nothing but its own index. *)
Lemma Execute_body_Return s i r s' : Execute_body s i = Done (Return r) s' -> r = i.
Proof.
  unfold Execute_body, bind, quota_exceeded.
  destruct (ParseCommand s) as [[[[ok line] cmd] cmdArgs] s1|f s1|]; try discriminate.
  destruct ok; [|intros H; injection H as <- _; reflexivity].
  repeat match goal with
         | |- context [if (cmd =? ?k)%string then _ else _] =>
             destruct (cmd =? k)%string
         end;
    try (destruct (negb _); discriminate);
    match goal with
    | |- context [match ?h s1 cmdArgs with _ => _ end] =>
        destruct (h s1 cmdArgs) as [b s2|f s2|]; try discriminate
    end;
    try discriminate;
    destruct b; simpl; try discriminate;
    intros H; injection H as <- _; reflexivity.
Qed.

Lemma Execute_loop_sound root k : forall s i n,
  sound root s -> 0 <= i -> i + Z.of_nat k = n ->
  returns (Execute_loop k s i n) (fun r s' => 0 <= r <= n /\ sound root s').
Proof.
  induction k as [|k IH]; intros s i n Hs Hi Hn; simpl.
  - split; [lia|]. destruct Hs as [[Hm Hv] Hwf]. split; [split; [exact Hm|exact Hm]|exact Hwf].
  - pose proof (Execute_body_sound root s i Hs) as H.
    pose proof (Execute_body_Return s i) as HR.
    unfold bind. destruct (Execute_body s i) as [[|r] s1|f s1|]; simpl in *; auto.
    + apply IH; [exact H|lia|lia].
    + rewrite (HR r s1 eq_refl). split; [lia|exact H].
Qed.

(** X4.  Started in a sound state, [Execute] ends, by returning or by the
    end of the program: its loops never run on for ever.  When it returns,
    the value is between 0 and [num_lines] and the process is sound again:
    in virtual mode over a well-formed page table. *)
Theorem Execute_returns_a_line_count :
  forall (root : Z) (s : ProcessTrace) (num_lines : Z),
    sound root s -> 0 <= num_lines ->
    returns (Execute s num_lines) (fun r s' => 0 <= r <= num_lines /\ sound root s').
Proof.
  intros root s n Hs Hn. unfold Execute.
  apply Execute_loop_sound; [|lia|lia].
  apply sound_context; [exact Hs|apply Hs].
Qed.

Lemma Execute_returns_a_line_count_witness :
  returns (Execute (with_trace new_process ["put ffe 1 2 3"; "dump ffe 3"]) 2)
          (fun r s' => 0 <= r <= 2 /\ sound 4096 s').
Proof.
  apply Execute_returns_a_line_count; [|lia].
  exact new_process_sound.
Defined.

(** X5.  The value [Execute] returns when no handler stops it: after [k]
    rounds that all went on, the number [k] of lines executed if the trace
    has come to its end before [num_lines] lines, and [num_lines] if that
    many lines were executed. *)
Theorem Execute_returns_lines_executed :
  forall (s : ProcessTrace) (num_lines : Z) (k : nat) (s_k : ProcessTrace),
    rounds k (with_memory s (set_PMCB (memory s) (vmem_pmcb s))) 0 = Some s_k ->
    (Z.of_nat k < num_lines -> trace s_k = [] ->
     Execute s num_lines = Done (Z.of_nat k) s_k)
    /\ (Z.of_nat k = num_lines ->
        Execute s num_lines
        = Done num_lines (with_vmem_pmcb s_k (get_PMCB (memory s_k)))).
Proof.
  intros s n k s_k Hr. unfold Execute. split.
  - intros Hk Ht.
    replace (Z.to_nat n) with (k + S (Z.to_nat n - k - 1))%nat by lia.
    rewrite (Execute_loop_rounds k _ _ _ _ s_k Hr). simpl.
    unfold Execute_body, ParseCommand. rewrite Ht. simpl. f_equal.
  - intros Hk.
    replace (Z.to_nat n) with (k + 0)%nat by lia.
    rewrite (Execute_loop_rounds k _ _ _ _ s_k Hr). reflexivity.
Qed.

Lemma Execute_returns_lines_executed_witness :
  Execute (with_trace new_process ["# one"; " "]) 7
  = Done 2 (echoed (echoed new_process "# one" [" "]) " " []).
Proof.
  apply (proj1 (Execute_returns_lines_executed
                  (with_trace new_process ["# one"; " "]) 7 2 _ eq_refl));
    [lia|reflexivity].
Defined.

(** A line read is gone from the trace and counted. *)
Definition next_line (s s' : ProcessTrace) (line : string) : Prop :=
  trace s = line :: trace s' /\ line_number s' = line_number s + 1
  /\ id_number s' = id_number s.

Lemma ParseCommand_line s line cmd cmdArgs s1 :
  ParseCommand s = Done (true, line, cmd, cmdArgs) s1 -> next_line s s1 line.
Proof.
  unfold ParseCommand, next_line.
  destruct (trace s) as [|l rest]; [discriminate|].
  destruct l as [|c l]; [discriminate|].
  destruct (negb _).
  - destruct (read_word _) as [w r]. intros H. injection H as <- _ _ <-. simpl. auto.
  - intros H. injection H as <- _ _ <-. simpl. auto.
Qed.

Lemma CmdWritable_same_io s cmdArgs u s' :
  CmdWritable s cmdArgs = Done u s' -> same_io s s'.
Proof.
  unfold CmdWritable, at_, bind.
  destruct (nth_error cmdArgs 0) as [vaddr|]; [|discriminate].
  destruct (nth_error cmdArgs 1) as [bc|]; [|discriminate].
  destruct (nth_error cmdArgs 2) as [flag|]; [|discriminate].
  match goal with
  | |- context [writable_pages ?k ?s0 ?a ?w] =>
      pose proof (writable_pages_fields k s0 a w) as H;
      destruct (writable_pages k s0 a w) as [x s1|f s1|]; try discriminate
  end.
  simpl in H. destruct H as (Hio & _). intros E. injection E as _ <-.
  unfold same_io in *. simpl in *. exact Hio.
Qed.

(** A round that goes on has read one line; the handler it ran left the
    trace, the line number and the process id alone. *)
Lemma Execute_body_line root s i s' :
  sound root s -> Execute_body s i = Done Continue s' ->
  exists line, next_line s s' line.
Proof.
  intros Hs. unfold Execute_body, bind.
  pose proof (ParseCommand_sound root s Hs) as HP.
  pose proof (ParseCommand_line s) as HL.
  destruct (ParseCommand s) as [[[[ok line] cmd] cmdArgs] s1|f s1|]; try discriminate.
  simpl in HP. destruct HP as [Hs1 Hu].
  destruct ok; [|discriminate].
  specialize (HL line cmd cmdArgs s1 eq_refl).
  assert (Hk : forall s2, trace s2 = trace s1 -> line_number s2 = line_number s1 ->
                 id_number s2 = id_number s1 -> next_line s s2 line).
  { intros s2 E1 E2 E3. unfold next_line in *. rewrite E1, E2, E3. exact HL. }
  intros H. exists line.
  destruct (cmd =? "quota")%string.
  { unfold CmdQuota, at_, bind in H. destruct (nth_error cmdArgs 0); [|discriminate].
    injection H as <-. apply Hk; reflexivity. }
  destruct (cmd =? "compare")%string.
  { pose proof (CmdCompare_only_read s1 cmdArgs) as Hc.
    destruct (CmdCompare s1 cmdArgs) as [u s2|f s2|]; try discriminate.
    injection H as <-. destruct Hc as (_ & _ & _ & Hio & _). apply Hk; apply Hio. }
  destruct (cmd =? "put")%string.
  { pose proof (CmdPut_effect root s1 cmdArgs (proj2 (proj1 Hs1))) as Hc.
    destruct (CmdPut s1 cmdArgs) as [b s2|f s2|]; try discriminate.
    destruct b; simpl in H; [|discriminate].
    injection H as <-. destruct Hc as (Hio & _). apply Hk; apply Hio. }
  destruct (cmd =? "fill")%string.
  { pose proof (CmdFill_effect root s1 cmdArgs (proj2 (proj1 Hs1)) Hu) as Hc.
    destruct (CmdFill s1 cmdArgs) as [b s2|f s2|]; try discriminate.
    destruct b; simpl in H; [|discriminate].
    injection H as <-. destruct Hc as (Hio & _). apply Hk; apply Hio. }
  destruct (cmd =? "copy")%string.
  { pose proof (CmdCopy_effect root s1 cmdArgs (proj1 Hs1)) as Hc.
    destruct (CmdCopy s1 cmdArgs) as [b s2|f s2|]; try discriminate.
    destruct b; simpl in H; [|discriminate].
    injection H as <-. destruct Hc as (Hio & _). apply Hk; apply Hio. }
  destruct (cmd =? "dump")%string.
  { pose proof (CmdDump_only_read s1 cmdArgs) as Hc.
    destruct (CmdDump s1 cmdArgs) as [u s2|f s2|]; try discriminate.
    injection H as <-. destruct Hc as (_ & _ & _ & Hio & _). apply Hk; apply Hio. }
  destruct (cmd =? "writable")%string.
  { pose proof (CmdWritable_same_io s1 cmdArgs) as Hc.
    destruct (CmdWritable s1 cmdArgs) as [u s2|f s2|]; try discriminate.
    injection H as <-. apply Hk; apply (Hc u s2 eq_refl). }
  destruct (negb _); [discriminate|]. injection H as <-. apply Hk; reflexivity.
Qed.

(** X6.  From a sound state, [k] rounds of the loop that all went on have
    read exactly [k] lines: these are gone from the head of the trace, the
    line number has grown by [k], and the process id is unchanged.  No
    handler touches the trace or the line number. *)
Theorem rounds_read_a_line_each :
  forall (root : Z) (k : nat) (s : ProcessTrace) (i : Z) (s' : ProcessTrace),
    sound root s -> rounds k s i = Some s' ->
    exists lines : list string,
      trace s = (lines ++ trace s')%list /\ length lines = k
      /\ line_number s' = line_number s + Z.of_nat k
      /\ id_number s' = id_number s.
Proof.
  intros root k. induction k as [|k IH]; intros s i s' Hs; simpl.
  - intros E. injection E as <-. exists []. simpl. split; [reflexivity|].
    split; [reflexivity|]. split; [lia|reflexivity].
  - pose proof (Execute_body_sound root s i Hs) as Hs1.
    pose proof (Execute_body_line root s i) as HL.
    destruct (Execute_body s i) as [[|r] s1|f s1|]; try discriminate.
    intros Hr. destruct (HL s1 Hs eq_refl) as (line & Et & En & Ei).
    destruct (IH s1 (i + 1) s' Hs1 Hr) as (lines & Et' & El & En' & Ei').
    exists (line :: lines). simpl. rewrite Et, Et'. split; [reflexivity|].
    split; [rewrite El; reflexivity|]. split; [lia|congruence].
Qed.

Lemma rounds_read_a_line_each_witness :
  exists lines : list string,
    trace (with_trace new_process ["put 0 1"; "# two"; "dump 0 1"])
    = (lines ++ trace (default blank
         (rounds 2 (with_trace new_process ["put 0 1"; "# two"; "dump 0 1"]) 0)))%list
    /\ length lines = 2%nat
    /\ line_number (default blank
          (rounds 2 (with_trace new_process ["put 0 1"; "# two"; "dump 0 1"]) 0))
       = line_number (with_trace new_process ["put 0 1"; "# two"; "dump 0 1"])
         + Z.of_nat 2
    /\ id_number (default blank
          (rounds 2 (with_trace new_process ["put 0 1"; "# two"; "dump 0 1"]) 0))
       = id_number (with_trace new_process ["put 0 1"; "# two"; "dump 0 1"]).
Proof.
  apply (rounds_read_a_line_each 4096 2 _ 0).
  - exact new_process_sound.
  - vm_compute. reflexivity.
Defined.

(* ===================================================================== *)
(** ** Requests that change nothing *)
(* ===================================================================== *)

(** X7.  The page count of [writable] is the byte count divided by the page
    size, rounded down: with a byte count below one page the command sets no
    bit; it returns with physical memory and the MMU's context as they were. *)
Theorem writable_below_a_page_sets_nothing :
  forall (s : ProcessTrace) (vaddr byte_count flag : Z) (more : list Z),
    0 <= byte_count < 4096 ->
    exists s',
      CmdWritable s (vaddr :: byte_count :: flag :: more) = Done tt s'
      /\ pmem (memory s') = pmem (memory s)
      /\ pmcb (memory s') = pmcb (memory s)
      /\ allocator s' = allocator s /\ cout s' = cout s.
Proof.
  intros s vaddr bc flag more Hb. unfold CmdWritable, at_, bind. simpl nth_error.
  cbv iota beta. unfold kPageSize. rewrite (Z.div_small bc 4096 Hb). simpl.
  eexists. split; [reflexivity|]. simpl. auto.
Qed.

Lemma writable_below_a_page_sets_nothing_witness :
  exists s',
    CmdWritable compare_state [0; 4095; 0] = Done tt s'
    /\ pmem (memory s') = pmem (memory compare_state)
    /\ pmcb (memory s') = pmcb (memory compare_state)
    /\ allocator s' = allocator compare_state /\ cout s' = cout compare_state.
Proof. apply writable_below_a_page_sets_nothing. lia. Defined.

(** The report [PrintAndClearException] writes for a fault at [vaddr]. *)
Definition fault_report (s : ProcessTrace) (type : string) (vaddr : Z)
    (e : Exception) : Output :=
  OutException type (line_number s) vaddr e.

(** X8.  A [put] or a [fill] whose first byte is on a page mapped read-only
    writes nothing: it reports the write-permission fault at that address
    and returns [true], so that the trace goes on; physical memory, the
    allocator and the counter are as they were. *)
Theorem write_to_read_only_page_is_refused :
  forall (s : ProcessTrace) (addr pa b n val : Z) (bs : list Z),
    vm_enable (vmem_pmcb s) = true ->
    walk (pmem (memory s)) (page_table_base (vmem_pmcb s)) addr = Mapped pa false ->
    0 < n ->
    (exists s',
       CmdPut s (addr :: b :: bs) = Done true s'
       /\ pmem (memory s') = pmem (memory s) /\ allocator s' = allocator s
       /\ allocated_pages s' = allocated_pages s
       /\ cout s' = fault_report s "WritePermissionFaultException" addr
                      WritePermissionFaultException :: cout s)
    /\ (exists s',
          CmdFill s [addr; n; val] = Done true s'
          /\ pmem (memory s') = pmem (memory s) /\ allocator s' = allocator s
          /\ allocated_pages s' = allocated_pages s
          /\ cout s' = fault_report s "WritePermissionFaultException" addr
                         WritePermissionFaultException :: cout s).
Proof.
  intros s addr pa b n val bs Hvm Hw Hn. split.
  - unfold CmdPut, at_, bind, leave, bind, loop_bound. simpl nth_error. cbv iota beta.
    simpl while. unfold bind, CmdPut_body, put_bytes. simpl.
    unfold translate. simpl. rewrite Hvm, Hw. simpl.
    eexists. split; [reflexivity|]. simpl. auto.
  - unfold CmdFill, at_, bind, leave, bind, loop_bound. simpl nth_error. cbv iota beta.
    simpl while. unfold bind, CmdFill_body. cbv iota beta.
    rewrite Z.sub_0_r.
    destruct (Z.to_nat n) as [|k] eqn:Ek; [lia|].
    simpl fill_bytes. unfold put_byte, put_bytes. simpl.
    unfold translate. simpl. rewrite Hvm, Hw. simpl.
    eexists. split; [reflexivity|]. simpl. auto.
Qed.

Definition read_only_state : ProcessTrace :=
  state_of (CmdWritable compare_state [0; 4096; 0]) blank.

Lemma write_to_read_only_page_is_refused_witness :
  (exists s',
     CmdPut read_only_state [4094; 7; 8] = Done true s'
     /\ pmem (memory s') = pmem (memory read_only_state)
     /\ allocator s' = allocator read_only_state
     /\ allocated_pages s' = allocated_pages read_only_state
     /\ cout s' = fault_report read_only_state "WritePermissionFaultException" 4094
                    WritePermissionFaultException :: cout read_only_state)
  /\ (exists s',
        CmdFill read_only_state [4094; 2; 9] = Done true s'
        /\ pmem (memory s') = pmem (memory read_only_state)
        /\ allocator s' = allocator read_only_state
        /\ allocated_pages s' = allocated_pages read_only_state
        /\ cout s' = fault_report read_only_state "WritePermissionFaultException" 4094
                       WritePermissionFaultException :: cout read_only_state).
Proof.
  apply (write_to_read_only_page_is_refused read_only_state 4094 16382 7 2 9 [8]).
  - reflexivity.
  - vm_compute. reflexivity.
  - lia.
Defined.

(* ===================================================================== *)
(** ** At the quota *)
(* ===================================================================== *)

(** Nothing was taken from the allocator and nothing was counted. *)
Definition nothing_allocated (s s' : ProcessTrace) : Prop :=
  allocator s' = allocator s /\ allocated_pages s' = allocated_pages s
  /\ QUOTA s' = QUOTA s.

Section AtQuota.
Context {V : Type}.
Variable body : ProcessTrace -> V -> Result (Loop V).
Variable J : V -> Prop.
Variable root : Z.
Hypothesis body_effect : forall s v,
  virtual_context root (vmem_pmcb s) -> J v ->
  returns (body s v) (fun st s' =>
    pass_effect root s st s'
    /\ match st with Again v' => J v' | Exit _ => True end).

(** With the counter at the quota the first pass leaves the loop. *)
Lemma loop_at_quota s0 v0 :
  virtual_context root (vmem_pmcb s0) -> J v0 ->
  allocated_pages s0 = QUOTA s0 ->
  leave (while (loop_bound s0) body s0 v0) = leave (while 1 body s0 v0)
  /\ returns (leave (while 1 body s0 v0)) (fun _ s' => nothing_allocated s0 s').
Proof.
  intros Hv HJ Hq. unfold loop_bound. simpl while.
  pose proof (body_effect s0 v0 Hv HJ) as H.
  unfold leave, bind.
  destruct (body s0 v0) as [[v'|b] s1|f s1|]; simpl in H; try contradiction.
  - destruct H as [(_ & _ & Hne & _) _]. contradiction.
  - split; [reflexivity|].
    destruct H as [(Hio & _ & Ha & Hal & _) _].
    destruct b; simpl; (split; [exact Hal|split; [exact Ha|apply Hio]]).
  - split; [reflexivity|exact I].
Qed.
End AtQuota.

(** X9.  With the counter equal to the quota, [put], [fill] and [copy],
    whatever the request, return (or end the program) without taking a frame
    from the allocator and without counting a page. *)
Theorem at_the_quota_nothing_is_allocated :
  forall (root : Z) (s : ProcessTrace) (cmdArgs : list Z),
    in_virtual_mode root s -> Forall u32 cmdArgs ->
    allocated_pages s = QUOTA s ->
    returns (CmdPut s cmdArgs) (fun _ s' => nothing_allocated s s')
    /\ returns (CmdFill s cmdArgs) (fun _ s' => nothing_allocated s s')
    /\ returns (CmdCopy s cmdArgs) (fun _ s' => nothing_allocated s s').
Proof.
  intros root s cmdArgs [Hm Hv] Hu Hq. split; [|split].
  - unfold CmdPut, at_, bind.
    destruct (nth_error cmdArgs 0) as [addr|]; [|exact I].
    match goal with
    | |- returns (leave (while _ ?body _ ?v)) _ =>
        destruct (loop_at_quota body (fun _ => True) root) with (s0 := s) (v0 := v)
          as [-> H]; auto
    end.
    intros s1 v Hv1 _. eapply returns_weaken; [apply CmdPut_body_effect, Hv1|].
    intros [] ? ?; auto.
  - unfold CmdFill, at_, bind.
    destruct (nth_error cmdArgs 0) as [addr|] eqn:E0; [|exact I].
    destruct (nth_error cmdArgs 1) as [n|] eqn:E1; [|exact I].
    destruct (nth_error cmdArgs 2) as [val|] eqn:E2; [|exact I].
    pose proof (Forall_nth_error _ _ _ _ Hu E0) as Ha.
    pose proof (Forall_nth_error _ _ _ _ Hu E1) as Hn.
    match goal with
    | |- returns (leave (while _ ?body _ ?v)) _ =>
        destruct (loop_at_quota body (fill_invariant n addr) root) with (s0 := s) (v0 := v)
          as [-> H]; auto
    end.
    + intros s1 v Hv1 HJ. apply CmdFill_body_effect; auto.
    + unfold fill_invariant, u32 in *. simpl. rewrite Z.add_0_r, wrap32_small; lia.
  - unfold CmdCopy, at_, bind.
    destruct (nth_error cmdArgs 0) as [dst|]; [|exact I].
    destruct (nth_error cmdArgs 1) as [src|]; [|exact I].
    destruct (nth_error cmdArgs 2) as [n|]; [|exact I].
    unfold get_bytes. destruct (read_seq _ _ _ _) as [[bs va] e].
    assert (Hb : forall x buf s1 v, virtual_context root (vmem_pmcb s1) -> True ->
               returns (CmdCopy_body dst x buf s1 v) (fun st s' =>
                 pass_effect root s1 st s'
                 /\ match st with Again _ => True | Exit _ => True end)).
    { intros x buf s1 v Hv1 _. unfold CmdCopy_body.
      eapply returns_weaken; [apply CmdPut_body_effect, Hv1|].
      intros [] ? ?; auto. }
    destruct e as [[]|]; [|exact I|].
    + match goal with
      | |- returns (leave (while _ (CmdCopy_body _ ?x ?buf) ?s1 ?v)) _ =>
          destruct (loop_at_quota (CmdCopy_body dst x buf) (fun _ => True) root (Hb x buf))
            with (s0 := s1) (v0 := v) as [-> H]; auto;
            try solve [simpl; unfold get_PMCB; simpl;
                       apply virtual_clear, virtual_after_op, Hm]
      end.
    + match goal with
      | |- returns (leave (while _ (CmdCopy_body _ ?x ?buf) ?s1 ?v)) _ =>
          destruct (loop_at_quota (CmdCopy_body dst x buf) (fun _ => True) root (Hb x buf))
            with (s0 := s1) (v0 := v) as [-> H]; auto;
            try solve [simpl; unfold get_PMCB; simpl; apply virtual_after_op, Hm]
      end.
Qed.

Lemma at_the_quota_nothing_is_allocated_witness :
  returns (CmdPut quota_before [4096; 0; 1])
          (fun _ s' => nothing_allocated quota_before s')
  /\ returns (CmdFill quota_before [4096; 0; 1])
             (fun _ s' => nothing_allocated quota_before s')
  /\ returns (CmdCopy quota_before [4096; 0; 1])
             (fun _ s' => nothing_allocated quota_before s').
Proof.
  apply (at_the_quota_nothing_is_allocated 4096 quota_before [4096; 0; 1]).
  - unfold in_virtual_mode, virtual_context. repeat split; vm_compute; reflexivity.
  - repeat constructor; unfold u32; lia.
  - vm_compute. reflexivity.
Defined.

(** A pass leaves the loop by [return false] only at the quota. *)
Lemma on_page_fault_false {V : Type} s start num_bytes (v : Z -> V) s' :
  on_page_fault s start num_bytes v = Done (Exit false) s' ->
  allocated_pages s' = QUOTA s' /\ pmem (memory s') = pmem (memory s).
Proof.
  intros H. apply on_page_fault_cases in H. cbv zeta in H.
  destruct H as [(E & _)|[(_ & _ & -> & Hq)|(E & _)]]; try discriminate.
  simpl. auto.
Qed.

Lemma CmdPut_body_false addr n buffer s w s' :
  CmdPut_body addr n buffer s w = Done (Exit false) s' ->
  allocated_pages s' = QUOTA s'.
Proof.
  unfold CmdPut_body, put_bytes. destruct (write_seq _ _ _ _) as [[pm va] e].
  destruct e as [[]|]; [|discriminate..].
  intros H. apply on_page_fault_false in H. apply H.
Qed.

Lemma CmdFill_body_false n val start s v s' :
  CmdFill_body n val start s v = Done (Exit false) s' ->
  allocated_pages s' = QUOTA s'.
Proof.
  unfold CmdFill_body. destruct v as [addr w].
  destruct (fill_bytes _ _ _ _ _) as [[[s1 a1] w1] e].
  destruct e as [[]|].
  - intros H. apply on_page_fault_false in H. apply H.
  - discriminate.
  - destruct (w1 =? n); discriminate.
Qed.

Lemma loop_false {V : Type} (body : ProcessTrace -> V -> Result (Loop V)) :
  (forall s v s', body s v = Done (Exit false) s' -> allocated_pages s' = QUOTA s') ->
  forall fuel s v s', leave (while fuel body s v) = Done false s' ->
    allocated_pages s' = QUOTA s'.
Proof.
  intros Hb fuel s v s' H. apply leave_false in H.
  refine (while_partial body (fun _ _ => True)
            (fun b s' => b = false -> allocated_pages s' = QUOTA s')
            _ fuel s v false s' I H eq_refl).
  intros s1 v1 _. destruct (body s1 v1) as [[v'|[]] s2|f s2|] eqn:E; auto.
  - discriminate.
  - intros _. exact (Hb _ _ _ E).
Qed.

(** X10.  [put], [fill] and [copy] return [false] only at the quota: when
    one of them returns [false], on which [Execute] reports that the quota
    is exceeded, the counter equals the quota in the state it leaves. *)
Theorem false_is_returned_only_at_the_quota :
  forall (cmd : string) (h : ProcessTrace -> list Z -> Result bool)
         (s : ProcessTrace) (cmdArgs : list Z) (s' : ProcessTrace),
    writer cmd = Some h -> h s cmdArgs = Done false s' ->
    allocated_pages s' = QUOTA s'.
Proof.
  intros cmd h s cmdArgs s' Hw. apply writer_cases in Hw as [->|[->| ->]].
  - unfold CmdPut, at_, bind. destruct (nth_error cmdArgs 0); [|discriminate].
    apply loop_false. intros ? ? ?. apply CmdPut_body_false.
  - unfold CmdFill, at_, bind.
    destruct (nth_error cmdArgs 0); [|discriminate].
    destruct (nth_error cmdArgs 1); [|discriminate].
    destruct (nth_error cmdArgs 2); [|discriminate].
    apply loop_false. intros ? ? ?. apply CmdFill_body_false.
  - unfold CmdCopy, at_, bind.
    destruct (nth_error cmdArgs 0); [|discriminate].
    destruct (nth_error cmdArgs 1); [|discriminate].
    destruct (nth_error cmdArgs 2); [|discriminate].
    unfold get_bytes. destruct (read_seq _ _ _ _) as [[bs va] e].
    destruct e as [[]|]; [|discriminate|];
      apply loop_false; intros ? ? ?; apply CmdPut_body_false.
Qed.

Lemma false_is_returned_only_at_the_quota_witness :
  allocated_pages (state_of (CmdFill quota_before [4096; 2; 7]) blank)
  = QUOTA (state_of (CmdFill quota_before [4096; 2; 7]) blank).
Proof.
  apply (false_is_returned_only_at_the_quota "fill" CmdFill quota_before [4096; 2; 7]).
  - reflexivity.
  - vm_compute. reflexivity.
Defined.

(** X11.  A [copy] whose source starts on an unmapped page reads nothing: it
    reports the page fault of the read at the source address, writes no
    byte to the destination, whether that is mapped or not, allocates
    nothing and returns [true]. *)
Theorem copy_from_unmapped_source_writes_nothing :
  forall (s : ProcessTrace) (dst src n : Z),
    vm_enable (pmcb (memory s)) = true ->
    walk (pmem (memory s)) (page_table_base (pmcb (memory s))) src = Unmapped ->
    0 < n ->
    exists s',
      CmdCopy s [dst; src; n] = Done true s'
      /\ pmem (memory s') = pmem (memory s) /\ allocator s' = allocator s
      /\ allocated_pages s' = allocated_pages s
      /\ cout s' = fault_report s "PageFaultException on read" src
                     PageFaultException :: cout s
      /\ accesses s' = Issued dst 0 :: accesses s.
Proof.
  intros s dst src n Hvm Hw Hn.
  unfold CmdCopy, at_, bind. simpl nth_error. cbv iota beta.
  unfold get_bytes. destruct (Z.to_nat n) as [|k] eqn:Ek; [lia|].
  simpl read_seq. unfold translate. rewrite Hvm, Hw. cbv iota beta.
  match goal with
  | |- context [wrap32 (?a - src)] => change a with src
  end.
  rewrite Z.sub_diag. change (wrap32 0) with 0.
  eexists. split; [reflexivity|]. repeat split; reflexivity.
Qed.

Lemma copy_from_unmapped_source_writes_nothing_witness :
  exists s',
    CmdCopy compare_state [0; 4096; 3] = Done true s'
    /\ pmem (memory s') = pmem (memory compare_state)
    /\ allocator s' = allocator compare_state
    /\ allocated_pages s' = allocated_pages compare_state
    /\ cout s' = fault_report compare_state "PageFaultException on read" 4096
                   PageFaultException :: cout compare_state
    /\ accesses s' = Issued 0 0 :: accesses compare_state.
Proof.
  apply (copy_from_unmapped_source_writes_nothing compare_state 0 4096 3).
  - reflexivity.
  - vm_compute. reflexivity.
  - lia.
Defined.

(* ===================================================================== *)
(** ** Distinct frames for distinct pages *)
(* ===================================================================== *)

(** No two first-level entries share a second-level table, and no two pages
    share a frame. *)
Record apart (root : Z) (pm : gmap Z Z) : Prop := {
  ap_tables : forall i i', 0 <= i < 1024 -> 0 <= i' < 1024 ->
    L1 pm root i mod 2 = 1 -> L1 pm root i' mod 2 = 1 ->
    frame_of (L1 pm root i) = frame_of (L1 pm root i') -> i = i';
  ap_pages : forall i j i' j',
    0 <= i < 1024 -> 0 <= j < 1024 -> 0 <= i' < 1024 -> 0 <= j' < 1024 ->
    L1 pm root i mod 2 = 1 -> L2 pm root i j mod 2 = 1 ->
    L1 pm root i' mod 2 = 1 -> L2 pm root i' j' mod 2 = 1 ->
    frame_of (L2 pm root i j) = frame_of (L2 pm root i' j') ->
    i = i' /\ j = j'
}.

Lemma same_tables_apart root pm pm' :
  same_tables root pm pm' -> apart root pm -> apart root pm'.
Proof.
  intros [H1 H2] [At Ap]. constructor.
  - intros i i' Hi Hi'. rewrite (H1 i Hi), (H1 i' Hi'). auto.
  - intros i j i' j' Hi Hj Hi' Hj'. rewrite (H1 i Hi), (H1 i' Hi').
    intros P1 P2 P1' P2'. rewrite (H2 i j Hi Hj P1) in *.
    rewrite (H2 i' j' Hi' Hj' P1') in *. auto.
Qed.

(** Entries whose writable bits alone may differ. *)
Lemma same_mapping_entries w root pm pm' :
  frame root -> same_mapping w pm pm' ->
  (forall i, 0 <= i < 1024 ->
     frame_of (L1 pm' root i) = frame_of (L1 pm root i)
     /\ L1 pm' root i mod 2 = L1 pm root i mod 2)
  /\ (forall i j, 0 <= i < 1024 -> 0 <= j < 1024 ->
        frame_of (L2 pm' root i j) = frame_of (L2 pm root i j)
        /\ L2 pm' root i j mod 2 = L2 pm root i j mod 2).
Proof.
  intros Hr Hm.
  assert (A1 : forall i, 0 <= i < 1024 ->
            frame_of (L1 pm' root i) = frame_of (L1 pm root i)
            /\ L1 pm' root i mod 2 = L1 pm root i mod 2).
  { intros i Hi. unfold L1.
    destruct (Hm (root + 4 * i) (frame_entry_aligned _ _ Hr Hi)) as (E4 & E2 & _).
    split; [apply frame_of_div4, E4|exact E2]. }
  split; [exact A1|].
  intros i j Hi Hj. unfold L2. rewrite (proj1 (A1 i Hi)).
  destruct (Hm _ (frame_entry_aligned _ _ (frame_of_L1 pm root i) Hj))
    as (E4 & E2 & _).
  split; [apply frame_of_div4, E4|exact E2].
Qed.

Lemma same_mapping_apart w root pm pm' :
  frame root -> same_mapping w pm pm' -> apart root pm -> apart root pm'.
Proof.
  intros Hr Hm [At Ap].
  destruct (same_mapping_entries w root pm pm' Hr Hm) as [A1 A2].
  constructor.
  - intros i i' Hi Hi'.
    destruct (A1 i Hi) as [-> ->], (A1 i' Hi') as [-> ->]. auto.
  - intros i j i' j' Hi Hj Hi' Hj'.
    destruct (A1 i Hi) as [_ ->], (A1 i' Hi') as [_ ->].
    destruct (A2 i j Hi Hj) as [-> ->], (A2 i' j' Hi' Hj') as [-> ->]. auto.
Qed.

(** The entries after a second-level entry is stored. *)
Lemma install_page_entries root pm d free i j :
  well_formed root pm (d :: free) ->
  0 <= i < 1024 -> 0 <= j < 1024 -> L1 pm root i mod 2 = 1 ->
  let pm' := store_entry pm (frame_of (L1 pm root i) + 4 * j) (d + 3) in
  (forall i', 0 <= i' < 1024 -> L1 pm' root i' = L1 pm root i')
  /\ (forall i' j', 0 <= i' < 1024 -> 0 <= j' < 1024 ->
        (frame_of (L1 pm root i') = frame_of (L1 pm root i) /\ j' = j
         /\ L2 pm' root i' j' = d + 3)
        \/ ((frame_of (L1 pm root i') <> frame_of (L1 pm root i) \/ j' <> j)
            /\ L2 pm' root i' j' = L2 pm root i' j')).
Proof.
  intros [Hr Hrf Hf Hn Hc Ht Hp] Hi Hj P1 pm'.
  pose proof (frame_of_L1 pm root i) as HT. set (t := frame_of (L1 pm root i)) in *.
  destruct (Ht i Hi P1) as [Htr Htf]. fold t in Htr, Htf.
  assert (Hd : frame d) by (apply Hf; left; reflexivity).
  destruct (flags_entry d Hd) as (Er & Ef & Ep & Ew).
  assert (H1 : forall i', 0 <= i' < 1024 -> L1 pm' root i' = L1 pm root i').
  { intros i' Hi'. unfold L1, pm'. apply entry_store_other; auto. }
  split; [exact H1|].
  intros i' j' Hi' Hj'. unfold L2. rewrite (H1 i' Hi').
  destruct (Z.eq_dec (frame_of (L1 pm root i')) t) as [E|E];
    [destruct (Z.eq_dec j' j) as [E'|E']|].
  - left. rewrite E, E'. unfold pm'. rewrite entry_store_same; auto.
  - right. split; [auto|]. unfold pm'.
    apply entry_store_other; auto using frame_of_L1.
  - right. split; [auto|]. unfold pm'.
    apply entry_store_other; auto using frame_of_L1.
Qed.

(** The entries after a first-level entry is stored. *)
Lemma install_table_entries root pm T free i :
  well_formed root pm (T :: free) ->
  0 <= i < 1024 ->
  let pm' := store_entry pm (root + 4 * i) (T + 3) in
  L1 pm' root i = T + 3
  /\ (forall i', 0 <= i' < 1024 -> i' <> i -> L1 pm' root i' = L1 pm root i')
  /\ (forall j, 0 <= j < 1024 -> L2 pm' root i j mod 2 = 0)
  /\ (forall i' j', 0 <= i' < 1024 -> 0 <= j' < 1024 -> i' <> i ->
        L1 pm root i' mod 2 = 1 -> L2 pm' root i' j' = L2 pm root i' j').
Proof.
  intros [Hr Hrf Hf Hn Hc Ht Hp] Hi pm'.
  assert (HT : frame T) by (apply Hf; left; reflexivity).
  destruct (flags_entry T HT) as (Er & Ef & Ep & Ew).
  apply not_in_cons in Hrf as [HrT Hrf].
  assert (H1 : forall i', 0 <= i' < 1024 -> i' <> i -> L1 pm' root i' = L1 pm root i').
  { intros i' Hi' Hne. unfold L1, pm'. apply entry_store_other; auto. }
  assert (H1i : L1 pm' root i = T + 3).
  { unfold L1, pm'. apply entry_store_same; auto. }
  assert (Hother : forall F k, frame F -> F <> root -> 0 <= k < 1024 ->
            entry_at pm' (F + 4 * k) = entry_at pm (F + 4 * k)).
  { intros F k HF Hne Hk. unfold pm'. apply entry_store_other; auto. }
  split; [exact H1i|]. split; [exact H1|]. split.
  - intros j Hj. unfold L2. rewrite H1i, Ef, Hother; auto.
    apply Hc; [left; reflexivity|exact Hj].
  - intros i' j' Hi' Hj' Hne P. unfold L2. rewrite (H1 i' Hi' Hne).
    apply Hother; auto using frame_of_L1. apply (Ht i' Hi' P).
Qed.

Lemma install_page_apart root pm d free i j :
  well_formed root pm (d :: free) -> apart root pm ->
  0 <= i < 1024 -> 0 <= j < 1024 -> L1 pm root i mod 2 = 1 ->
  apart root (store_entry pm (frame_of (L1 pm root i) + 4 * j) (d + 3)).
Proof.
  intros Hwf [At Ap] Hi Hj P1.
  destruct (install_page_entries root pm d free i j Hwf Hi Hj P1) as [H1 H2].
  pose proof Hwf as [Hr Hrf Hf Hn Hc Ht Hp].
  assert (Hd : frame d) by (apply Hf; left; reflexivity).
  destruct (flags_entry d Hd) as (Er & Ef & Ep & Ew).
  constructor.
  - intros a a' Ha Ha'. rewrite (H1 a Ha), (H1 a' Ha'). auto.
  - intros a b a' b' Ha Hb Ha' Hb'. rewrite (H1 a Ha), (H1 a' Ha').
    intros Q1 Q2 Q1' Q2'.
    destruct (H2 a b Ha Hb) as [(Et & -> & E)|(_ & E)];
      destruct (H2 a' b' Ha' Hb') as [(Et' & -> & E')|(_ & E')];
      rewrite E, E' in *.
    + intros _. split; [|reflexivity].
      apply At; auto. congruence.
    + rewrite Ef. intros Ed. exfalso.
      destruct (Hp a' b' Ha' Hb' Q1' Q2') as (_ & Hnf & _).
      apply Hnf. left. exact Ed.
    + rewrite Ef. intros Ed. exfalso.
      destruct (Hp a b Ha Hb Q1 Q2) as (_ & Hnf & _).
      apply Hnf. left. symmetry. exact Ed.
    + apply Ap; auto.
Qed.

Lemma install_table_apart root pm T free i :
  well_formed root pm (T :: free) -> apart root pm ->
  0 <= i < 1024 -> L1 pm root i mod 2 = 0 ->
  apart root (store_entry pm (root + 4 * i) (T + 3)).
Proof.
  intros Hwf [At Ap] Hi P0.
  destruct (install_table_entries root pm T free i Hwf Hi) as (H1i & H1 & H2i & H2).
  pose proof Hwf as [Hr Hrf Hf Hn Hc Ht Hp].
  assert (HT : frame T) by (apply Hf; left; reflexivity).
  destruct (flags_entry T HT) as (Er & Ef & Ep & Ew).
  constructor.
  - intros a a' Ha Ha'.
    destruct (Z.eq_dec a i) as [->|Hne]; destruct (Z.eq_dec a' i) as [->|Hne'];
      auto; try rewrite H1i; try rewrite (H1 a Ha Hne); try rewrite (H1 a' Ha' Hne').
    + rewrite Ef. intros _ Q E. exfalso.
      destruct (Ht a' Ha' Q) as [_ Hnf]. apply Hnf. left. exact E.
    + rewrite Ef. intros Q _ E. exfalso.
      destruct (Ht a Ha Q) as [_ Hnf]. apply Hnf. left. symmetry. exact E.
    + auto.
  - intros a b a' b' Ha Hb Ha' Hb'.
    destruct (Z.eq_dec a i) as [->|Hne].
    { intros _ Q. rewrite (H2i b Hb) in Q. discriminate Q. }
    destruct (Z.eq_dec a' i) as [->|Hne'].
    { intros _ _ _ Q. rewrite (H2i b' Hb') in Q. discriminate Q. }
    rewrite (H1 a Ha Hne), (H1 a' Ha' Hne'). intros Q1 Q2 Q1' Q2'.
    rewrite (H2 a b Ha Hb Hne Q1) in *. rewrite (H2 a' b' Ha' Hb' Hne' Q1') in *.
    apply Ap; auto.
Qed.

(* ===================================================================== *)
(** ** What [AllocateAndMapPage] does to memory *)
(* ===================================================================== *)

(** Memory, the frame given to the page and the free list after
    [AllocateAndMapPage(va)] run with paging disabled on an unmapped page:
    when the first-level entry is absent, the first free frame becomes the
    second-level table and the next one the page. *)
Definition map_page_mem (pm : gmap Z Z) (root va : Z) (free : list Z)
  : option (gmap Z Z * Z * list Z) :=
  let i := va / 4194304 in
  let j := (va / 4096) mod 1024 in
  if L1 pm root i mod 2 =? 0 then
    match free with
    | T :: d :: free' =>
        Some (store_entry (store_entry pm (root + 4 * i) (T + 3)) (T + 4 * j) (d + 3),
              d, free')
    | _ => None
    end
  else
    match free with
    | d :: free' =>
        Some (store_entry pm (frame_of (L1 pm root i) + 4 * j) (d + 3), d, free')
    | [] => None
    end.

Lemma AllocateAndMapPage_physical root s vaddr :
  vm_enable (pmcb (memory s)) = false ->
  page_table_base (vmem_pmcb s) = root ->
  well_formed root (pmem (memory s)) (allocator s) ->
  u32 vaddr -> walk (pmem (memory s)) root vaddr = Unmapped ->
  match AllocateAndMapPage s vaddr with
  | Done _ s' =>
      exists d, map_page_mem (pmem (memory s)) root vaddr (allocator s)
                = Some (pmem (memory s'), d, allocator s')
  | Stop f _ => f = Allocator_exhausted
  | Timeout => False
  end.
Proof.
  intros Hvm Hb Hwf Hv Hw. pose proof Hwf as [Hr _ _ _ _ _ _].
  pose proof (l1_index_range vaddr Hv) as Hi.
  pose proof (l2_index_range vaddr) as Hj.
  unfold map_page_mem. cbv zeta.
  set (i := vaddr / 4194304) in *. set (j := (vaddr / 4096) mod 1024) in *.
  apply (walk_Unmapped _ root vaddr Hr Hv) in Hw. cbv zeta in Hw.
  destruct (walk_L (pmem (memory s)) root vaddr Hr Hv) as (_ & E1 & E2).
  rewrite E2, E1 in Hw. fold i j in Hw.
  unfold AllocateAndMapPage.
  rewrite Hb, shiftr_l1, shiftr_l2, land_index.
  unfold sizeof_PageTableEntry.
  fold (l1_slot root vaddr). rewrite (aligned4_wrap _ (l1_slot_aligned _ _ Hr Hv)).
  destruct (get_entry_physical s _ Hvm (l1_slot_aligned _ _ Hr Hv))
    as (c1 & -> & Hc1 & _).
  rewrite E1. fold i j. unfold bind; cbv beta iota. rewrite land_present.
  pose proof (Z.mod_pos_bound (L1 (pmem (memory s)) root i) 2 ltac:(lia)) as Hb1.
  destruct (L1 (pmem (memory s)) root i mod 2 =? 0) eqn:EP.
  - apply Z.eqb_eq in EP. unfold Allocate1. simpl allocator.
    destruct (allocator s) as [|T free1] eqn:EA; [reflexivity|].
    unfold bind; cbv beta iota.
    assert (HT : frame T) by (apply (wf_free _ _ _ Hwf); left; reflexivity).
    destruct (flags_entry T HT) as (Er & Ef & Ep & Ew).
    rewrite (lor_flags T (proj2 HT)).
    match goal with |- context [put_entry ?t _ ?e] =>
      destruct (put_entry_physical t (l1_slot root vaddr) e Hc1
                  (l1_slot_aligned _ _ Hr Hv)) as (c2 & -> & Hc2 & _) end.
    simpl pmem. unfold bind; cbv beta iota.
    destruct (install_table root (pmem (memory s)) T free1 i Hwf Hi EP)
      as (Hwf1 & Hw1 & HL1 & HL2).
    fold (l1_slot root vaddr) in Hwf1, Hw1, HL1, HL2.
    change (root + 4 * i) with (l1_slot root vaddr) in *.
    set (pm1 := store_entry (pmem (memory s)) (l1_slot root vaddr) (T + 3)) in *.
    rewrite (land_frame (T + 3) Er). fold (frame_of (T + 3)). rewrite Ef.
    assert (Ha2 : aligned4 (T + 4 * j)) by (apply frame_slot; assumption).
    rewrite (aligned4_wrap _ Ha2).
    match goal with |- context [get_entry ?t _] =>
      destruct (get_entry_physical t (T + 4 * j) Hc2 Ha2) as (c3 & -> & Hc3 & _) end.
    simpl pmem. unfold bind; cbv beta iota.
    assert (EL2 : entry_at pm1 (T + 4 * j) = L2 pm1 root i j).
    { unfold L2. rewrite HL1, Ef. reflexivity. }
    rewrite EL2, land_present, (HL2 j Hj). simpl negb. cbv iota.
    unfold Allocate1. simpl allocator.
    destruct free1 as [|d free2]; [reflexivity|].
    unfold bind; cbv beta iota.
    assert (Hd : frame d) by (apply (wf_free _ _ _ Hwf1); left; reflexivity).
    rewrite (lor_flags d (proj2 Hd)).
    match goal with |- context [put_entry ?t _ ?e] =>
      destruct (put_entry_physical t (T + 4 * j) e Hc3 Ha2) as (c4 & -> & Hc4 & _) end.
    simpl pmem. simpl allocator. exists d. reflexivity.
  - apply Z.eqb_neq in EP. assert (P1 : L1 (pmem (memory s)) root i mod 2 = 1) by lia.
    destruct Hw as [Hw|Hw]; [lia|].
    unfold bind; cbv beta iota.
    rewrite (land_frame _ (L1_range _ _ _)).
    fold (frame_of (L1 (pmem (memory s)) root i)).
    pose proof (frame_of_L1 (pmem (memory s)) root i) as HTf.
    assert (Ha2 : aligned4 (frame_of (L1 (pmem (memory s)) root i) + 4 * j))
      by (apply frame_slot; assumption).
    rewrite (aligned4_wrap _ Ha2).
    match goal with |- context [get_entry ?t _] =>
      destruct (get_entry_physical t _ Hc1 Ha2) as (c3 & -> & Hc3 & _) end.
    simpl pmem. unfold bind; cbv beta iota.
    fold (L2 (pmem (memory s)) root i j). rewrite land_present, Hw. simpl negb. cbv iota.
    unfold Allocate1. simpl allocator.
    destruct (allocator s) as [|d free2] eqn:EA; [reflexivity|].
    unfold bind; cbv beta iota.
    assert (Hd : frame d) by (apply (wf_free _ _ _ Hwf); left; reflexivity).
    rewrite (lor_flags d (proj2 Hd)).
    match goal with |- context [put_entry ?t _ ?e] =>
      destruct (put_entry_physical t _ e Hc3 Ha2) as (c4 & -> & Hc4 & _) end.
    simpl pmem. simpl allocator. exists d. reflexivity.
Qed.

Lemma page_indices x :
  x / 4096 = 1024 * (x / 4194304) + (x / 4096) mod 1024.
Proof.
  replace (x / 4194304) with (x / 4096 / 1024)
    by (rewrite Z.div_div by lia; reflexivity).
  pose proof (Z.div_mod (x / 4096) 1024 ltac:(lia)). lia.
Qed.

Lemma other_page_indices x va :
  x / 4096 <> va / 4096 ->
  x / 4194304 <> va / 4194304 \/ (x / 4096) mod 1024 <> (va / 4096) mod 1024.
Proof.
  intros H. rewrite (page_indices x), (page_indices va) in H.
  destruct (Z.eq_dec (x / 4194304) (va / 4194304)) as [E|E]; [|auto].
  right. intros E'. apply H. rewrite E, E'. reflexivity.
Qed.

(** A fresh, empty second-level table maps nothing new. *)
Lemma install_table_others root pm T free i :
  well_formed root pm (T :: free) ->
  0 <= i < 1024 -> L1 pm root i mod 2 = 0 ->
  forall x, u32 x -> walk pm root x = Unmapped ->
    walk (store_entry pm (root + 4 * i) (T + 3)) root x = Unmapped.
Proof.
  intros Hwf Hi P0 x Hx Hw. pose proof Hwf as [Hr _ _ _ _ _ _].
  destruct (install_table_entries root pm T free i Hwf Hi) as (H1i & H1 & H2i & H2).
  pose proof (l1_index_range x Hx) as Hix. pose proof (l2_index_range x) as Hjx.
  apply (walk_Unmapped _ root x Hr Hx). cbv zeta.
  apply (walk_Unmapped _ root x Hr Hx) in Hw. cbv zeta in Hw.
  destruct (walk_L pm root x Hr Hx) as (_ & E1 & E2). rewrite E2, E1 in Hw.
  match goal with
  | |- context [store_entry ?a ?b ?c] =>
      destruct (walk_L (store_entry a b c) root x Hr Hx) as (_ & E1' & E2')
  end.
  rewrite E2', E1'.
  destruct (Z.eq_dec (x / 4194304) i) as [E|E].
  - right. rewrite E. apply H2i, Hjx.
  - rewrite (H1 _ Hix E). destruct Hw as [Hw|Hw]; [left; exact Hw|].
    pose proof (Z.mod_pos_bound (L1 pm root (x / 4194304)) 2 ltac:(lia)).
    destruct (Z.eq_dec (L1 pm root (x / 4194304) mod 2) 0) as [E0|E0]; [left; exact E0|].
    right. rewrite (H2 _ _ Hix Hjx E ltac:(lia)). exact Hw.
Qed.

(** A page installed maps no other page. *)
Lemma install_page_others root pm d free i j :
  well_formed root pm (d :: free) -> apart root pm ->
  0 <= i < 1024 -> 0 <= j < 1024 -> L1 pm root i mod 2 = 1 ->
  forall x, u32 x -> x / 4194304 <> i \/ (x / 4096) mod 1024 <> j ->
    walk pm root x = Unmapped ->
    walk (store_entry pm (frame_of (L1 pm root i) + 4 * j) (d + 3)) root x = Unmapped.
Proof.
  intros Hwf [At Ap] Hi Hj P1 x Hx Hne Hw. pose proof Hwf as [Hr _ _ _ _ _ _].
  destruct (install_page_entries root pm d free i j Hwf Hi Hj P1) as [H1 H2].
  pose proof (l1_index_range x Hx) as Hix. pose proof (l2_index_range x) as Hjx.
  apply (walk_Unmapped _ root x Hr Hx). cbv zeta.
  apply (walk_Unmapped _ root x Hr Hx) in Hw. cbv zeta in Hw.
  destruct (walk_L pm root x Hr Hx) as (_ & E1 & E2). rewrite E2, E1 in Hw.
  match goal with
  | |- context [store_entry ?a ?b ?c] =>
      destruct (walk_L (store_entry a b c) root x Hr Hx) as (_ & E1' & E2')
  end.
  rewrite E2', E1', (H1 _ Hix).
  destruct Hw as [Hw|Hw]; [left; exact Hw|].
  pose proof (Z.mod_pos_bound (L1 pm root (x / 4194304)) 2 ltac:(lia)).
  destruct (Z.eq_dec (L1 pm root (x / 4194304) mod 2) 0) as [E0|E0]; [left; exact E0|].
  right. destruct (H2 _ _ Hix Hjx) as [(Et & Ej & _)|(_ & ->)]; [|exact Hw].
  exfalso. assert (x / 4194304 = i) by (apply At; auto; lia).
  destruct Hne; contradiction.
Qed.

(** The page table after [AllocateAndMapPage]: well formed, with distinct
    frames; the page is mapped writable on the frame [d], which was free and
    is no more; every other page is translated as before. *)
Lemma map_page_spec root pm va free pm' d free' :
  well_formed root pm free -> apart root pm -> u32 va ->
  walk pm root va = Unmapped ->
  map_page_mem pm root va free = Some (pm', d, free') ->
  well_formed root pm' free' /\ apart root pm'
  /\ In d free /\ ~ In d free'
  /\ (forall x, u32 x -> x / 4096 = va / 4096 ->
        walk pm' root x = Mapped (d + x mod 4096) true)
  /\ (forall x, u32 x -> x / 4096 <> va / 4096 ->
        walk pm' root x = walk pm root x).
Proof.
  intros Hwf Hap Hv Hw. pose proof Hwf as [Hr _ _ _ _ _ _].
  pose proof (l1_index_range va Hv) as Hi.
  pose proof (l2_index_range va) as Hj.
  unfold map_page_mem. cbv zeta.
  set (i := va / 4194304) in *. set (j := (va / 4096) mod 1024) in *.
  assert (Hoff : forall pm2 : gmap Z Z,
            (forall x, u32 x -> walk pm root x <> Unmapped ->
               walk pm2 root x = walk pm root x) ->
            (forall x, u32 x -> x / 4096 <> va / 4096 ->
               walk pm root x = Unmapped -> walk pm2 root x = Unmapped) ->
            forall x, u32 x -> x / 4096 <> va / 4096 ->
              walk pm2 root x = walk pm root x).
  { intros pm2 Hk Hu x Hx Hne.
    destruct (walk pm root x) as [|pa w] eqn:E.
    - apply Hu; auto.
    - rewrite Hk; auto. rewrite E. discriminate. }
  pose proof (Z.mod_pos_bound (L1 pm root i) 2 ltac:(lia)) as Hb1.
  destruct (L1 pm root i mod 2 =? 0) eqn:EP.
  - apply Z.eqb_eq in EP.
    destruct free as [|T [|d0 free2]]; try discriminate.
    intros E. injection E as <- <- <-.
    destruct (install_table root pm T (d0 :: free2) i Hwf Hi EP)
      as (Hwf1 & Hw1 & HL1 & HL2).
    pose proof (install_table_apart root pm T (d0 :: free2) i Hwf Hap Hi EP) as Hap1.
    pose proof (install_table_others root pm T (d0 :: free2) i Hwf Hi EP) as Ho1.
    set (pm1 := store_entry pm (root + 4 * i) (T + 3)) in *.
    assert (HT : frame T) by (apply (wf_free _ _ _ Hwf); left; reflexivity).
    destruct (flags_entry T HT) as (Er & Ef & Ep & Ew).
    assert (P1 : L1 pm1 root i mod 2 = 1) by (rewrite HL1; exact Ep).
    destruct (install_page root pm1 d0 free2 i j Hwf1 Hi Hj P1 (HL2 j Hj))
      as (Hwf2 & Hw2 & Hm2).
    pose proof (install_page_apart root pm1 d0 free2 i j Hwf1 Hap1 Hi Hj P1) as Hap2.
    pose proof (install_page_others root pm1 d0 free2 i j Hwf1 Hap1 Hi Hj P1) as Ho2.
    rewrite HL1, Ef in Hwf2, Hw2, Hm2, Hap2, Ho2.
    pose proof (wf_nodup _ _ _ Hwf1) as Hnd. inversion Hnd as [|? ? Hnin _]; subst.
    split; [exact Hwf2|]. split; [exact Hap2|].
    split; [right; left; reflexivity|]. split; [exact Hnin|]. split.
    + intros x Hx Hp. destruct (same_page_indices x va Hp) as [Ei Ej].
      apply Hm2; auto.
    + apply Hoff.
      * intros x Hx Hmx. rewrite Hw2; auto. rewrite Hw1; auto.
      * intros x Hx Hne Hux. apply Ho2; auto.
        apply other_page_indices; exact Hne.
  - apply Z.eqb_neq in EP. assert (P1 : L1 pm root i mod 2 = 1) by lia.
    destruct free as [|d0 free2]; try discriminate.
    intros E. injection E as <- <- <-.
    assert (P2 : L2 pm root i j mod 2 = 0).
    { apply (walk_Unmapped _ root va Hr Hv) in Hw. cbv zeta in Hw.
      destruct (walk_L pm root va Hr Hv) as (_ & E1 & E2). rewrite E2, E1 in Hw.
      fold i j in Hw. destruct Hw as [Hw|Hw]; [lia|exact Hw]. }
    destruct (install_page root pm d0 free2 i j Hwf Hi Hj P1 P2)
      as (Hwf2 & Hw2 & Hm2).
    pose proof (install_page_apart root pm d0 free2 i j Hwf Hap Hi Hj P1) as Hap2.
    pose proof (install_page_others root pm d0 free2 i j Hwf Hap Hi Hj P1) as Ho2.
    pose proof (wf_nodup _ _ _ Hwf) as Hnd. inversion Hnd as [|? ? Hnin _]; subst.
    split; [exact Hwf2|]. split; [exact Hap2|].
    split; [left; reflexivity|]. split; [exact Hnin|]. split.
    + intros x Hx Hp. destruct (same_page_indices x va Hp) as [Ei Ej].
      apply Hm2; auto.
    + apply Hoff; [exact Hw2|].
      intros x Hx Hne Hux. apply Ho2; auto.
      apply other_page_indices; exact Hne.
Qed.

(** X12.  Run with paging disabled on an unmapped page of a well-formed
    table, [AllocateAndMapPage] either ends the program because the
    allocator is empty, or returns with the page mapped writable on a frame
    taken from the allocator, each address of the page at its offset in that
    frame, and with every other page translated exactly as before. *)
Theorem AllocateAndMapPage_maps_the_page_only :
  forall (root : Z) (s : ProcessTrace) (vaddr : Z),
    vm_enable (pmcb (memory s)) = false ->
    page_table_base (vmem_pmcb s) = root ->
    well_formed root (pmem (memory s)) (allocator s) ->
    apart root (pmem (memory s)) ->
    u32 vaddr -> walk (pmem (memory s)) root vaddr = Unmapped ->
    match AllocateAndMapPage s vaddr with
    | Done _ s' =>
        exists d,
          In d (allocator s) /\ ~ In d (allocator s')
          /\ (forall x, u32 x -> x / 4096 = vaddr / 4096 ->
                walk (pmem (memory s')) root x = Mapped (d + x mod 4096) true)
          /\ (forall x, u32 x -> x / 4096 <> vaddr / 4096 ->
                walk (pmem (memory s')) root x = walk (pmem (memory s)) root x)
    | Stop f _ => f = Allocator_exhausted
    | Timeout => False
    end.
Proof.
  intros root s vaddr Hvm Hb Hwf Hap Hv Hw.
  pose proof (AllocateAndMapPage_physical root s vaddr Hvm Hb Hwf Hv Hw) as H.
  destruct (AllocateAndMapPage s vaddr) as [u s'|f s'|]; auto.
  destruct H as [d E]. exists d.
  destruct (map_page_spec _ _ _ _ _ _ _ Hwf Hap Hv Hw E) as (_ & _ & A & B & C & D).
  auto.
Qed.

(** The bytes of every page mapped in [pm] are in [pm'] what they were. *)
Definition bytes_kept (root : Z) (pm pm' : gmap Z Z) : Prop :=
  forall x pa w, u32 x -> walk pm root x = Mapped pa w -> pm' !! pa = pm !! pa.

Lemma store_entry_lookup pm a e pa :
  pa < a \/ a + 3 < pa -> store_entry pm a e !! pa = pm !! pa.
Proof.
  intros H. unfold store_entry. rewrite !lookup_insert_ne by lia. reflexivity.
Qed.

(** A page is no table: the entries [AllocateAndMapPage] stores are not in
    the frame of a mapped page. *)
Lemma map_page_bytes root pm va free pm' d free' :
  well_formed root pm free -> u32 va ->
  map_page_mem pm root va free = Some (pm', d, free') ->
  bytes_kept root pm pm'.
Proof.
  intros Hwf Hv E x pa w Hx Hw. pose proof Hwf as [Hr Hrf Hf Hn Hc Ht Hp].
  pose proof (l1_index_range va Hv) as Hi.
  pose proof (l2_index_range va) as Hj.
  pose proof (l1_index_range x Hx) as Hix.
  pose proof (l2_index_range x) as Hjx.
  apply (walk_Mapped pm root x pa w Hr Hx) in Hw. cbv zeta in Hw.
  destruct (walk_L pm root x Hr Hx) as (_ & E1 & E2). rewrite E2, E1 in Hw.
  destruct Hw as (P1 & P2 & -> & _).
  destruct (Hp _ _ Hix Hjx P1 P2) as (Dr & Df & Dt).
  pose proof (frame_of_L2 pm root (x / 4194304) ((x / 4096) mod 1024)) as HD.
  set (D := frame_of (L2 pm root (x / 4194304) ((x / 4096) mod 1024))) in *.
  assert (Hpa : D <= D + x mod 4096 < D + 4096).
  { pose proof (Z.mod_pos_bound x 4096 ltac:(lia)). lia. }
  unfold map_page_mem in E. cbv zeta in E.
  set (i := va / 4194304) in *. set (j := (va / 4096) mod 1024) in *.
  pose proof (Z.mod_pos_bound (L1 pm root i) 2 ltac:(lia)) as Hb1.
  destruct (L1 pm root i mod 2 =? 0) eqn:EP.
  - destruct free as [|T [|d0 free2]]; try discriminate.
    injection E as <- _ _.
    assert (HT : frame T) by (apply Hf; left; reflexivity).
    rewrite !store_entry_lookup; [reflexivity| |].
    + apply (frames_disjoint root D i _ Hr HD); auto.
    + apply (frames_disjoint T D j _ HT HD); auto.
      intros ->. apply Df. left. reflexivity.
  - apply Z.eqb_neq in EP.
    destruct free as [|d0 free2]; try discriminate.
    injection E as <- _ _.
    rewrite store_entry_lookup; [reflexivity|].
    apply (frames_disjoint _ D j _ (frame_of_L1 pm root i) HD); auto.
    intros Eq. apply (Dt i Hi ltac:(lia)). symmetry. exact Eq.
Qed.

(* ===================================================================== *)
(** ** What the writing handlers keep *)
(* ===================================================================== *)

(** Every page mapped in [pm] is translated in [pm'] as in [pm]. *)
Definition maps_kept (root : Z) (pm pm' : gmap Z Z) : Prop :=
  forall x, u32 x -> walk pm root x <> Unmapped -> walk pm' root x = walk pm root x.

Lemma maps_kept_refl root pm : maps_kept root pm pm.
Proof. intros x _ _. reflexivity. Qed.

Lemma maps_kept_trans root pm1 pm2 pm3 :
  maps_kept root pm1 pm2 -> maps_kept root pm2 pm3 -> maps_kept root pm1 pm3.
Proof.
  intros H12 H23 x Hx Hm. rewrite H23; auto. rewrite H12; auto.
Qed.

Lemma same_tables_trans root pm1 pm2 pm3 :
  same_tables root pm1 pm2 -> same_tables root pm2 pm3 -> same_tables root pm1 pm3.
Proof.
  intros [A1 A2] [B1 B2]. split.
  - intros i Hi. rewrite B1, A1; auto.
  - intros i j Hi Hj P. rewrite B2, A2; auto. rewrite A1; auto.
Qed.

Lemma same_tables_refl root pm : same_tables root pm pm.
Proof. split; auto. Qed.

(** A byte-range write through the table leaves the table as it is. *)
Lemma write_seq_same_tables root c free data : forall pm va pm' va' e,
  vm_enable c = true -> page_table_base c = root ->
  well_formed root pm free -> u32 va ->
  write_seq c pm va data = (pm', va', e) ->
  same_tables root pm pm'.
Proof.
  induction data as [|b data IH]; intros pm va pm' va' e Hvm Hb Hwf Hv H; simpl in H.
  - injection H as <- _ _. apply same_tables_refl.
  - unfold translate in H. rewrite Hvm, Hb in H.
    destruct (walk pm root va) as [|pa w] eqn:EW.
    + injection H as <- _ _. apply same_tables_refl.
    + destruct w; [|injection H as <- _ _; apply same_tables_refl].
      destruct (write_byte_same_tables root pm free va pa true b Hwf Hv EW)
        as [Hst Hcl].
      pose proof (same_tables_wf root pm _ free Hwf Hst Hcl) as Hwf1.
      eapply same_tables_trans; [exact Hst|].
      exact (IH _ _ _ _ _ Hvm Hb Hwf1 (wrap32_range _) H).
Qed.

(** The state between two passes of a writing loop that started with
    memory [pm0]: a well-formed table with distinct frames, the saved
    context the virtual one, and every page mapped at the start still
    mapped where it was. *)
Definition steady (root : Z) (pm0 : gmap Z Z) (s : ProcessTrace) : Prop :=
  well_formed root (pmem (memory s)) (allocator s)
  /\ apart root (pmem (memory s))
  /\ virtual_context root (vmem_pmcb s)
  /\ maps_kept root pm0 (pmem (memory s)).

Lemma on_page_fault_steady {V : Type} root pm0 s start n (v : Z -> V) st s' :
  virtual_context root (pmcb (memory s)) ->
  well_formed root (pmem (memory s)) (allocator s) ->
  apart root (pmem (memory s)) ->
  maps_kept root pm0 (pmem (memory s)) ->
  u32 (next_vaddress (pmcb (memory s))) ->
  walk (pmem (memory s)) root (next_vaddress (pmcb (memory s))) = Unmapped ->
  on_page_fault s start n v = Done st s' ->
  steady root pm0 s'
  /\ bytes_kept root (pmem (memory s)) (pmem (memory s'))
  /\ match st with
     | Exit _ => pmem (memory s') = pmem (memory s)
     | Again x =>
         x = v (wrap32 (next_vaddress (pmcb (memory s)) - start))
         /\ wrap32 (next_vaddress (pmcb (memory s)) - start) <> n
     end.
Proof.
  intros Hvc Hwf Hap Hk Hm Hun H. pose proof Hwf as [Hr _ _ _ _ _ _].
  apply on_page_fault_cases in H. cbv zeta in H.
  destruct H as [(-> & _ & ->)|[(-> & _ & -> & _)|(-> & Hne & H)]].
  - unfold steady. simpl. split; [auto|]. split; [intros ? ? ? ? ?|]; reflexivity.
  - unfold steady. simpl. split; [auto|]. split; [intros ? ? ? ? ?|]; reflexivity.
  - apply recover_cases in H as [(E & _)|(_ & _ & s1 & HA & ->)]; [discriminate|].
    cut (steady root pm0
           (with_allocated_pages
              (note s1 (Recovered (recovery_page
                 (note (with_vmem_pmcb s (get_PMCB (memory s)))
                    (Faulted (next_vaddress (pmcb (memory s))))))))
              (allocated_pages s1 + 1))
         /\ bytes_kept root (pmem (memory s)) (pmem (memory s1))).
    { intros [A B]. split; [exact A|]. split; [exact B|]. split; [reflexivity|exact Hne]. }
    unfold recovery_page in HA. simpl in HA. unfold get_PMCB in HA.
    destruct (page_of_marker _ Hm) as (Ep & Hpu & Hpp). rewrite Ep in HA.
    set (page := 4096 * (next_vaddress (pmcb (memory s)) / 4096)) in *.
    assert (Hwp : walk (pmem (memory s)) root page = Unmapped).
    { apply (walk_Unmapped_page _ root (next_vaddress (pmcb (memory s)))); auto. }
    match type of HA with
    | AllocateAndMapPage ?t _ = _ =>
        pose proof (AllocateAndMapPage_physical root t page eq_refl (proj2 Hvc)
                      Hwf Hpu Hwp) as HP;
        pose proof (AllocateAndMapPage_fields t page tt s1 HA) as HF
    end.
    rewrite HA in HP. destruct HP as [d E]. simpl in E.
    destruct (map_page_spec _ _ _ _ _ _ _ Hwf Hap Hpu Hwp E)
      as (Hwf1 & Hap1 & _ & _ & _ & Hoff).
    pose proof (map_page_bytes _ _ _ _ _ _ _ Hwf Hpu E) as Hbk.
    destruct HF as (_ & _ & _ & _ & Hvp & _). simpl in Hvp.
    split; [|exact Hbk].
    unfold steady. simpl. rewrite Hvp. unfold get_PMCB.
    split; [exact Hwf1|]. split; [exact Hap1|]. split; [exact Hvc|].
    eapply maps_kept_trans; [exact Hk|].
    intros x Hx Hmx. apply Hoff; [exact Hx|].
    intros Epg. apply Hmx.
    apply (walk_Unmapped_page _ root page); auto.
Qed.

Lemma CmdPut_body_steady root pm0 addr n buffer s w st s' :
  u32 addr -> steady root pm0 s ->
  CmdPut_body addr n buffer s w = Done st s' ->
  steady root pm0 s'.
Proof.
  intros Ha (Hwf & Hap & Hv & Hk). unfold CmdPut_body, put_bytes. simpl.
  destruct (write_seq _ _ _ _) as [[pm' va'] e] eqn:EW.
  pose proof (write_seq_same_tables root (clear_operation (vmem_pmcb s))
                (allocator s) _ _ _ _ _ _ (proj1 Hv) (proj2 Hv) Hwf Ha EW) as Hst.
  apply (write_seq_wf root _ (allocator s)) in EW; auto; try apply Hv.
  destruct EW as (Hwf' & Hw' & j & Hj & -> & Hpre & He).
  assert (Hk' : maps_kept root pm0 pm').
  { eapply maps_kept_trans; [exact Hk|]. intros x Hx _. apply Hw', Hx. }
  pose proof (same_tables_apart root _ _ Hst Hap) as Hap'.
  destruct e as [[]|]; simpl.
  - destruct He as [Hlt Hun]. intros H.
    assert (Hun' : walk pm' root (wrap32 (addr + Z.of_nat j)) = Unmapped)
      by (rewrite Hw' by apply wrap32_range; exact Hun).
    match type of H with
    | on_page_fault ?t _ _ _ = _ =>
        exact (proj1 (on_page_fault_steady root pm0 t addr n (fun x : Z => x) st s'
                 (virtual_after_op root _ WRITE_OP _ _ (virtual_clear root _ Hv))
                 Hwf' Hap' Hk' (wrap32_range _) Hun' H))
    end.
  - unfold on_permission_fault, PrintAndClearException. simpl.
    intros H. injection H as _ <-. unfold steady. simpl.
    split; [exact Hwf'|]. split; [exact Hap'|]. split; [|exact Hk'].
    apply virtual_clear, virtual_after_op, virtual_clear, Hv.
  - intros H. injection H as _ <-. unfold steady. simpl.
    split; [exact Hwf'|]. split; [exact Hap'|]. split; [|exact Hk'].
    apply virtual_clear, Hv.
Qed.

Lemma fill_bytes_same_tables root k : forall s addr w val s' addr' w' e,
  virtual_context root (pmcb (memory s)) ->
  well_formed root (pmem (memory s)) (allocator s) ->
  u32 addr ->
  fill_bytes k s addr w val = (s', addr', w', e) ->
  same_tables root (pmem (memory s)) (pmem (memory s')).
Proof.
  induction k as [|k IH]; intros s addr w val s' addr' w' e Hvc Hwf Ha; simpl.
  - intros H. injection H as <- _ _ _. apply same_tables_refl.
  - unfold put_byte, put_bytes.
    destruct (write_seq _ _ _ _) as [[pm1 va1] e1] eqn:EW.
    pose proof (write_seq_same_tables root _ (allocator s) _ _ _ _ _ _
                  (proj1 Hvc) (proj2 Hvc) Hwf Ha EW) as Hst.
    apply (write_seq_wf root _ (allocator s)) in EW; auto; try apply Hvc.
    destruct EW as (Hwf1 & _).
    destruct e1 as [x|].
    + intros H. injection H as <- _ _ _. simpl. exact Hst.
    + intros H. eapply same_tables_trans; [exact Hst|].
      match type of H with
      | fill_bytes _ ?t _ _ _ = _ =>
          exact (IH t _ _ _ _ _ _ _ (virtual_after_op root _ WRITE_OP va1 None Hvc)
                   Hwf1 (wrap32_range _) H)
      end.
Qed.

Lemma CmdFill_body_steady root pm0 n val start s v st s' :
  u32 (fst v) -> u32 (snd v) -> steady root pm0 s ->
  CmdFill_body n val start s v = Done st s' ->
  steady root pm0 s'
  /\ match st with
     | Again v' => u32 (fst v') /\ u32 (snd v')
     | Exit _ => True
     end.
Proof.
  intros Ha Hw (Hwf & Hap & Hv & Hk). unfold CmdFill_body.
  destruct v as [addr w]. simpl in Ha, Hw.
  destruct (fill_bytes _ _ _ _ _) as [[[s1 a1] w1] e] eqn:EF.
  pose proof (virtual_clear root _ Hv) as Hvc.
  match type of EF with
  | fill_bytes ?k ?t _ _ _ = _ =>
      pose proof (fill_bytes_same_tables root k t addr w val s1 a1 w1 e Hvc Hwf Ha EF)
        as Hst;
      pose proof (fill_bytes_spec k t addr w val s1 a1 w1 e Ha Hw EF)
        as (_ & _ & _ & Hal & Hvp & Hvm & Hb & _);
      pose proof (fill_bytes_wf root k t addr w val s1 a1 w1 e Hvc Hwf Ha Hw EF)
        as (Hwf1 & Hw1 & j & Hj & -> & -> & Hpre & He)
  end.
  simpl in *.
  assert (Hk1 : maps_kept root pm0 (pmem (memory s1))).
  { eapply maps_kept_trans; [exact Hk|]. intros x Hx _. apply Hw1, Hx. }
  pose proof (same_tables_apart root _ _ Hst Hap) as Hap1.
  assert (Hvc1 : virtual_context root (pmcb (memory s1))).
  { split; [rewrite Hvm|rewrite Hb]; apply Hv. }
  assert (Hv1 : virtual_context root (vmem_pmcb s1)) by (rewrite Hvp; exact Hvc).
  destruct e as [[]|].
  - destruct He as (Hlt & Hmark & Hun). intros H.
    assert (Hun' : walk (pmem (memory s1)) root (next_vaddress (pmcb (memory s1)))
                   = Unmapped).
    { rewrite Hmark, Hw1 by apply wrap32_range. apply Hun. reflexivity. }
    assert (Hm : u32 (next_vaddress (pmcb (memory s1))))
      by (rewrite Hmark; apply wrap32_range).
    destruct (on_page_fault_steady root pm0 s1 start n _ st s'
                Hvc1 Hwf1 Hap1 Hk1 Hm Hun' H) as (Hs' & _ & Hst').
    split; [exact Hs'|]. destruct st as [x|b]; [|exact I].
    destruct Hst' as (-> & _). simpl. split; apply wrap32_range.
  - unfold on_permission_fault, PrintAndClearException. simpl.
    intros H. injection H as <- <-. unfold steady. simpl.
    split; [|exact I].
    split; [exact Hwf1|]. split; [exact Hap1|]. split; [|exact Hk1].
    apply virtual_clear. exact Hvc1.
  - destruct (_ =? n); intros H; injection H as <- <-; unfold steady.
    + auto.
    + simpl. split; [auto|]. split; apply wrap32_range.
Qed.

(** The loop of a writing handler keeps the state steady. *)
Lemma loop_steady {V : Type} (body : ProcessTrace -> V -> Result (Loop V))
    (J : V -> Prop) root pm0 :
  (forall s v st s', J v -> steady root pm0 s -> body s v = Done st s' ->
     steady root pm0 s' /\ match st with Again v' => J v' | Exit _ => True end) ->
  forall fuel s v b s', J v -> steady root pm0 s ->
    leave (while fuel body s v) = Done b s' -> steady root pm0 s'.
Proof.
  intros Hb fuel s v b s' HJ Hs H.
  assert (Hw : forall b1 s1, while fuel body s v = Done b1 s1 -> steady root pm0 s1).
  { intros b1 s1 E.
    refine (while_partial body (fun s v => steady root pm0 s /\ J v)
              (fun _ s1 => steady root pm0 s1) _ fuel s v b1 s1 (conj Hs HJ) E).
    intros s2 v2 [Hs2 HJ2].
    destruct (body s2 v2) as [[v'|b2] s3|f s3|] eqn:EB; auto.
    - destruct (Hb s2 v2 _ s3 HJ2 Hs2 EB) as [A B]. auto.
    - destruct (Hb s2 v2 _ s3 HJ2 Hs2 EB) as [A B]. auto. }
  unfold leave, bind in H.
  destruct (while fuel body s v) as [b1 s1|f s1|] eqn:E; try discriminate.
  specialize (Hw b1 s1 eq_refl).
  destruct b1; injection H as _ <-; [|exact Hw].
  destruct Hw as (A & B & C & D). unfold steady. simpl. auto.
Qed.

Lemma CmdPut_steady root s cmdArgs b s' :
  virtual_context root (vmem_pmcb s) ->
  well_formed root (pmem (memory s)) (allocator s) ->
  apart root (pmem (memory s)) -> Forall u32 cmdArgs ->
  CmdPut s cmdArgs = Done b s' -> steady root (pmem (memory s)) s'.
Proof.
  intros Hv Hwf Hap Hu. unfold CmdPut, at_, bind.
  destruct (nth_error cmdArgs 0) as [addr|] eqn:E0; [|discriminate].
  pose proof (Forall_nth_error _ _ _ _ Hu E0) as Ha.
  apply (loop_steady _ (fun _ => True) root (pmem (memory s))); auto.
  - intros s1 v st s2 _ Hs1 H. split; [|destruct st; exact I].
    exact (CmdPut_body_steady root _ _ _ _ _ _ _ _ Ha Hs1 H).
  - unfold steady. auto using maps_kept_refl.
Qed.

Lemma CmdFill_steady root s cmdArgs b s' :
  virtual_context root (vmem_pmcb s) ->
  well_formed root (pmem (memory s)) (allocator s) ->
  apart root (pmem (memory s)) -> Forall u32 cmdArgs ->
  CmdFill s cmdArgs = Done b s' -> steady root (pmem (memory s)) s'.
Proof.
  intros Hv Hwf Hap Hu. unfold CmdFill, at_, bind.
  destruct (nth_error cmdArgs 0) as [addr|] eqn:E0; [|discriminate].
  destruct (nth_error cmdArgs 1) as [n|] eqn:E1; [|discriminate].
  destruct (nth_error cmdArgs 2) as [val|] eqn:E2; [|discriminate].
  pose proof (Forall_nth_error _ _ _ _ Hu E0) as Ha.
  apply (loop_steady _ (fun v => u32 (fst v) /\ u32 (snd v)) root (pmem (memory s))).
  - intros s1 v st s2 [Hv1 Hv2] Hs1 H.
    exact (CmdFill_body_steady root _ _ _ _ _ _ _ _ Hv1 Hv2 Hs1 H).
  - simpl. split; [exact Ha|unfold u32; lia].
  - unfold steady. auto using maps_kept_refl.
Qed.

Lemma CmdCopy_steady root s cmdArgs b s' :
  in_virtual_mode root s ->
  well_formed root (pmem (memory s)) (allocator s) ->
  apart root (pmem (memory s)) -> Forall u32 cmdArgs ->
  CmdCopy s cmdArgs = Done b s' -> steady root (pmem (memory s)) s'.
Proof.
  intros [Hm Hv] Hwf Hap Hu. unfold CmdCopy, at_, bind.
  destruct (nth_error cmdArgs 0) as [dst|] eqn:E0; [|discriminate].
  destruct (nth_error cmdArgs 1) as [src|] eqn:E1; [|discriminate].
  destruct (nth_error cmdArgs 2) as [n|] eqn:E2; [|discriminate].
  pose proof (Forall_nth_error _ _ _ _ Hu E0) as Ha.
  unfold get_bytes. destruct (read_seq _ _ _ _) as [[bs va] e].
  assert (Hb : forall x buf s1 (v : Z) st s2, True -> steady root (pmem (memory s)) s1 ->
             CmdCopy_body dst x buf s1 v = Done st s2 ->
             steady root (pmem (memory s)) s2
             /\ match st with Again _ => True | Exit _ => True end).
  { intros x buf s1 v st s2 _ Hs1 H. split; [|destruct st; exact I].
    exact (CmdPut_body_steady root _ _ _ _ _ _ _ _ Ha Hs1 H). }
  destruct e as [[]|]; [|discriminate|].
  - apply (loop_steady _ (fun _ => True) root (pmem (memory s)) (Hb _ _)); auto.
    unfold steady. simpl. unfold get_PMCB. simpl.
    split; [exact Hwf|]. split; [exact Hap|].
    split; [apply virtual_clear, virtual_after_op, Hm|apply maps_kept_refl].
  - apply (loop_steady _ (fun _ => True) root (pmem (memory s)) (Hb _ _)); auto.
    unfold steady. simpl. unfold get_PMCB. simpl.
    split; [exact Hwf|]. split; [exact Hap|].
    split; [apply virtual_after_op, Hm|apply maps_kept_refl].
Qed.

(* ===================================================================== *)
(** ** Pages stay where they are *)
(* ===================================================================== *)

(** A sound process whose pages are on distinct frames. *)
Definition tidy (root : Z) (s : ProcessTrace) : Prop :=
  sound root s /\ apart root (pmem (memory s)).

(** Every page mapped in [pm] is mapped in [pm'] on the same frame. *)
Definition frames_kept (root : Z) (pm pm' : gmap Z Z) : Prop :=
  forall x pa w, u32 x -> walk pm root x = Mapped pa w ->
    exists w', walk pm' root x = Mapped pa w'.

Lemma frames_kept_refl root pm : frames_kept root pm pm.
Proof. intros x pa w _ H. eauto. Qed.

Lemma frames_kept_trans root pm1 pm2 pm3 :
  frames_kept root pm1 pm2 -> frames_kept root pm2 pm3 -> frames_kept root pm1 pm3.
Proof.
  intros H12 H23 x pa w Hx H. destruct (H12 x pa w Hx H) as [w' H'].
  exact (H23 x pa w' Hx H').
Qed.

Lemma maps_kept_frames root pm pm' : maps_kept root pm pm' -> frames_kept root pm pm'.
Proof.
  intros H x pa w Hx E. exists w. rewrite H; auto. rewrite E. discriminate.
Qed.

Lemma same_mapping_frames w root pm pm' :
  frame root -> same_mapping w pm pm' -> frames_kept root pm pm'.
Proof.
  intros Hr Hm x pa w0 Hx E.
  pose proof (same_mapping_walk w pm pm' root x Hr Hx Hm) as H.
  rewrite E in H. destruct (walk pm' root x) as [|pa' w']; simpl in H; [contradiction|].
  subst pa'. eauto.
Qed.

(** The memory [writable] leaves differs from the one it found in
    writable bits only. *)
Lemma CmdWritable_mapping root s cmdArgs u s' :
  sound root s -> Forall u32 cmdArgs ->
  CmdWritable s cmdArgs = Done u s' ->
  exists w, same_mapping w (pmem (memory s)) (pmem (memory s')).
Proof.
  intros [Hv Hwf] Hu. unfold CmdWritable, at_, bind.
  destruct (nth_error cmdArgs 0) as [vaddr|] eqn:E0; [|discriminate].
  destruct (nth_error cmdArgs 1) as [bc|]; [|discriminate].
  destruct (nth_error cmdArgs 2) as [flag|]; [|discriminate].
  pose proof (Forall_nth_error _ _ _ _ Hu E0) as Ha.
  set (s0 := with_memory (with_vmem_pmcb s (get_PMCB (memory s))) _).
  destruct (writable_pages_physical root (Z.to_nat (bc / kPageSize)) s0 vaddr
              (negb (flag =? 0))) as (s1 & E & Hm); auto.
  - destruct Hv as [[_ Hb] _]. exact Hb.
  - apply Hwf.
  - rewrite E. intros H. injection H as _ <-. simpl. rewrite Hm. simpl.
    exists (negb (flag =? 0)).
    apply writable_pages_mem_same_mapping; [apply Hwf|exact Ha].
Qed.

(** One round of the command loop keeps the frames distinct and every
    mapped page on its frame. *)
Lemma Execute_body_kept root s i st s' :
  tidy root s -> Execute_body s i = Done st s' ->
  apart root (pmem (memory s'))
  /\ frames_kept root (pmem (memory s)) (pmem (memory s')).
Proof.
  intros [Hs Hap]. unfold Execute_body, bind.
  pose proof (ParseCommand_sound root s Hs) as HP.
  assert (HM : forall p s1, ParseCommand s = Done p s1 -> memory s1 = memory s).
  { unfold ParseCommand. intros p s1.
    destruct (trace s) as [|l rest]; [intros H; injection H as _ <-; reflexivity|].
    destruct l as [|c l]; [discriminate|].
    destruct (negb _).
    - destruct (read_word _) as [w r]. intros H. injection H as _ <-. reflexivity.
    - intros H. injection H as _ <-. reflexivity. }
  destruct (ParseCommand s) as [[[[ok line] cmd] cmdArgs] s1|f s1|]; try discriminate.
  simpl in HP. destruct HP as [Hs1 Hu].
  rewrite <- (HM _ s1 eq_refl) in *. clear HM.
  assert (Hsame : forall s2, pmem (memory s2) = pmem (memory s1) ->
            apart root (pmem (memory s2))
            /\ frames_kept root (pmem (memory s1)) (pmem (memory s2))).
  { intros s2 ->. split; [exact Hap|apply frames_kept_refl]. }
  assert (Hsteady : forall s2, steady root (pmem (memory s1)) s2 ->
            apart root (pmem (memory s2))
            /\ frames_kept root (pmem (memory s1)) (pmem (memory s2))).
  { intros s2 (_ & A & _ & K). split; [exact A|apply maps_kept_frames, K]. }
  destruct ok; [|intros H; injection H as _ <-; apply Hsame; reflexivity].
  destruct Hs1 as [Hvm Hwf].
  destruct (cmd =? "quota")%string.
  { unfold CmdQuota, at_, bind. destruct (nth_error cmdArgs 0); [|discriminate].
    intros H. injection H as _ <-. apply Hsame. reflexivity. }
  destruct (cmd =? "compare")%string.
  { pose proof (CmdCompare_only_read s1 cmdArgs) as Hc.
    destruct (CmdCompare s1 cmdArgs) as [u s2|f s2|]; try discriminate.
    intros H. injection H as _ <-. apply Hsame, Hc. }
  destruct (cmd =? "put")%string.
  { pose proof (CmdPut_steady root s1 cmdArgs) as Hc.
    destruct (CmdPut s1 cmdArgs) as [b s2|f s2|]; try discriminate.
    specialize (Hc b s2 (proj2 Hvm) Hwf Hap Hu eq_refl).
    destruct b; simpl; intros H; injection H as _ <-; apply Hsteady, Hc. }
  destruct (cmd =? "fill")%string.
  { pose proof (CmdFill_steady root s1 cmdArgs) as Hc.
    destruct (CmdFill s1 cmdArgs) as [b s2|f s2|]; try discriminate.
    specialize (Hc b s2 (proj2 Hvm) Hwf Hap Hu eq_refl).
    destruct b; simpl; intros H; injection H as _ <-; apply Hsteady, Hc. }
  destruct (cmd =? "copy")%string.
  { pose proof (CmdCopy_steady root s1 cmdArgs) as Hc.
    destruct (CmdCopy s1 cmdArgs) as [b s2|f s2|]; try discriminate.
    specialize (Hc b s2 Hvm Hwf Hap Hu eq_refl).
    destruct b; simpl; intros H; injection H as _ <-; apply Hsteady, Hc. }
  destruct (cmd =? "dump")%string.
  { pose proof (CmdDump_only_read s1 cmdArgs) as Hc.
    destruct (CmdDump s1 cmdArgs) as [u s2|f s2|]; try discriminate.
    intros H. injection H as _ <-. apply Hsame, Hc. }
  destruct (cmd =? "writable")%string.
  { pose proof (CmdWritable_mapping root s1 cmdArgs) as Hc.
    destruct (CmdWritable s1 cmdArgs) as [u s2|f s2|]; try discriminate.
    destruct (Hc u s2 (conj Hvm Hwf) Hu eq_refl) as [w Hm].
    intros H. injection H as _ <-. split.
    - exact (same_mapping_apart w root _ _ (wf_root _ _ _ Hwf) Hm Hap).
    - exact (same_mapping_frames w root _ _ (wf_root _ _ _ Hwf) Hm). }
  destruct (negb _); [discriminate|].
  intros H. injection H as _ <-. apply Hsame. reflexivity.
Qed.

Lemma rounds_kept root k : forall s i s',
  tidy root s -> rounds k s i = Some s' ->
  tidy root s' /\ frames_kept root (pmem (memory s)) (pmem (memory s')).
Proof.
  induction k as [|k IH]; intros s i s' Hs; simpl.
  - intros E. injection E as <-. split; [exact Hs|apply frames_kept_refl].
  - pose proof (Execute_body_sound root s i (proj1 Hs)) as Hs1.
    pose proof (Execute_body_kept root s i) as HK.
    destruct (Execute_body s i) as [[|r] s1|f s1|]; try discriminate.
    destruct (HK _ s1 Hs eq_refl) as [Hap1 Hk1]. intros Hr.
    destruct (IH s1 (i + 1) s' (conj Hs1 Hap1) Hr) as [Hs' Hk'].
    split; [exact Hs'|]. eapply frames_kept_trans; eauto.
Qed.

(** X13.  Pages are never unmapped and never moved: after any number of
    rounds of the command loop, whatever the commands were, every page that
    was mapped is still mapped on the same frame, and no two pages share a
    frame; only its writable bit may have changed. *)
Theorem mapped_pages_stay_on_their_frames :
  forall (root : Z) (k : nat) (s : ProcessTrace) (i : Z) (s' : ProcessTrace),
    sound root s -> apart root (pmem (memory s)) ->
    rounds k s i = Some s' ->
    (forall x pa w, u32 x -> walk (pmem (memory s)) root x = Mapped pa w ->
       exists w', walk (pmem (memory s')) root x = Mapped pa w')
    /\ sound root s' /\ apart root (pmem (memory s')).
Proof.
  intros root k s i s' Hs Hap Hr.
  destruct (rounds_kept root k s i s' (conj Hs Hap) Hr) as [[Hs' Hap'] Hk].
  split; [exact Hk|]. split; assumption.
Qed.

(* ===================================================================== *)
(** ** Reading back what was written *)
(* ===================================================================== *)

(** Over distinct frames, two addresses translated to the same physical
    address are the same address. *)
Lemma walk_injective root pm free x y pa w w' :
  well_formed root pm free -> apart root pm -> u32 x -> u32 y ->
  walk pm root x = Mapped pa w -> walk pm root y = Mapped pa w' -> x = y.
Proof.
  intros Hwf [_ Ap] Hx Hy Ex Ey. pose proof Hwf as [Hr _ _ _ _ _ _].
  apply (walk_Mapped pm root x pa w Hr Hx) in Ex. cbv zeta in Ex.
  apply (walk_Mapped pm root y pa w' Hr Hy) in Ey. cbv zeta in Ey.
  destruct (walk_L pm root x Hr Hx) as (_ & E1 & E2). rewrite E2, E1 in Ex.
  destruct (walk_L pm root y Hr Hy) as (_ & E1' & E2'). rewrite E2', E1' in Ey.
  destruct Ex as (P1 & P2 & Epa & _). destruct Ey as (Q1 & Q2 & Epa' & _).
  pose proof (l1_index_range x Hx) as Hix. pose proof (l2_index_range x) as Hjx.
  pose proof (l1_index_range y Hy) as Hiy. pose proof (l2_index_range y) as Hjy.
  pose proof (frame_of_L2 pm root (x / 4194304) ((x / 4096) mod 1024)) as [_ Fx].
  pose proof (frame_of_L2 pm root (y / 4194304) ((y / 4096) mod 1024)) as [_ Fy].
  set (fx := frame_of (L2 pm root (x / 4194304) ((x / 4096) mod 1024))) in *.
  set (fy := frame_of (L2 pm root (y / 4194304) ((y / 4096) mod 1024))) in *.
  pose proof (Z.mod_pos_bound x 4096 ltac:(lia)) as Hox.
  pose proof (Z.mod_pos_bound y 4096 ltac:(lia)) as Hoy.
  pose proof (Z.div_mod fx 4096 ltac:(lia)) as Dx.
  pose proof (Z.div_mod fy 4096 ltac:(lia)) as Dy.
  assert (Ef : fx = fy /\ x mod 4096 = y mod 4096) by lia.
  destruct Ef as [Ef Eo].
  destruct (Ap _ _ _ _ Hix Hjx Hiy Hjy P1 P2 Q1 Q2 Ef) as [Ei Ej].
  pose proof (page_indices x) as Px. pose proof (page_indices y) as Py.
  pose proof (Z.div_mod x 4096 ltac:(lia)). pose proof (Z.div_mod y 4096 ltac:(lia)).
  lia.
Qed.

(** A byte-range write changes no physical address other than those its
    bytes are translated to. *)
Lemma write_seq_elsewhere root c free data : forall pm va pm' va' e pa0,
  vm_enable c = true -> page_table_base c = root ->
  well_formed root pm free -> u32 va ->
  write_seq c pm va data = (pm', va', e) ->
  (forall k w, (k < length data)%nat ->
     walk pm root (wrap32 (va + Z.of_nat k)) <> Mapped pa0 w) ->
  pm' !! pa0 = pm !! pa0.
Proof.
  induction data as [|b data IH]; intros pm va pm' va' e pa0 Hvm Hb Hwf Hv H Hne;
    simpl in H.
  - injection H as <- _ _. reflexivity.
  - unfold translate in H. rewrite Hvm, Hb in H.
    destruct (walk pm root va) as [|pa w] eqn:EW.
    + injection H as <- _ _. reflexivity.
    + destruct w; [|injection H as <- _ _; reflexivity].
      destruct (write_byte_same_tables root pm free va pa true b Hwf Hv EW)
        as [Hst Hcl].
      pose proof (same_tables_wf root pm _ free Hwf Hst Hcl) as Hwf1.
      assert (Hw1 : forall x, u32 x -> walk (<[pa := b]> pm) root x = walk pm root x).
      { intros x Hx. apply same_tables_walk; auto. apply Hwf. }
      rewrite (IH _ _ _ _ _ pa0 Hvm Hb Hwf1 (wrap32_range _) H).
      * apply lookup_insert_ne. intros ->.
        apply (Hne 0%nat true); [simpl; lia|].
        simpl. rewrite Z.add_0_r, wrap32_small by exact Hv. exact EW.
      * intros k w Hk. rewrite Hw1 by apply wrap32_range.
        rewrite wrap32_succ.
        replace (1 + Z.of_nat k) with (Z.of_nat (S k)) by lia.
        apply Hne. simpl. lia.
Qed.

(** Over distinct frames, a byte-range write that completes is read back by
    a read of the same range. *)
Lemma write_then_read root c free data : forall pm va pm' va',
  vm_enable c = true -> page_table_base c = root ->
  well_formed root pm free -> apart root pm -> u32 va ->
  Z.of_nat (length data) <= 4294967296 ->
  write_seq c pm va data = (pm', va', None) ->
  read_seq c pm' va (length data) = (map wrap8 data, va', None).
Proof.
  induction data as [|b data IH]; intros pm va pm' va' Hvm Hb Hwf Hap Hv Hlen H.
  - simpl in H. injection H as <- <-. reflexivity.
  - pose proof H as H0. simpl in H.
    unfold translate in H. rewrite Hvm, Hb in H.
    destruct (walk pm root va) as [|pa w] eqn:EW; [discriminate|].
    destruct w; [|discriminate].
    destruct (write_byte_same_tables root pm free va pa true b Hwf Hv EW)
      as [Hst Hcl].
    pose proof (same_tables_wf root pm _ free Hwf Hst Hcl) as Hwf1.
    pose proof (same_tables_apart root _ _ Hst Hap) as Hap1.
    assert (Hw1 : forall x, u32 x -> walk (<[pa := b]> pm) root x = walk pm root x).
    { intros x Hx. apply same_tables_walk; auto. apply Hwf. }
    destruct (write_seq_wf root c free _ _ _ _ _ _ Hvm Hb Hwf Hv H0)
      as (_ & Hw' & _).
    simpl length in *.
    pose proof (IH _ _ _ _ Hvm Hb Hwf1 Hap1 (wrap32_range _) ltac:(lia) H) as HR.
    simpl read_seq. unfold translate. rewrite Hvm, Hb, (Hw' va Hv), EW, HR.
    simpl map. f_equal. f_equal. f_equal.
    unfold byte_at.
    rewrite (write_seq_elsewhere root c free data _ _ _ _ _ pa Hvm Hb Hwf1
               (wrap32_range _) H).
    + rewrite lookup_insert_eq. reflexivity.
    + intros k w Hk E. rewrite Hw1 in E by apply wrap32_range.
      rewrite wrap32_succ in E.
      pose proof (walk_injective root pm free _ _ _ _ _ Hwf Hap
                    (wrap32_range _) Hv E EW) as Eq.
      unfold wrap32, u32 in *.
      rewrite <- (Z.mod_small va 4294967296) in Eq at 2 by lia.
      assert (D : (va + (1 + Z.of_nat k) - va) mod 4294967296 = 0).
      { rewrite Zminus_mod, Eq, Z.sub_diag. reflexivity. }
      replace (va + (1 + Z.of_nat k) - va) with (1 + Z.of_nat k) in D by lia.
      rewrite Z.mod_small in D by lia. lia.
Qed.

(** A read depends on the context only through the mode and the root. *)
Lemma read_seq_context c c' pm n : forall va,
  vm_enable c = vm_enable c' -> page_table_base c = page_table_base c' ->
  read_seq c pm va n = read_seq c' pm va n.
Proof.
  induction n as [|n IH]; intros va Hvm Hb; simpl; [reflexivity|].
  unfold translate. rewrite Hvm, Hb.
  destruct (if vm_enable c' then _ else _); [reflexivity|].
  rewrite (IH _ Hvm Hb). reflexivity.
Qed.

Lemma wrap32_back a j : wrap32 (wrap32 (a + j) - a) = wrap32 j.
Proof.
  unfold wrap32. rewrite Zminus_mod_idemp_l. f_equal. lia.
Qed.

Lemma cons_neq {A : Type} (x : A) l : x :: l <> l.
Proof.
  intros E. apply (f_equal (@length A)) in E. simpl in E. lia.
Qed.

(** What a request of [buffer] at [addr] reads back in memory [pm]. *)
Definition reads_back (root : Z) (pm : gmap Z Z) (addr : Z) (buffer : list Z) : Prop :=
  forall c, virtual_context root c ->
    read_seq c pm addr (length buffer)
    = (map wrap8 buffer, wrap32 (addr + Z.of_nat (length buffer)), None).

(** A pass of [put] that completes without a report has written what is
    read back. *)
Lemma CmdPut_body_reads_back root pm0 addr buffer s w s' :
  u32 addr -> Z.of_nat (length buffer) < 4294967296 ->
  steady root pm0 s ->
  CmdPut_body addr (Z.of_nat (length buffer)) buffer s w = Done (Exit true) s' ->
  cout s' = cout s ->
  reads_back root (pmem (memory s')) addr buffer.
Proof.
  intros Ha Hlen (Hwf & Hap & Hv & Hk). unfold CmdPut_body, put_bytes. simpl.
  destruct (write_seq _ _ _ _) as [[pm' va'] e] eqn:EW.
  pose proof EW as EW0.
  apply (write_seq_wf root _ (allocator s)) in EW; auto; try apply Hv.
  destruct EW as (Hwf' & Hw' & j & Hj & -> & Hpre & He).
  destruct e as [[]|]; simpl.
  - intros H. apply on_page_fault_cases in H. cbv zeta in H. simpl in H.
    destruct H as [(_ & E & _)|[(E & _)|(E & _)]]; try discriminate.
    rewrite wrap32_back in E. unfold wrap32 in E.
    rewrite Z.mod_small in E by lia. lia.
  - unfold on_permission_fault, PrintAndClearException. simpl.
    intros H. injection H as <-. simpl. intros E.
    exfalso. exact (cons_neq _ _ E).
  - intros H. injection H as <-. simpl. intros _ c [Hvm Hb].
    subst j.
    rewrite (read_seq_context c (clear_operation (vmem_pmcb s)));
      [|rewrite Hvm; symmetry; apply Hv|rewrite Hb; symmetry; apply Hv].
    apply (write_then_read root _ (allocator s) buffer (pmem (memory s)));
      auto; try apply Hv; lia.
Qed.

Lemma compare_bytes_equal data : forall s addr,
  Forall (fun b => 0 <= b < 256) data ->
  cout (compare_bytes s addr data data) = cout s.
Proof.
  induction data as [|x data IH]; intros s addr Hd; simpl; [reflexivity|].
  inversion Hd as [|? ? Hx Hd']; subst.
  rewrite Z.eqb_refl. simpl. apply IH, Hd'.
Qed.

Lemma map_wrap8_bytes data :
  Forall (fun b => 0 <= b < 256) data -> map wrap8 data = data.
Proof.
  induction 1 as [|x data Hx _ IH]; simpl; [reflexivity|].
  rewrite IH. unfold wrap8. rewrite Z.mod_small by lia. reflexivity.
Qed.

(** The loop of [put] and [copy]: when it leaves by completion without a
    report, the request is read back. *)
Lemma writing_loop_reads_back root addr buffer fuel s0 s1 :
  u32 addr -> Z.of_nat (length buffer) < 4294967296 ->
  steady root (pmem (memory s0)) s0 ->
  while fuel (CmdPut_body addr (Z.of_nat (length buffer)) buffer) s0 0 = Done true s1 ->
  cout s1 = cout s0 ->
  reads_back root (pmem (memory s1)) addr buffer.
Proof.
  intros Ha Hlen Hs0 H Hc.
  refine (while_partial _
            (fun s2 _ => steady root (pmem (memory s0)) s2 /\ cout s2 = cout s0)
            (fun b s2 => b = true -> cout s2 = cout s0 ->
               reads_back root (pmem (memory s2)) addr buffer)
            _ _ s0 0 true s1 (conj Hs0 eq_refl) H eq_refl Hc).
  intros s2 v [Hs2 Hc2].
  destruct (CmdPut_body _ _ _ s2 v) as [[v'|b] s3|f s3|] eqn:EB; auto.
  - split; [exact (CmdPut_body_steady root _ _ _ _ _ _ _ _ Ha Hs2 EB)|].
    rewrite (CmdPut_body_cout _ _ _ _ _ _ _ EB); [exact Hc2|discriminate].
  - intros -> Hc3.
    apply (CmdPut_body_reads_back root (pmem (memory s0)) addr _ s2 v s3);
      auto; congruence.
Qed.

Lemma wrap8_wrap8 data : map wrap8 (map wrap8 data) = map wrap8 data.
Proof.
  rewrite map_map. apply map_ext. intros b. unfold wrap8. apply Z.mod_mod. lia.
Qed.

(** X14.  What [put] wrote is what is there: when a [put] of fewer than
    [2^32] bytes returns [true] without a report, a read of the same range
    in the state it leaves meets no fault and yields the bytes of the
    request, each reduced to eight bits; and if the arguments were bytes, a
    [compare] with the same arguments reports nothing. *)
Theorem put_is_read_back :
  forall (root : Z) (s : ProcessTrace) (addr : Z) (data : list Z) (s' : ProcessTrace),
    sound root s -> apart root (pmem (memory s)) ->
    u32 addr -> Z.of_nat (length data) < 4294967296 ->
    CmdPut s (addr :: data) = Done true s' -> cout s' = cout s ->
    (exists m, get_bytes (memory s') addr (Z.of_nat (length data))
               = (m, map wrap8 data, None))
    /\ (Forall (fun b => 0 <= b < 256) data ->
        exists s'', CmdCompare s' (addr :: data) = Done tt s''
                    /\ cout s'' = cout s').
Proof.
  intros root s addr data s' [[Hm Hv] Hwf] Hap Ha Hlen H Hc.
  pose proof (CmdPut_effect root s (addr :: data) Hv) as He. rewrite H in He.
  simpl in He. destruct He as (_ & [Hm' Hv'] & _).
  assert (HR : reads_back root (pmem (memory s')) addr (map wrap8 data)).
  { unfold CmdPut, at_, bind in H. simpl nth_error in H. cbv iota beta in H.
    apply leave_true in H as (s1 & H & ->). simpl in Hc |- *.
    replace (Z.of_nat (length (addr :: data)) - 1)
      with (Z.of_nat (length (map wrap8 data))) in H
      by (rewrite length_map; simpl length; lia).
    simpl tl in H.
    refine (writing_loop_reads_back root addr _ (loop_bound s) s s1 Ha _ _ H Hc).
    - rewrite length_map. exact Hlen.
    - unfold steady. auto using maps_kept_refl. }
  specialize (HR (pmcb (memory s')) Hm'). rewrite length_map, wrap8_wrap8 in HR.
  split.
  - unfold get_bytes. rewrite Nat2Z.id, HR. eauto.
  - intros Hb. unfold CmdCompare, at_, bind. simpl nth_error. cbv iota beta.
    replace (Z.of_nat (length (addr :: data)) - 1) with (Z.of_nat (length data))
      by (simpl length; lia).
    unfold get_bytes. rewrite Nat2Z.id, HR. rewrite (map_wrap8_bytes data Hb).
    simpl tl. eexists. split; [reflexivity|].
    rewrite compare_bytes_equal by exact Hb. reflexivity.
Qed.

Lemma read_seq_bytes c pm n : forall va bs va' e,
  read_seq c pm va n = (bs, va', e) -> Forall (fun b => 0 <= b < 256) bs.
Proof.
  induction n as [|n IH]; intros va bs va' e; simpl.
  - intros H. injection H as <- _ _. constructor.
  - destruct (translate c pm va) as [|pa w]; [intros H; injection H as <- _ _; constructor|].
    destruct (read_seq c pm (wrap32 (va + 1)) n) as [[bs1 va1] e1] eqn:E.
    intros H. injection H as <- _ _. constructor; [|exact (IH _ _ _ _ E)].
    unfold byte_at, wrap8. apply Z.mod_pos_bound. lia.
Qed.

(** X15.  [copy] copies: when the read of the [n] source bytes meets no
    fault and the [copy] returns [true] without a report, a read of [n]
    bytes at the destination in the state it leaves yields the bytes the
    source held before the command, also when the two ranges overlap. *)
Theorem copy_is_read_back :
  forall (root : Z) (s : ProcessTrace) (dst src n : Z) (bs : list Z) (va : Z)
         (s' : ProcessTrace),
    sound root s -> apart root (pmem (memory s)) ->
    u32 dst -> u32 src -> u32 n ->
    read_seq (pmcb (memory s)) (pmem (memory s)) src (Z.to_nat n) = (bs, va, None) ->
    CmdCopy s [dst; src; n] = Done true s' -> cout s' = cout s ->
    exists m, get_bytes (memory s') dst n = (m, bs, None).
Proof.
  intros root s dst src n bs va s' [[Hm Hv] Hwf] Hap Hd Hsrc Hn HR H Hc.
  pose proof (CmdCopy_effect root s [dst; src; n] (conj Hm Hv)) as He.
  rewrite H in He. simpl in He. destruct He as (_ & [Hm' Hv'] & _).
  pose proof (read_seq_spec _ _ _ _ _ _ _ Hsrc HR) as (Eva & _ & Hl).
  destruct Hl as [[_ Hl]|[E _]]; [|discriminate].
  pose proof (read_seq_bytes _ _ _ _ _ _ _ HR) as Hb.
  unfold CmdCopy, at_, bind in H. simpl nth_error in H. cbv iota beta in H.
  unfold get_bytes in H. rewrite HR in H. cbv iota beta in H.
  simpl next_vaddress in H.
  assert (Er : wrap32 (va - src) = Z.of_nat (length bs)).
  { rewrite Eva, wrap32_back. unfold wrap32, u32 in *.
    rewrite Z.mod_small; lia. }
  rewrite Er in H. unfold CmdCopy_body in H.
  rewrite Nat2Z.id, firstn_all in H.
  apply leave_true in H as (s1 & H & ->). simpl in Hc |- *.
  match type of H with
  | while _ _ ?s0 0 = _ =>
      pose proof (fun fuel => writing_loop_reads_back root dst bs fuel s0 s1 Hd
                    ltac:(unfold u32 in *; lia)) as HB
  end.
  simpl in HB. unfold get_PMCB in HB. simpl in HB.
  specialize (HB _ (conj Hwf (conj Hap (conj (virtual_after_op root _ READ_OP va None Hm)
                                              (maps_kept_refl root _)))) H Hc).
  unfold get_bytes. simpl.
  assert (El : Z.to_nat n = length bs) by lia.
  rewrite El, (HB (vmem_pmcb s1) Hv'), (map_wrap8_bytes bs Hb). eauto.
Qed.

(* ===================================================================== *)
(** ** The example processes are sound, with their pages apart *)
(* ===================================================================== *)

(** An empty memory maps nothing. *)
Lemma apart_empty root : apart root ∅.
Proof.
  constructor.
  - intros i i' _ _ P. unfold L1 in P. rewrite entry_at_empty in P. discriminate P.
  - intros i j i' j' _ _ _ _ P. unfold L1 in P. rewrite entry_at_empty in P.
    discriminate P.
Qed.

Lemma new_process_apart : apart 4096 (pmem (memory new_process)).
Proof. apply apart_empty. Qed.

(** [Execute] ends by saving the context of the MMU. *)
Lemma tidy_saved root s :
  tidy root s -> tidy root (with_vmem_pmcb s (get_PMCB (memory s))).
Proof.
  intros [[[Hm Hv] Hwf] Hap]. exact (conj (conj (conj Hm Hm) Hwf) Hap).
Qed.

(** The state [compare_state] is reached from a new process by two rounds
    of the command loop. *)
Definition compare_start : ProcessTrace :=
  state_of (boot 8 ["quota 5"; "put ffe 1 2"] 0) blank.
Definition compare_started : ProcessTrace :=
  with_memory compare_start (set_PMCB (memory compare_start) (vmem_pmcb compare_start)).
Definition compare_rounds : ProcessTrace :=
  default blank (rounds 2 compare_started 0).

Lemma compare_started_tidy : tidy 4096 compare_started.
Proof.
  pose proof (boot_sound 8 ["quota 5"; "put ffe 1 2"] 0 ltac:(simpl; lia)) as H0.
  change (sound 4096 compare_start) in H0.
  split; [|apply apart_empty].
  exact (sound_context 4096 compare_start (vmem_pmcb compare_start) H0
           (proj2 (proj1 H0))).
Qed.

Lemma compare_rounds_tidy : tidy 4096 compare_rounds.
Proof.
  assert (ER : rounds 2 compare_started 0 = Some compare_rounds)
    by (vm_compute; reflexivity).
  exact (proj1 (rounds_kept 4096 2 compare_started 0 compare_rounds
                  compare_started_tidy ER)).
Qed.

Lemma compare_state_tidy : tidy 4096 compare_state.
Proof.
  assert (E : compare_state
              = with_vmem_pmcb compare_rounds (get_PMCB (memory compare_rounds)))
    by (vm_compute; reflexivity).
  rewrite E. apply tidy_saved, compare_rounds_tidy.
Qed.

(** The same process with paging disabled, and with another trace. *)
Lemma tidy_physical root s :
  tidy root s ->
  well_formed root
    (pmem (memory (with_memory s (set_PMCB (memory s) pmem_pmcb))))
    (allocator (with_memory s (set_PMCB (memory s) pmem_pmcb)))
  /\ apart root (pmem (memory (with_memory s (set_PMCB (memory s) pmem_pmcb)))).
Proof. intros [[_ Hwf] Hap]. exact (conj Hwf Hap). Qed.

Lemma tidy_with_trace root s t :
  tidy root s ->
  sound root (with_trace s t) /\ apart root (pmem (memory (with_trace s t))).
Proof. intros [Hs Hap]. exact (conj Hs Hap). Qed.

Lemma AllocateAndMapPage_maps_the_page_only_witness :
  match AllocateAndMapPage
          (with_memory compare_state (set_PMCB (memory compare_state) pmem_pmcb)) 8192
  with
  | Done _ s' =>
      exists d,
        In d (allocator
                (with_memory compare_state (set_PMCB (memory compare_state) pmem_pmcb)))
        /\ ~ In d (allocator s')
        /\ (forall x, u32 x -> x / 4096 = 8192 / 4096 ->
              walk (pmem (memory s')) 4096 x = Mapped (d + x mod 4096) true)
        /\ (forall x, u32 x -> x / 4096 <> 8192 / 4096 ->
              walk (pmem (memory s')) 4096 x
              = walk (pmem (memory (with_memory compare_state
                                      (set_PMCB (memory compare_state) pmem_pmcb))))
                     4096 x)
  | Stop f _ => f = Allocator_exhausted
  | Timeout => False
  end.
Proof.
  refine (AllocateAndMapPage_maps_the_page_only 4096
            (with_memory compare_state (set_PMCB (memory compare_state) pmem_pmcb))
            8192 _ _ (proj1 (tidy_physical 4096 compare_state compare_state_tidy))
            (proj2 (tidy_physical 4096 compare_state compare_state_tidy)) _ _).
  - vm_compute. reflexivity.
  - vm_compute. reflexivity.
  - unfold u32. lia.
  - vm_compute. reflexivity.
Defined.

Lemma mapped_pages_stay_on_their_frames_witness :
  (forall x pa w, u32 x ->
     walk (pmem (memory (with_trace compare_state ["writable 0 1000 0"; "fill 1ffe 4 7"])))
          4096 x = Mapped pa w ->
     exists w',
       walk (pmem (memory (default blank
               (rounds 2 (with_trace compare_state
                            ["writable 0 1000 0"; "fill 1ffe 4 7"]) 0))))
            4096 x = Mapped pa w')
  /\ sound 4096 (default blank
       (rounds 2 (with_trace compare_state ["writable 0 1000 0"; "fill 1ffe 4 7"]) 0))
  /\ apart 4096 (pmem (memory (default blank
       (rounds 2 (with_trace compare_state ["writable 0 1000 0"; "fill 1ffe 4 7"]) 0)))).
Proof.
  refine (mapped_pages_stay_on_their_frames 4096 2
            (with_trace compare_state ["writable 0 1000 0"; "fill 1ffe 4 7"]) 0
            (default blank
               (rounds 2 (with_trace compare_state
                            ["writable 0 1000 0"; "fill 1ffe 4 7"]) 0))
            (proj1 (tidy_with_trace 4096 compare_state _ compare_state_tidy))
            (proj2 (tidy_with_trace 4096 compare_state _ compare_state_tidy)) _).
  vm_compute. reflexivity.
Defined.

Lemma put_is_read_back_witness :
  (exists m, get_bytes (memory (state_of (CmdPut new_process [4094; 1; 2; 3]) blank))
               4094 (Z.of_nat (length [1; 2; 3]))
             = (m, map wrap8 [1; 2; 3], None))
  /\ (Forall (fun b => 0 <= b < 256) [1; 2; 3] ->
      exists s'',
        CmdCompare (state_of (CmdPut new_process [4094; 1; 2; 3]) blank) [4094; 1; 2; 3]
        = Done tt s''
        /\ cout s'' = cout (state_of (CmdPut new_process [4094; 1; 2; 3]) blank)).
Proof.
  refine (put_is_read_back 4096 new_process 4094 [1; 2; 3]
            (state_of (CmdPut new_process [4094; 1; 2; 3]) blank)
            new_process_sound new_process_apart _ _ _ _).
  - unfold u32. lia.
  - simpl. lia.
  - vm_compute. reflexivity.
  - vm_compute. reflexivity.
Defined.

Lemma copy_is_read_back_witness :
  exists m,
    get_bytes (memory (state_of (CmdCopy compare_state [8190; 4094; 2]) blank)) 8190 2
    = (m, [1; 2], None).
Proof.
  refine (copy_is_read_back 4096 compare_state 8190 4094 2 [1; 2] 4096
            (state_of (CmdCopy compare_state [8190; 4094; 2]) blank)
            (proj1 compare_state_tidy) (proj2 compare_state_tidy) _ _ _ _ _ _).
  - unfold u32. lia.
  - unfold u32. lia.
  - unfold u32. lia.
  - vm_compute. reflexivity.
  - vm_compute. reflexivity.
  - vm_compute. reflexivity.
Defined.

(* ===================================================================== *)
(** ** What [compare] and [dump] print *)
(* ===================================================================== *)

(** The report of [compare] for byte number [k] of the range: none when the
    byte read equals the expected value. *)
Definition mismatch_at (addr : Z) (bs expected : list Z) (k : nat) : list Output :=
  let actual := nth k bs 0 in
  let x := nth k expected 0 in
  if actual =? x then []
  else [OutCompareError (wrap32 (addr + Z.of_nat k)) x actual].

(** The reports for the whole range, in the order of the addresses. *)
Definition mismatches (addr : Z) (bs expected : list Z) : list Output :=
  flat_map (mismatch_at addr bs expected) (seq 0 (length expected)).

Lemma mismatches_cons addr bs x expected :
  mismatches addr bs (x :: expected)
  = (mismatch_at addr bs (x :: expected) 0
     ++ mismatches (wrap32 (addr + 1)) (tl bs) expected)%list.
Proof.
  unfold mismatches. simpl length. simpl seq. simpl flat_map. f_equal.
  rewrite <- seq_shift, flat_map_concat_map, map_map, <- flat_map_concat_map.
  apply flat_map_ext. intros k. unfold mismatch_at. simpl nth.
  rewrite wrap32_succ.
  replace (Z.of_nat (S k)) with (1 + Z.of_nat k) by lia.
  destruct bs as [|b bs]; simpl; [destruct k|]; reflexivity.
Qed.

Lemma compare_bytes_cout expected : forall s addr bs,
  u32 addr ->
  cout (compare_bytes s addr bs expected)
  = (rev (mismatches addr bs expected) ++ cout s)%list.
Proof.
  induction expected as [|x expected IH]; intros s addr bs Ha; [reflexivity|].
  simpl compare_bytes. rewrite IH by apply wrap32_range.
  rewrite mismatches_cons, rev_app_distr, <- app_assoc.
  f_equal. unfold mismatch_at. simpl nth. rewrite Z.add_0_r.
  rewrite (wrap32_small addr Ha).
  replace (nth 0 bs 0) with (hd 0 bs) by (destruct bs; reflexivity).
  destruct (hd 0 bs =? x); reflexivity.
Qed.

(** X16.  A [compare] over a range that is read without fault reports one
    error for each byte that differs from its expected value, with the
    address, the expected and the actual value, in the order of the
    addresses, and nothing else; it goes on after a mismatch.  An expected
    value that does not fit eight bits is reported whatever the byte is. *)
Theorem compare_reports_each_mismatch :
  forall (s : ProcessTrace) (addr : Z) (expected bs : list Z) (va : Z),
    u32 addr ->
    read_seq (pmcb (memory s)) (pmem (memory s)) addr (length expected)
    = (bs, va, None) ->
    exists s',
      CmdCompare s (addr :: expected) = Done tt s'
      /\ cout s' = (rev (mismatches addr bs expected) ++ cout s)%list
      /\ (forall k x, nth_error expected k = Some x -> 256 <= x ->
            In (OutCompareError (wrap32 (addr + Z.of_nat k)) x (nth k bs 0)) (cout s')).
Proof.
  intros s addr expected bs va Ha HR.
  unfold CmdCompare, at_, bind. simpl nth_error. cbv iota beta.
  replace (Z.of_nat (length (addr :: expected)) - 1) with (Z.of_nat (length expected))
    by (simpl length; lia).
  unfold get_bytes. rewrite Nat2Z.id, HR. simpl tl.
  eexists. split; [reflexivity|].
  rewrite compare_bytes_cout by exact Ha. simpl cout. split; [reflexivity|].
  intros k x Hk Hx. apply in_or_app. left. apply in_rev. rewrite rev_involutive.
  unfold mismatches. apply in_flat_map. exists k. split.
  - apply in_seq. assert (k < length expected)%nat by (apply nth_error_Some; congruence). lia.
  - unfold mismatch_at.
    rewrite (nth_error_nth expected k 0 Hk).
    pose proof (read_seq_bytes _ _ _ _ _ _ _ HR) as Hb.
    assert (Hn : 0 <= nth k bs 0 < 256).
    { destruct (nth_in_or_default k bs 0) as [Hin|E0]; [|rewrite E0; lia].
      exact (proj1 (List.Forall_forall _ bs) Hb _ Hin). }
    destruct (nth k bs 0 =? x) eqn:E; [apply Z.eqb_eq in E; lia|].
    left. reflexivity.
Qed.

Lemma compare_reports_each_mismatch_witness :
  exists s',
    CmdCompare compare_state [4094; 1; 300] = Done tt s'
    /\ cout s' = (rev (mismatches 4094 [1; 2] [1; 300]) ++ cout compare_state)%list
    /\ (forall k x, nth_error [1; 300] k = Some x -> 256 <= x ->
          In (OutCompareError (wrap32 (4094 + Z.of_nat k)) x (nth k [1; 2] 0)) (cout s')).
Proof.
  refine (compare_reports_each_mismatch compare_state 4094 [1; 300] [1; 2] 4096 _ _).
  - unfold u32. lia.
  - vm_compute. reflexivity.
Defined.

(** The bytes printed by [dump], oldest first. *)
Definition dumped (out : list Output) : list Z :=
  flat_map (fun o => match o with OutDumpByte b => [b] | _ => [] end) out.

Lemma dumped_app l1 l2 : dumped (l1 ++ l2) = (dumped l1 ++ dumped l2)%list.
Proof. unfold dumped. apply flat_map_app. Qed.

(** The [for] loop of [dump] prints the bytes a byte-range read of the same
    range yields, and stops where that read stops. *)
Lemma dump_bytes_read k : forall s i addr bs va e,
  read_seq (pmcb (memory s)) (pmem (memory s)) addr k = (bs, va, e) ->
  exists s1 new,
    dump_bytes k s i addr = (s1, e)
    /\ cout s1 = (new ++ cout s)%list /\ dumped (rev new) = bs
    /\ line_number s1 = line_number s
    /\ (e <> None -> next_vaddress (pmcb (memory s1)) = va).
Proof.
  induction k as [|k IH]; intros s i addr bs va e; simpl.
  - intros H. injection H as <- <- <-. exists s, []. simpl.
    repeat split; auto. intros E; contradiction.
  - unfold get_byte, get_bytes. simpl read_seq.
    destruct (translate (pmcb (memory s)) (pmem (memory s)) addr) as [|pa w] eqn:ET.
    + intros H. injection H as <- <- <-.
      destruct (i mod 16 =? 0); simpl; rewrite ET; simpl.
      * eexists _, [OutNewline]. simpl. auto.
      * eexists _, []. simpl. auto.
    + destruct (read_seq _ _ (wrap32 (addr + 1)) k) as [[bs1 va1] e1] eqn:ER.
      intros H. injection H as <- <- <-.
      set (s0 := if i mod 16 =? 0 then print s OutNewline else s).
      assert (E0 : memory s0 = memory s) by (unfold s0; destruct (_ =? _); reflexivity).
      rewrite E0, ET. simpl.
      match goal with
      | |- context [dump_bytes k ?t ?i1 ?a1] =>
          destruct (IH t i1 a1 bs1 va1 e1) as (s1 & new & ED & Ec & Ed & El & Em)
      end.
      { simpl. rewrite <- ER. apply read_seq_context; reflexivity. }
      rewrite ED. simpl in Ec, El.
      exists s1, (new ++ OutDumpByte (byte_at (pmem (memory s)) pa)
                        :: (if i mod 16 =? 0 then [OutNewline] else []))%list.
      split; [reflexivity|]. split; [|split; [|split]].
      * rewrite Ec, <- app_assoc. simpl. f_equal. f_equal.
        unfold s0. destruct (i mod 16 =? 0); reflexivity.
      * rewrite rev_app_distr, dumped_app, Ed.
        destruct (i mod 16 =? 0); reflexivity.
      * rewrite El. unfold s0. destruct (i mod 16 =? 0); reflexivity.
      * exact Em.
Qed.

(** X17.  [dump] prints the address, then the bytes a read of the range
    yields, in order and each once; when the read meets an unmapped page it
    stops there after the bytes before it, and reports the page fault at the
    first unmapped address.  Either way it returns. *)
Theorem dump_prints_the_bytes_read :
  forall (s : ProcessTrace) (addr count : Z) (bs : list Z) (va : Z)
         (e : option Exception),
    u32 addr ->
    read_seq (pmcb (memory s)) (pmem (memory s)) addr (Z.to_nat count) = (bs, va, e) ->
    exists s' new,
      CmdDump s [addr; count] = Done tt s'
      /\ cout s' = (new ++ cout s)%list
      /\ List.last new OutNewline = OutDumpAddr addr
      /\ dumped (rev new) = bs
      /\ List.hd OutNewline new
         = match e with
           | None => OutNewline
           | Some _ => fault_report s "PageFaultException" va PageFaultException
           end.
Proof.
  intros s addr count bs va e Ha HR.
  pose proof (read_seq_spec _ _ _ _ _ _ _ Ha HR) as (_ & _ & He).
  unfold CmdDump, at_, bind. simpl nth_error. cbv iota beta.
  destruct (dump_bytes_read (Z.to_nat count) (print s (OutDumpAddr addr)) 0 addr
              bs va e HR) as (s1 & new & ED & Ec & Ed & El & Em).
  rewrite ED. simpl in Ec, El.
  destruct He as [[-> _]|[-> _]].
  - exists (print s1 OutNewline), (OutNewline :: new ++ [OutDumpAddr addr])%list.
    split; [reflexivity|]. simpl cout. rewrite Ec.
    split; [simpl; rewrite <- app_assoc; reflexivity|].
    split; [|split; [|reflexivity]].
    + exact (List.last_last (OutNewline :: new) (OutDumpAddr addr) OutNewline).
    + simpl rev. rewrite rev_app_distr. simpl.
      rewrite dumped_app. simpl. rewrite app_nil_r. exact Ed.
  - eexists _, (fault_report s "PageFaultException" va PageFaultException
                 :: OutNewline :: new ++ [OutDumpAddr addr])%list.
    split; [reflexivity|]. unfold PrintAndClearException. simpl cout.
    unfold get_PMCB. simpl. rewrite Ec, El, (Em ltac:(discriminate)).
    split; [simpl; rewrite <- app_assoc; reflexivity|].
    split; [|split; [|reflexivity]].
    + exact (List.last_last
               (fault_report s "PageFaultException" va PageFaultException
                  :: OutNewline :: new) (OutDumpAddr addr) OutNewline).
    + simpl rev. rewrite rev_app_distr. simpl.
      rewrite !dumped_app. simpl. rewrite !app_nil_r. exact Ed.
Qed.

Lemma dump_prints_the_bytes_read_witness :
  exists s' new,
    CmdDump compare_state [4094; 4] = Done tt s'
    /\ cout s' = (new ++ cout compare_state)%list
    /\ List.last new OutNewline = OutDumpAddr 4094
    /\ dumped (rev new) = [1; 2]
    /\ List.hd OutNewline new
       = fault_report compare_state "PageFaultException" 4096 PageFaultException.
Proof.
  refine (dump_prints_the_bytes_read compare_state 4094 4 [1; 2] 4096
            (Some PageFaultException) _ _).
  - unfold u32. lia.
  - vm_compute. reflexivity.
Defined.

(* ===================================================================== *)
(** ** Mapping a page twice *)
(* ===================================================================== *)

(** X18.  Run with paging disabled on a page that is already mapped,
    [AllocateAndMapPage] throws [std::bad_alloc], which no caller catches:
    the program ends, no frame is taken from the allocator and memory is
    as it was. *)
Theorem mapping_a_mapped_page_is_fatal :
  forall (root : Z) (s : ProcessTrace) (vaddr pa : Z) (w : bool),
    vm_enable (pmcb (memory s)) = false ->
    page_table_base (vmem_pmcb s) = root -> frame root -> u32 vaddr ->
    walk (pmem (memory s)) root vaddr = Mapped pa w ->
    exists s',
      AllocateAndMapPage s vaddr = Stop Uncaught_bad_alloc s'
      /\ pmem (memory s') = pmem (memory s) /\ allocator s' = allocator s.
Proof.
  intros root s vaddr pa w Hvm Hb Hr Hv Hw.
  pose proof (l1_index_range vaddr Hv) as Hi.
  pose proof (l2_index_range vaddr) as Hj.
  apply (walk_Mapped _ root vaddr pa w Hr Hv) in Hw. cbv zeta in Hw.
  destruct (walk_L (pmem (memory s)) root vaddr Hr Hv) as (_ & E1 & E2).
  rewrite E2, E1 in Hw. destruct Hw as (P1 & P2 & _).
  set (i := vaddr / 4194304) in *. set (j := (vaddr / 4096) mod 1024) in *.
  unfold AllocateAndMapPage.
  rewrite Hb, shiftr_l1, shiftr_l2, land_index.
  unfold sizeof_PageTableEntry.
  fold (l1_slot root vaddr). rewrite (aligned4_wrap _ (l1_slot_aligned _ _ Hr Hv)).
  destruct (get_entry_physical s _ Hvm (l1_slot_aligned _ _ Hr Hv))
    as (c1 & -> & Hc1 & _).
  rewrite E1. fold i j. unfold bind; cbv beta iota. rewrite land_present, P1.
  simpl Z.eqb. cbv iota.
  rewrite (land_frame _ (L1_range _ _ _)).
  fold (frame_of (L1 (pmem (memory s)) root i)).
  pose proof (frame_of_L1 (pmem (memory s)) root i) as HTf.
  assert (Ha2 : aligned4 (frame_of (L1 (pmem (memory s)) root i) + 4 * j))
    by (apply frame_slot; assumption).
  rewrite (aligned4_wrap _ Ha2).
  match goal with |- context [get_entry ?t _] =>
    destruct (get_entry_physical t _ Hc1 Ha2) as (c3 & -> & Hc3 & _) end.
  simpl pmem. unfold bind; cbv beta iota.
  fold (L2 (pmem (memory s)) root i j). rewrite land_present, P2.
  simpl. eexists. split; [reflexivity|]. simpl. auto.
Qed.

Lemma mapping_a_mapped_page_is_fatal_witness :
  exists s',
    AllocateAndMapPage
      (with_memory compare_state (set_PMCB (memory compare_state) pmem_pmcb)) 4094
    = Stop Uncaught_bad_alloc s'
    /\ pmem (memory s')
       = pmem (memory (with_memory compare_state
                         (set_PMCB (memory compare_state) pmem_pmcb)))
    /\ allocator s'
       = allocator (with_memory compare_state
                      (set_PMCB (memory compare_state) pmem_pmcb)).
Proof.
  refine (mapping_a_mapped_page_is_fatal 4096
            (with_memory compare_state (set_PMCB (memory compare_state) pmem_pmcb))
            4094 16382 true _ _ _ _ _).
  - vm_compute. reflexivity.
  - vm_compute. reflexivity.
  - split; [lia|reflexivity].
  - unfold u32. lia.
  - vm_compute. reflexivity.
Defined.

(* ===================================================================== *)
(** ** What [fill] leaves in memory *)
(* ===================================================================== *)

(** The first [w] bytes of the range at [addr] are mapped and hold [val]. *)
Definition filled (root : Z) (pm : gmap Z Z) (addr w val : Z) : Prop :=
  forall j, 0 <= j < w ->
    exists pa wr, walk pm root (wrap32 (addr + j)) = Mapped pa wr
                  /\ pm !! pa = Some val.

Lemma filled_read root c pm val n : forall addr,
  virtual_context root c -> 0 <= val < 256 -> u32 addr ->
  filled root pm addr (Z.of_nat n) val ->
  read_seq c pm addr n = (repeat val n, wrap32 (addr + Z.of_nat n), None).
Proof.
  induction n as [|n IH]; intros addr Hc Hval Ha Hf.
  - simpl. rewrite Z.add_0_r, wrap32_small by exact Ha. reflexivity.
  - simpl read_seq. unfold translate. rewrite (proj1 Hc), (proj2 Hc).
    destruct (Hf 0 ltac:(lia)) as (pa & wr & Ew & Ep).
    rewrite Z.add_0_r, wrap32_small in Ew by exact Ha. rewrite Ew.
    rewrite (IH (wrap32 (addr + 1)) Hc Hval (wrap32_range _)).
    + rewrite wrap32_succ. simpl repeat. unfold byte_at. rewrite Ep. simpl.
      unfold wrap8. rewrite Z.mod_small by lia.
      replace (1 + Z.of_nat n) with (Z.of_nat (S n)) by lia. reflexivity.
    + intros j Hj. rewrite wrap32_succ.
      destruct (Hf (1 + j) ltac:(lia)) as (pa' & wr' & Ew' & Ep'). eauto.
Qed.

(** Bytes and translations kept keep the range filled. *)
Lemma filled_kept root pm pm' addr w val :
  maps_kept root pm pm' -> bytes_kept root pm pm' ->
  filled root pm addr w val -> filled root pm' addr w val.
Proof.
  intros Hk Hb Hf j Hj. destruct (Hf j Hj) as (pa & wr & Ew & Ep).
  exists pa, wr. split.
  - rewrite Hk; [exact Ew|apply wrap32_range|rewrite Ew; discriminate].
  - rewrite (Hb _ pa wr (wrap32_range _) Ew). exact Ep.
Qed.

(** One more byte. *)
Lemma filled_next root pm free addr w val pa :
  well_formed root pm free -> apart root pm ->
  0 <= w < 4294967296 ->
  walk pm root (wrap32 (addr + w)) = Mapped pa true ->
  filled root pm addr w val ->
  filled root (<[pa := val]> pm) addr (w + 1) val.
Proof.
  intros Hwf Hap Hw Ew Hf j Hj.
  destruct (write_byte_same_tables root pm free _ pa true val Hwf (wrap32_range _) Ew)
    as [Hst _].
  assert (Hw1 : forall x, u32 x -> walk (<[pa := val]> pm) root x = walk pm root x).
  { intros x Hx. apply same_tables_walk; auto. apply Hwf. }
  rewrite Hw1 by apply wrap32_range.
  destruct (Z.eq_dec j w) as [->|Hne].
  - exists pa, true. split; [exact Ew|apply lookup_insert_eq].
  - destruct (Hf j ltac:(lia)) as (pa' & wr & Ew' & Ep).
    exists pa', wr. split; [exact Ew'|].
    rewrite lookup_insert_ne; [exact Ep|].
    intros <-.
    pose proof (walk_injective root pm free _ _ _ _ _ Hwf Hap
                  (wrap32_range _) (wrap32_range _) Ew' Ew) as Eq.
    unfold wrap32 in Eq.
    assert (D : (addr + w - (addr + j)) mod 4294967296 = 0).
    { rewrite Zminus_mod, Eq, Z.sub_diag. reflexivity. }
    replace (addr + w - (addr + j)) with (w - j) in D by lia.
    rewrite Z.mod_small in D by lia. lia.
Qed.

(** The [for] loop of [fill] extends the filled part of the range by the
    bytes it writes. *)
Lemma fill_bytes_filled root start val k : forall s w s' a' w' e,
  virtual_context root (pmcb (memory s)) ->
  well_formed root (pmem (memory s)) (allocator s) ->
  apart root (pmem (memory s)) ->
  0 <= w -> w + Z.of_nat k < 4294967296 ->
  filled root (pmem (memory s)) start w val ->
  fill_bytes k s (wrap32 (start + w)) w val = (s', a', w', e) ->
  filled root (pmem (memory s')) start w' val
  /\ w <= w' <= w + Z.of_nat k /\ a' = wrap32 (start + w')
  /\ match e with
     | None => w' = w + Z.of_nat k
     | Some _ => w' < w + Z.of_nat k
     end.
Proof.
  induction k as [|k IH]; intros s w s' a' w' e Hvc Hwf Hap Hw Hk Hf; simpl.
  - intros H. injection H as <- <- <- <-. split; [exact Hf|]. repeat split; lia.
  - unfold put_byte, put_bytes. simpl write_seq. unfold translate.
    rewrite (proj1 Hvc), (proj2 Hvc).
    destruct (walk (pmem (memory s)) root (wrap32 (start + w))) as [|pa wr] eqn:EW.
    + intros H. injection H as <- <- <- <-. simpl.
      split; [exact Hf|]. repeat split; lia.
    + destruct wr.
      * intros H.
        destruct (write_byte_same_tables root _ (allocator s) _ pa true val Hwf
                    (wrap32_range _) EW) as [Hst Hcl].
        pose proof (same_tables_wf root _ _ _ Hwf Hst Hcl) as Hwf1.
        pose proof (same_tables_apart root _ _ Hst Hap) as Hap1.
        pose proof (filled_next root _ _ start w val pa Hwf Hap ltac:(lia) EW Hf) as Hf1.
        assert (Ew1 : wrap32 (w + 1) = w + 1) by (apply wrap32_small; lia).
        assert (Ea1 : wrap32 (wrap32 (start + w) + 1) = wrap32 (start + (w + 1))).
        { unfold wrap32. rewrite Z.add_mod_idemp_l by lia. f_equal. lia. }
        rewrite Ew1, Ea1 in H.
        match type of H with
        | fill_bytes _ ?t _ _ _ = _ =>
            destruct (IH t (w + 1) s' a' w' e
                        (virtual_after_op root _ WRITE_OP _ None Hvc)
                        Hwf1 Hap1 ltac:(lia) ltac:(lia) Hf1 H)
              as (A & B & C & D)
        end.
        split; [exact A|]. split; [lia|]. split; [exact C|].
        destruct e; lia.
      * intros H. injection H as <- <- <- <-. simpl.
        split; [exact Hf|]. repeat split; lia.
Qed.

(** A pass of [fill] keeps the written part of the range filled; a pass that
    completes without a report has filled the range. *)
Lemma CmdFill_body_filled root pm0 n val start s v st s' :
  u32 n -> u32 start ->
  fill_invariant n start v -> steady root pm0 s ->
  filled root (pmem (memory s)) start (snd v) val ->
  CmdFill_body n val start s v = Done st s' ->
  match st with
  | Again v' => fill_invariant n start v'
                /\ filled root (pmem (memory s')) start (snd v') val
  | Exit true => cout s' = cout s -> filled root (pmem (memory s')) start n val
  | Exit false => True
  end.
Proof.
  intros Hn Hstart [Hw Ha] (Hwf & Hap & Hv & Hk) Hf. unfold CmdFill_body.
  destruct v as [addr w]. simpl in Hw, Ha, Hf. subst addr.
  destruct (fill_bytes _ _ _ _ _) as [[[s1 a1] w1] e] eqn:EF.
  pose proof (virtual_clear root _ Hv) as Hvc.
  assert (Hwu : u32 w) by (unfold u32 in *; lia).
  match type of EF with
  | fill_bytes ?k ?t _ _ _ = _ =>
      pose proof (fill_bytes_same_tables root k t _ w val s1 a1 w1 e Hvc Hwf
                    (wrap32_range _) EF) as Hst;
      pose proof (fill_bytes_spec k t _ w val s1 a1 w1 e (wrap32_range _) Hwu EF)
        as (_ & Hco & _ & Hal & Hvp & Hvm & Hb & _);
      pose proof (fill_bytes_filled root start val k t w s1 a1 w1 e Hvc Hwf Hap
                    ltac:(lia) ltac:(unfold u32 in *; lia) Hf EF)
        as (Hf1 & Hw1 & Ea1 & Hfe);
      pose proof (fill_bytes_wf root k t _ w val s1 a1 w1 e Hvc Hwf
                    (wrap32_range _) Hwu EF)
        as (Hwf1 & Hwk & j & Hj & _ & _ & Hpre & He)
  end.
  simpl in *.
  pose proof (same_tables_apart root _ _ Hst Hap) as Hap1.
  assert (Hvc1 : virtual_context root (pmcb (memory s1))).
  { split; [rewrite Hvm|rewrite Hb]; apply Hv. }
  assert (Hr : w + Z.of_nat (Z.to_nat (n - w)) = n) by lia.
  destruct e as [[]|].
  - destruct He as (Hlt & Hmark & Hun). intros H.
    assert (Hun' : walk (pmem (memory s1)) root (next_vaddress (pmcb (memory s1)))
                   = Unmapped).
    { rewrite Hmark, Hwk; [apply Hun; reflexivity|].
      rewrite Ea1. apply wrap32_range. }
    assert (Hm : u32 (next_vaddress (pmcb (memory s1))))
      by (rewrite Hmark, Ea1; apply wrap32_range).
    assert (Eb : wrap32 (next_vaddress (pmcb (memory s1)) - start) = w1).
    { rewrite Hmark, Ea1, wrap32_back. apply wrap32_small.
      unfold u32 in *. lia. }
    destruct (on_page_fault_steady root (pmem (memory s1)) s1 start n _ st s'
                Hvc1 Hwf1 Hap1 (maps_kept_refl root _) Hm Hun' H)
      as ((_ & _ & _ & Hk') & Hbk & Hst').
    destruct st as [x|[]]; [| |exact I].
    + destruct Hst' as (-> & _). rewrite Eb. simpl. split.
      * unfold fill_invariant. simpl. split; [lia|exact Ea1].
      * exact (filled_kept root _ _ start w1 val Hk' Hbk Hf1).
    + apply on_page_fault_cases in H. cbv zeta in H.
      destruct H as [(_ & E & _)|[(E & _)|(E & _)]]; try discriminate. lia.
  - unfold on_permission_fault, PrintAndClearException. simpl.
    intros H. injection H as <- <-. simpl. rewrite Hco. intros E.
    exfalso. exact (cons_neq _ _ E).
  - assert (Ew : w1 = n) by lia. rewrite Ew in Hf1 |- *. rewrite Z.eqb_refl.
    intros H. injection H as <- <-. intros _. exact Hf1.
Qed.

(** The loop of [fill]: when it leaves by completion without a report, the
    range is filled. *)
Lemma filling_loop_filled root start n val fuel s0 s1 :
  u32 start -> u32 n ->
  steady root (pmem (memory s0)) s0 ->
  while fuel (CmdFill_body n val start) s0 (start, 0) = Done true s1 ->
  cout s1 = cout s0 ->
  filled root (pmem (memory s1)) start n val.
Proof.
  intros Ha Hn Hs0 H Hc.
  refine (while_partial _
            (fun s2 v => steady root (pmem (memory s0)) s2 /\ cout s2 = cout s0
                         /\ fill_invariant n start v
                         /\ filled root (pmem (memory s2)) start (snd v) val)
            (fun b s2 => b = true -> cout s2 = cout s0 ->
               filled root (pmem (memory s2)) start n val)
            _ _ s0 (start, 0) true s1 _ H eq_refl Hc).
  - intros s2 v (Hs2 & Hc2 & Hi & Hf).
    assert (Hu : u32 (fst v) /\ u32 (snd v)).
    { destruct Hi as [Hw ->]. split; [apply wrap32_range|unfold u32 in *; lia]. }
    destruct (CmdFill_body _ _ _ s2 v) as [[v'|b] s3|f s3|] eqn:EB; auto.
    + pose proof (CmdFill_body_filled root _ n val start s2 v _ s3 Hn Ha Hi Hs2 Hf EB)
        as [Hi' Hf'].
      split; [exact (proj1 (CmdFill_body_steady root _ _ _ _ _ _ _ _
                              (proj1 Hu) (proj2 Hu) Hs2 EB))|].
      split; [|auto].
      rewrite (CmdFill_body_cout _ _ _ _ _ _ _ EB); [exact Hc2|discriminate].
    + intros -> Hc3.
      apply (CmdFill_body_filled root _ n val start s2 v _ s3 Hn Ha Hi Hs2 Hf EB).
      congruence.
  - split; [exact Hs0|]. split; [reflexivity|]. split.
    + unfold fill_invariant, u32 in *. simpl.
      rewrite Z.add_0_r, wrap32_small; lia.
    + intros j Hj. simpl in Hj. lia.
Qed.

(** X19.  What [fill] wrote is what is there: when a [fill] returns [true]
    without a report, a read of the range in the state it leaves meets no
    fault and yields the value, reduced to eight bits, once for every byte
    of the count. *)
Theorem fill_is_read_back :
  forall (root : Z) (s : ProcessTrace) (addr n val : Z) (more : list Z)
         (s' : ProcessTrace),
    sound root s -> apart root (pmem (memory s)) ->
    u32 addr -> u32 n ->
    CmdFill s (addr :: n :: val :: more) = Done true s' -> cout s' = cout s ->
    exists m, get_bytes (memory s') addr n
              = (m, repeat (wrap8 val) (Z.to_nat n), None).
Proof.
  intros root s addr n val more s' [[Hm Hv] Hwf] Hap Ha Hn H Hc.
  unfold CmdFill, at_, bind in H. simpl nth_error in H. cbv iota beta in H.
  assert (Hs : steady root (pmem (memory s)) s).
  { unfold steady. auto using maps_kept_refl. }
  assert (Hv' : virtual_context root (vmem_pmcb s')).
  { refine (proj1 (proj2 (proj2 (loop_steady _ (fun v => u32 (fst v) /\ u32 (snd v))
                                   root (pmem (memory s)) _ _ s (addr, 0) true s'
                                   _ Hs H)))).
    - intros s1 v st s2 [Hv1 Hv2] Hs1 Hb.
      exact (CmdFill_body_steady root _ _ _ _ _ _ _ _ Hv1 Hv2 Hs1 Hb).
    - simpl. split; [exact Ha|unfold u32; lia]. }
  apply leave_true in H as (s1 & H & ->). simpl in Hc, Hv' |- *.
  pose proof (filling_loop_filled root addr n (wrap8 val) (loop_bound s) s s1
                Ha Hn Hs H Hc) as Hf.
  unfold get_bytes. simpl.
  rewrite (filled_read root (vmem_pmcb s1) _ (wrap8 val) (Z.to_nat n) addr Hv').
  - eauto.
  - unfold wrap8. apply Z.mod_pos_bound. lia.
  - exact Ha.
  - rewrite Z2Nat.id by (unfold u32 in *; lia). exact Hf.
Qed.

Lemma fill_is_read_back_witness :
  exists m,
    get_bytes (memory (state_of (CmdFill new_process [4094; 4; 513]) blank)) 4094 4
    = (m, repeat (wrap8 513) (Z.to_nat 4), None).
Proof.
  refine (fill_is_read_back 4096 new_process 4094 4 513 []
            (state_of (CmdFill new_process [4094; 4; 513]) blank)
            new_process_sound new_process_apart _ _ _ _).
  - unfold u32. lia.
  - unfold u32. lia.
  - vm_compute. reflexivity.
  - vm_compute. reflexivity.
Defined.

(* ===================================================================== *)
(** ** [writable] sets the pages it steps on, and no other *)
(* ===================================================================== *)

(** [SetWritableStatus(va, w)] edits the entry of the page of [va]: in a
    well-formed table whose tables are on distinct frames, every other page
    is translated as before, writable bit included. *)
Lemma set_writable_mem_others root pm free va w x :
  well_formed root pm free -> apart root pm -> u32 va -> u32 x ->
  x / 4096 <> va / 4096 ->
  walk (set_writable_mem pm root va w) root x = walk pm root x.
Proof.
  intros Hwf [At _] Hv Hx Hne. pose proof Hwf as [Hr _ _ _ _ Ht _].
  unfold set_writable_mem. cbv zeta.
  destruct (walk_L pm root va Hr Hv) as (_ & E1 & E2). rewrite E1.
  pose proof (l1_index_range va Hv) as Hi. pose proof (l2_index_range va) as Hj.
  set (i := va / 4194304) in *. set (j := (va / 4096) mod 1024) in *.
  destruct (L1 pm root i mod 2 =? 0) eqn:P1; [reflexivity|].
  apply Z.eqb_neq in P1.
  pose proof (Z.mod_pos_bound (L1 pm root i) 2 ltac:(lia)) as B1.
  assert (P1' : L1 pm root i mod 2 = 1) by lia.
  change (l2_slot (L1 pm root i) va) with (frame_of (L1 pm root i) + 4 * j).
  destruct (entry_at pm (frame_of (L1 pm root i) + 4 * j) mod 2 =? 0); [reflexivity|].
  set (e := set_writable_entry _ w).
  destruct (Ht i Hi P1') as [Htr _].
  pose proof (frame_of_L1 pm root i) as HT.
  set (pm' := store_entry pm (frame_of (L1 pm root i) + 4 * j) e).
  assert (H1 : forall i', 0 <= i' < 1024 -> L1 pm' root i' = L1 pm root i').
  { intros i' Hi'. unfold L1, pm'. apply entry_store_other; auto. }
  pose proof (l1_index_range x Hx) as Hix. pose proof (l2_index_range x) as Hjx.
  rewrite (walk_arith pm root x Hr Hx), (walk_arith pm' root x Hr Hx). cbv zeta.
  destruct (walk_L pm root x Hr Hx) as (_ & -> & ->).
  destruct (walk_L pm' root x Hr Hx) as (_ & -> & ->).
  rewrite (H1 _ Hix).
  destruct (L1 pm root (x / 4194304) mod 2 =? 0) eqn:Px; [reflexivity|].
  apply Z.eqb_neq in Px.
  pose proof (Z.mod_pos_bound (L1 pm root (x / 4194304)) 2 ltac:(lia)) as Bx.
  assert (E : L2 pm' root (x / 4194304) ((x / 4096) mod 1024)
              = L2 pm root (x / 4194304) ((x / 4096) mod 1024)).
  { unfold L2. rewrite (H1 _ Hix). unfold pm'.
    apply entry_store_other; auto using frame_of_L1.
    destruct (other_page_indices x va Hne) as [Hd|Hd]; [|right; intros E; apply Hd; auto].
    left. intros E. apply Hd. symmetry. apply At; auto; lia. }
  rewrite E. reflexivity.
Qed.

(** The loop of [CmdWritable] leaves every page it does not step on as it
    was. *)
Lemma writable_pages_mem_others root w free count : forall pm va x,
  well_formed root pm free -> apart root pm -> u32 va -> u32 x ->
  (forall k : nat, (k < count)%nat ->
     x / 4096 <> wrap32 (va + 4096 * Z.of_nat k) / 4096) ->
  walk (writable_pages_mem count pm root va w) root x = walk pm root x.
Proof.
  induction count as [|count IH]; intros pm va x Hwf Hap Hv Hx Hk; simpl;
    [reflexivity|].
  pose proof Hwf as [Hr _ _ _ _ _ _].
  pose proof (set_writable_mem_same_mapping pm root va w Hr Hv) as Hs.
  rewrite IH.
  - apply (set_writable_mem_others root pm free); auto.
    specialize (Hk 0%nat ltac:(lia)).
    rewrite Z.mul_0_r, Z.add_0_r, (wrap32_small va) in Hk by exact Hv. exact Hk.
  - exact (same_mapping_wf w root _ _ free Hwf Hs).
  - exact (same_mapping_apart w root _ _ Hr Hs Hap).
  - apply wrap32_range.
  - exact Hx.
  - intros k Hlt. specialize (Hk (S k) ltac:(lia)).
    replace (wrap32 (wrap32 (va + 4096) + 4096 * Z.of_nat k))
      with (wrap32 (va + 4096 * Z.of_nat (S k))); [exact Hk|].
    unfold wrap32. rewrite Z.add_mod_idemp_l by lia. f_equal. lia.
Qed.

(** The line read changes no memory. *)
Lemma ParseCommand_memory s p s1 : ParseCommand s = Done p s1 -> memory s1 = memory s.
Proof.
  unfold ParseCommand.
  destruct (trace s) as [|l rest]; [intros H; injection H as _ <-; reflexivity|].
  destruct l as [|c l]; [discriminate|].
  destruct (negb _).
  - destruct (read_word _) as [w r]. intros H. injection H as _ <-. reflexivity.
  - intros H. injection H as _ <-. reflexivity.
Qed.

Lemma boot_apart n lines quota :
  returns (boot n lines quota) (fun _ s => apart 4096 (pmem (memory s))).
Proof.
  unfold boot, ProcessTrace_new, Allocate1, bind. simpl.
  destruct (frames_from 4096 n) as [|root rest]; [exact I|]. simpl.
  apply apart_empty.
Qed.

(** From a new process on, every line is handed to its handler in a sound
    state whose tables and pages are on distinct frames. *)
Lemma handlers_start_tidy n lines quota s0 k s_k p s_p :
  Z.of_nat n <= 1048575 ->
  boot n lines quota = Done tt s0 ->
  rounds k (with_memory s0 (set_PMCB (memory s0) (vmem_pmcb s0))) 0 = Some s_k ->
  ParseCommand s_k = Done p s_p ->
  tidy 4096 s_k /\ tidy 4096 s_p.
Proof.
  intros Hn Hb Hr Hp.
  pose proof (boot_sound n lines quota Hn) as H0. rewrite Hb in H0. simpl in H0.
  pose proof (boot_apart n lines quota) as A0. rewrite Hb in A0. simpl in A0.
  assert (Hk : tidy 4096 s_k).
  { refine (proj1 (rounds_kept 4096 k _ 0 s_k _ Hr)). split; [|exact A0].
    apply sound_context; [exact H0|apply H0]. }
  split; [exact Hk|].
  pose proof (ParseCommand_sound 4096 s_k (proj1 Hk)) as H. rewrite Hp in H.
  split; [apply H|]. rewrite (ParseCommand_memory _ _ _ Hp). apply Hk.
Qed.

(** C6, amended.  [writable addr byteCount flag] returns without output and
    without touching allocator or counter; it changes neither which pages
    are present nor where they are mapped; each page that contains
    [addr + k * 0x1000] for some [k < byteCount / pageSize], when mapped,
    has its writable bit equal to the flag afterwards; and exactly those:
    in a well-formed table on distinct frames, as the command loop keeps
    it, every other page is translated as before, writable bit included. *)
Theorem writable_sets_the_pages_it_steps_on :
  forall (root : Z) (s : ProcessTrace) (addr byte_count flag : Z),
    in_virtual_mode root s -> frame root -> u32 addr -> u32 byte_count ->
    exists s',
      CmdWritable s [addr; byte_count; flag] = Done tt s'
      /\ allocator s' = allocator s /\ allocated_pages s' = allocated_pages s
      /\ cout s' = cout s
      /\ (forall va, u32 va ->
            same_translation (walk (pmem (memory s)) root va)
                             (walk (pmem (memory s')) root va))
      /\ (forall (k : nat) va pa w,
            Z.of_nat k < byte_count / kPageSize -> u32 va ->
            va / 4096 = wrap32 (addr + 4096 * Z.of_nat k) / 4096 ->
            walk (pmem (memory s)) root va = Mapped pa w ->
            walk (pmem (memory s')) root va = Mapped pa (negb (flag =? 0)))
      /\ (well_formed root (pmem (memory s)) (allocator s) ->
          apart root (pmem (memory s)) ->
          forall va, u32 va ->
            (forall k : nat, Z.of_nat k < byte_count / kPageSize ->
               va / 4096 <> wrap32 (addr + 4096 * Z.of_nat k) / 4096) ->
            walk (pmem (memory s')) root va = walk (pmem (memory s)) root va).
Proof.
  intros root s addr bc flag [[Hm1 Hm2] Hv] Hr Ha Hb.
  unfold CmdWritable, at_, bind. simpl nth_error. cbv iota beta.
  set (s2 := with_memory (with_vmem_pmcb s (get_PMCB (memory s)))
               (set_PMCB (memory (with_vmem_pmcb s (get_PMCB (memory s)))) pmem_pmcb)).
  destruct (writable_pages_physical root (Z.to_nat (bc / kPageSize)) s2 addr
              (negb (flag =? 0))) as (s3 & E & Hm); auto.
  pose proof (writable_pages_fields (Z.to_nat (bc / kPageSize)) s2 addr
                (negb (flag =? 0))) as Hf.
  rewrite E in Hf. simpl in Hf. destruct Hf as (_ & Hc & _ & Hp & Hal & _).
  rewrite E. eexists. split; [reflexivity|]. simpl. rewrite Hm.
  assert (H0 : 0 <= bc / kPageSize)
    by (apply Z.div_pos; unfold u32, kPageSize in *; lia).
  split; [exact Hal|]. split; [exact Hp|]. split; [exact Hc|]. split; [|split].
  - intros va Hva. eapply same_mapping_walk; eauto.
    apply writable_pages_mem_same_mapping; assumption.
  - intros k va pa w Hk Hva Hp' Hw.
    eapply writable_pages_mem_sets; eauto. lia.
  - intros Hwf Hap va Hva Hk.
    apply (writable_pages_mem_others root _ (allocator s)); auto.
    intros k Hlt. apply Hk. lia.
Qed.

(** A process with two mapped pages, both writable. *)
Definition two_pages_trace : list string :=
  ["quota 5"; "put ffe 1 2 3"; "writable 800 1000 0"].
Definition two_pages_start : ProcessTrace :=
  state_of (boot 8 two_pages_trace 0) blank.
Definition two_pages : ProcessTrace :=
  default blank
    (rounds 2 (with_memory two_pages_start
                 (set_PMCB (memory two_pages_start) (vmem_pmcb two_pages_start))) 0).

Lemma two_pages_tidy : tidy 4096 two_pages.
Proof.
  refine (proj1 (handlers_start_tidy 8 two_pages_trace 0 two_pages_start 2 two_pages
                   (true, "writable 800 1000 0", "writable", [2048; 4096; 0])
                   (state_of (ParseCommand two_pages) blank) _ _ _ _)).
  - simpl. lia.
  - vm_compute. reflexivity.
  - vm_compute. reflexivity.
  - vm_compute. reflexivity.
Qed.

Lemma writable_sets_the_pages_witness :
  exists s',
    CmdWritable two_pages [2048; 4096; 0] = Done tt s'
    /\ allocator s' = allocator two_pages
    /\ allocated_pages s' = allocated_pages two_pages
    /\ cout s' = cout two_pages
    /\ (forall va, u32 va ->
          same_translation (walk (pmem (memory two_pages)) 4096 va)
                           (walk (pmem (memory s')) 4096 va))
    /\ (forall (k : nat) va pa w,
          Z.of_nat k < 4096 / kPageSize -> u32 va ->
          va / 4096 = wrap32 (2048 + 4096 * Z.of_nat k) / 4096 ->
          walk (pmem (memory two_pages)) 4096 va = Mapped pa w ->
          walk (pmem (memory s')) 4096 va = Mapped pa (negb (0 =? 0)))
    /\ (forall va, u32 va ->
          (forall k : nat, Z.of_nat k < 4096 / kPageSize ->
             va / 4096 <> wrap32 (2048 + 4096 * Z.of_nat k) / 4096) ->
          walk (pmem (memory s')) 4096 va = walk (pmem (memory two_pages)) 4096 va)
    /\ walk (pmem (memory s')) 4096 0 = Mapped 12288 false
    /\ walk (pmem (memory s')) 4096 4096 = Mapped 16384 true.
Proof.
  destruct (writable_sets_the_pages_it_steps_on 4096 two_pages 2048 4096 0
              (proj1 (proj1 two_pages_tidy))
              (wf_root _ _ _ (proj2 (proj1 two_pages_tidy))))
    as (s' & E & A & B & C & D & F & G).
  - unfold u32. lia.
  - unfold u32. lia.
  - pose proof (G (proj2 (proj1 two_pages_tidy)) (proj2 two_pages_tidy)) as G'.
    exists s'. split; [exact E|]. split; [exact A|]. split; [exact B|].
    split; [exact C|]. split; [exact D|]. split; [exact F|]. split; [exact G'|].
    split.
    + refine (F 0%nat 0 12288 true _ _ _ _).
      * reflexivity.
      * unfold u32. lia.
      * reflexivity.
      * vm_compute. reflexivity.
    + rewrite (G' 4096).
      * vm_compute. reflexivity.
      * unfold u32. lia.
      * intros k Hk. change (4096 / kPageSize) with 1 in Hk.
        assert (Ek : k = 0%nat) by lia. subst k. discriminate.
Defined.

(* ===================================================================== *)
(** ** A write that meets a read-only page *)
(* ===================================================================== *)



















